(** * go-adb-monitor: wire framing, socket-table and trace parsers,
      resolver privacy filter, ring store and tracker backoff.

    A shallow embedding of the Go sources.  Go strings are byte strings and
    are modelled by [string] (a list of 8-bit [ascii]); Go integers are
    modelled by [Z] with the wrap-around of their width written out. *)

From Stdlib Require Import ZArith Ascii String List Lia.
From stdpp Require Import gmap strings list.
Import ListNotations.

Local Open Scope string_scope.
Local Open Scope Z_scope.

(** ** Pieces of the Go standard library used by the sources *)

Module GoLib.

(** The numeric value of a byte. *)
Definition byte_val (c : ascii) : Z := Z.of_N (N_of_ascii c).

(** Conversion of an integer to a byte ([byte(x)]), keeping the low 8 bits. *)
Definition to_byte (z : Z) : ascii := ascii_of_N (Z.to_N (z mod 256)).

(** Wrap-around of the fixed-width integer types. *)
Definition wrap_u8 (z : Z) : Z := z mod 2 ^ 8.
Definition wrap_u16 (z : Z) : Z := z mod 2 ^ 16.
Definition wrap_u32 (z : Z) : Z := z mod 2 ^ 32.
Definition wrap_u64 (z : Z) : Z := z mod 2 ^ 64.
Definition wrap_i64 (z : Z) : Z := (z + 2 ^ 63) mod 2 ^ 64 - 2 ^ 63.

(** [len(s)] *)
Definition len (s : string) : Z := Z.of_nat (String.length s).

(** The digit tables of package [fmt]. *)
Definition ldigits : string := "0123456789abcdef".
Definition udigits : string := "0123456789ABCDEF".

Definition digit_of (table : string) (d : Z) : ascii :=
  match String.get (Z.to_nat d) table with
  | Some c => c
  | None => "?"%char
  end.

(** The digit loop of [fmt.fmtInteger] for an unsigned value [u] in the given
    base (10 or 16): digits are produced from the least significant one while
    [u >= base], then the last one is written. *)
Fixpoint fmt_digits (fuel : nat) (table : string) (base u : Z) (acc : string)
  : string :=
  match fuel with
  | O => acc
  | S fuel' =>
      if base <=? u
      then fmt_digits fuel' table base (u / base)
             (String (digit_of table (u mod base)) acc)
      else String (digit_of table u) acc
  end.

(** Zero padding on the left up to a minimal width (the [0] flag). *)
Fixpoint zeros (n : nat) : string :=
  match n with
  | O => EmptyString
  | S n' => String "0"%char (zeros n')
  end.

Definition pad_zero (width : nat) (s : string) : string :=
  zeros (width - String.length s) ++ s.

(** A 64-bit value has at most 20 decimal and 16 hexadecimal digits. *)
Definition fmt_fuel : nat := 20.

(** [%d] of a non-negative integer, [%x], [%04x] and [%02X]. *)
Definition fmt_d (u : Z) : string := fmt_digits fmt_fuel ldigits 10 u "".
Definition fmt_x (u : Z) : string := fmt_digits fmt_fuel ldigits 16 u "".
Definition fmt_04x (u : Z) : string := pad_zero 4 (fmt_x u).
Definition fmt_02X (u : Z) : string :=
  pad_zero 2 (fmt_digits fmt_fuel udigits 16 u "").

(** [io.ReadFull(r, buf)] with [len(buf) = n] on a reader that holds the
    bytes [r] and then ends: either [n] bytes and the rest of the stream, or
    a failure ([io.EOF] when nothing was left, [io.ErrUnexpectedEOF] when the
    stream ended early). *)
Inductive io_error := EOF | ErrUnexpectedEOF.

Fixpoint take_bytes (n : nat) (r : string) : option (string * string) :=
  match n with
  | O => Some (EmptyString, r)
  | S n' =>
      match r with
      | EmptyString => None
      | String c r' =>
          match take_bytes n' r' with
          | Some (b, rest) => Some (String c b, rest)
          | None => None
          end
      end
  end.

Definition ReadFull (n : nat) (r : string) : (string + io_error) * string :=
  match take_bytes n r with
  | Some (b, rest) => (inl b, rest)
  | None =>
      (inr (match r with EmptyString => EOF | _ => ErrUnexpectedEOF end),
       EmptyString)
  end.

(** *** Package strings, on byte strings.  Go's functions treat a string as
    UTF-8 text; the white space recognised here is the ASCII white space
    (['\t'], ['\n'], ['\v'], ['\f'], ['\r'], [' ']), which is all there is in
    the outputs the parsers read. *)

Definition is_space (c : ascii) : bool :=
  let v := byte_val c in
  (v =? 32) || ((9 <=? v) && (v <=? 13)).

Fixpoint TrimLeft_space (s : string) : string :=
  match s with
  | String c s' => if is_space c then TrimLeft_space s' else s
  | EmptyString => EmptyString
  end.

(** Trailing white space is dropped from the end: a suffix made of white
    space only. *)
Fixpoint TrimRight_space (s : string) : string :=
  match s with
  | EmptyString => EmptyString
  | String c s' =>
      match TrimRight_space s' with
      | EmptyString => if is_space c then EmptyString else String c EmptyString
      | t => String c t
      end
  end.

Definition TrimSpace (s : string) : string :=
  TrimRight_space (TrimLeft_space s).

Fixpoint HasPrefix (s prefix : string) : bool :=
  match prefix, s with
  | EmptyString, _ => true
  | String p prefix', String c s' => Ascii.eqb p c && HasPrefix s' prefix'
  | String _ _, EmptyString => false
  end.

(** [strings.Split(s, sep)] for a one-byte separator. *)
Fixpoint Split (s : string) (sep : ascii) : list string :=
  match s with
  | EmptyString => [EmptyString]
  | String c s' =>
      if Ascii.eqb c sep then EmptyString :: Split s' sep
      else match Split s' sep with
           | part :: parts => String c part :: parts
           | [] => [String c EmptyString]
           end
  end.

(** [strings.SplitN(s, sep, 2)] for a one-byte separator: one part when the
    separator does not occur, else the parts before and after its first
    occurrence. *)
Fixpoint SplitN2 (s : string) (sep : ascii) : list string :=
  match s with
  | EmptyString => [EmptyString]
  | String c s' =>
      if Ascii.eqb c sep then [EmptyString; s']
      else match SplitN2 s' sep with
           | part :: parts => String c part :: parts
           | [] => [String c EmptyString]
           end
  end.

(** [strings.Fields]: the maximal runs of bytes that are not white space. *)
Fixpoint Fields_aux (s : string) (cur : string) : list string :=
  match s with
  | EmptyString =>
      match cur with EmptyString => [] | _ => [cur] end
  | String c s' =>
      if is_space c then
        match cur with
        | EmptyString => Fields_aux s' EmptyString
        | _ => cur :: Fields_aux s' EmptyString
        end
      else Fields_aux s' (cur ++ String c EmptyString)
  end.

Definition Fields (s : string) : list string := Fields_aux s EmptyString.

(** [strings.Join] *)
Fixpoint Join (parts : list string) (sep : string) : string :=
  match parts with
  | [] => EmptyString
  | [part] => part
  | part :: rest => part ++ sep ++ Join rest sep
  end.

(** [strings.Index]: the position of the first occurrence, or [-1]. *)
Fixpoint Index_from (s substr : string) (pos : Z) : Z :=
  if HasPrefix s substr then pos
  else match s with
       | EmptyString => -1
       | String _ s' => Index_from s' substr (pos + 1)
       end.

Definition Index (s substr : string) : Z := Index_from s substr 0.

Definition Contains (s substr : string) : bool := 0 <=? Index s substr.

(** [strings.ToLower] on ASCII letters. *)
Definition lower_byte (c : ascii) : ascii :=
  let v := byte_val c in
  if (65 <=? v) && (v <=? 90) then to_byte (v + 32) else c.

Fixpoint ToLower (s : string) : string :=
  match s with
  | EmptyString => EmptyString
  | String c s' => String (lower_byte c) (ToLower s')
  end.

(** [s[i:j]], for [0 <= i <= j <= len(s)]. *)
Definition slice (s : string) (i j : Z) : string :=
  String.substring (Z.to_nat i) (Z.to_nat (j - i)) s.

(** *** Package strconv *)

Inductive num_error := ErrSyntax | ErrRange.

(** The value of a digit in the given base, if it is one. *)
Definition digit_val (base : Z) (c : ascii) : option Z :=
  let v := byte_val c in
  let d :=
    if (48 <=? v) && (v <=? 57) then v - 48
    else if (97 <=? v) && (v <=? 122) then v - 97 + 10
    else if (65 <=? v) && (v <=? 90) then v - 65 + 10
    else 36 in
  if d <? base then Some d else None.

(** The digit loop: the value, or [None] at a byte that is not a digit. *)
Fixpoint digits_value (base : Z) (s : string) (acc : Z) : option Z :=
  match s with
  | EmptyString => Some acc
  | String c s' =>
      match digit_val base c with
      | Some d => digits_value base s' (acc * base + d)
      | None => None
      end
  end.

(** [strconv.ParseUint(s, base, bitSize)] for a base of 10 or 16: the value
    and the error; on a range error the value is the largest one of the
    size. *)
Definition ParseUint (s : string) (base : Z) (bitSize : Z)
  : Z * option num_error :=
  match s with
  | EmptyString => (0, Some ErrSyntax)
  | _ =>
      match digits_value base s 0 with
      | None => (0, Some ErrSyntax)
      | Some v =>
          if 2 ^ bitSize <=? v then (2 ^ bitSize - 1, Some ErrRange)
          else (v, None)
      end
  end.

(** [strconv.Atoi] on a 64-bit platform: an optional sign, decimal digits;
    on a range error the value is the nearest bound. *)
Definition Atoi (s : string) : Z * option num_error :=
  let '(neg, body) :=
    match s with
    | String "-" s' => (true, s')
    | String "+" s' => (false, s')
    | _ => (false, s)
    end in
  match body with
  | EmptyString => (0, Some ErrSyntax)
  | _ =>
      match digits_value 10 body 0 with
      | None => (0, Some ErrSyntax)
      | Some v =>
          if neg then
            if 2 ^ 63 <? v then (- 2 ^ 63, Some ErrRange) else (- v, None)
          else
            if 2 ^ 63 <=? v then (2 ^ 63 - 1, Some ErrRange) else (v, None)
      end
  end.

(** *** Package encoding/hex *)

(** [hex.DecodeString]: the bytes, or [None] at a byte that is not a hex
    digit or for an odd length. *)
Fixpoint DecodeString (s : string) : option (list Z) :=
  match s with
  | EmptyString => Some []
  | String _ EmptyString => None
  | String hi (String lo s') =>
      match digit_val 16 hi, digit_val 16 lo, DecodeString s' with
      | Some a, Some b, Some rest => Some ((a * 16 + b) :: rest)
      | _, _, _ => None
      end
  end.

End GoLib.

(** ** Package net: textual IP addresses and networks

    A model of [net.ParseIP] (through [netip.ParseAddr]), [net.ParseCIDR],
    [net.CIDRMask], [IP.To4], [IP.Mask] and [IPNet.Contains].  An [IP] is a
    byte slice of length 4 or 16. *)

Module Net.
Import GoLib.

Definition IP : Type := list Z.
Definition IPMask : Type := list Z.

Record IPNet := mkIPNet {
  net_IP : IP;
  net_Mask : IPMask
}.

Definition IPv4len : Z := 4.
Definition IPv6len : Z := 16.

Definition is_digit (c : ascii) : bool :=
  (48 <=? byte_val c) && (byte_val c <=? 57).

Definition is_dot (c : ascii) : bool := Ascii.eqb c ".".

(** [netip.parseIPv4Fields]: the loop over the text, with the octet value
    [val], the number [pos] of octets stored, and the number [digLen] of
    digits of the current octet; [first] says that the byte is the first one
    and [prev_dot] that the byte before it was a dot. *)
Fixpoint parseIPv4Fields_loop (s : string) (first prev_dot : bool)
  (val pos digLen : Z) (fields : list Z) : option (list Z) :=
  match s with
  | EmptyString =>
      if pos <? 3 then None else Some (fields ++ [wrap_u8 val])%list
  | String c s' =>
      if is_digit c then
        if (digLen =? 1) && (val =? 0) then None
        else
          let val := val * 10 + (byte_val c - 48) in
          if 255 <? val then None
          else parseIPv4Fields_loop s' false false val pos (digLen + 1) fields
      else if is_dot c then
        if first || (match s' with EmptyString => true | _ => false end)
           || prev_dot
        then None
        else if pos =? 3 then None
        else parseIPv4Fields_loop s' false true 0 (pos + 1) 0
               (fields ++ [wrap_u8 val])%list
      else None
  end.

Definition parseIPv4Fields (s : string) : option (list Z) :=
  parseIPv4Fields_loop s true false 0 0 0 [].

(** The 16-byte form of an IPv4 address ([Addr.As16]). *)
Definition v4InV6Prefix : list Z := [0; 0; 0; 0; 0; 0; 0; 0; 0; 0; 255; 255].

Definition parseIPv4 (s : string) : option IP :=
  fields ← parseIPv4Fields s;
  Some (v4InV6Prefix ++ fields)%list.

(** The hex-number loop of [netip.parseIPv6]: the value of the group, the
    number of digits read and the text left. *)
Fixpoint hex_group (s : string) (off acc : Z) : option (Z * Z * string) :=
  match s with
  | EmptyString => Some (acc, off, s)
  | String c s' =>
      match (if is_digit c || ((97 <=? byte_val c) && (byte_val c <=? 102))
                || ((65 <=? byte_val c) && (byte_val c <=? 70))
             then digit_val 16 c else None) with
      | None => Some (acc, off, s)
      | Some d =>
          let acc := wrap_u32 (wrap_u32 (Z.shiftl acc 4) + d) in
          if 3 <? off then None
          else if 65535 <? acc then None
          else hex_group s' (off + 1) acc
      end
  end.

(** The main loop of [netip.parseIPv6].  The bytes written so far are kept
    as the list [ip], whose length is the index [i] of the source; [ellipsis]
    is the position of [::], or [-1].  The result is the bytes written, the
    position of the ellipsis and the text left. *)
Fixpoint parseIPv6_loop (fuel : nat) (s : string) (ip : list Z) (ellipsis : Z)
  : option (list Z * Z * string) :=
  match fuel with
  | O => Some (ip, ellipsis, s)
  | S fuel' =>
      let i := Z.of_nat (length ip) in
      if 16 <=? i then Some (ip, ellipsis, s)
      else
        match hex_group s 0 0 with
        | None => None
        | Some (acc, off, rest) =>
            if off =? 0 then None
            else
              match rest with
              | String "." _ =>
                  if (ellipsis <? 0) && negb (i =? 12) then None
                  else if 16 <? i + 4 then None
                  else
                    match parseIPv4Fields s with
                    | None => None
                    | Some fields => Some ((ip ++ fields)%list, ellipsis, EmptyString)
                    end
              | _ =>
                  let ip := (ip ++ [wrap_u8 (Z.shiftr acc 8); wrap_u8 acc])%list in
                  let i := i + 2 in
                  match rest with
                  | EmptyString => Some (ip, ellipsis, EmptyString)
                  | String ":" EmptyString => None
                  | String ":" (String ":" rest') =>
                      if 0 <=? ellipsis then None
                      else
                        match rest' with
                        | EmptyString => Some (ip, i, EmptyString)
                        | _ => parseIPv6_loop fuel' rest' ip i
                        end
                  | String ":" rest' => parseIPv6_loop fuel' rest' ip ellipsis
                  | _ => None
                  end
              end
        end
  end.

Definition has_zone (s : string) : bool := 0 <=? Index s "%".

(** [netip.parseIPv6] followed by the test of [net.parseIP] that the address
    has no zone. *)
Definition parseIPv6 (s : string) : option IP :=
  if has_zone s then None
  else
    let '(s, ellipsis) :=
      match s with
      | String ":" (String ":" s') => (s', 0)
      | _ => (s, -1)
      end in
    match s, ellipsis with
    | EmptyString, 0 => Some (replicate 16 0)
    | _, _ =>
        match parseIPv6_loop 9 s [] ellipsis with
        | None => None
        | Some (ip, ellipsis, rest) =>
            match rest with
            | String _ _ => None
            | EmptyString =>
                let i := Z.of_nat (length ip) in
                if i <? 16 then
                  if ellipsis <? 0 then None
                  else
                    let e := Z.to_nat ellipsis in
                    Some (take e ip ++ replicate (Z.to_nat (16 - i)) 0
                          ++ drop e ip)%list
                else if 0 <=? ellipsis then None
                else Some ip
            end
        end
    end.

(** [netip.ParseAddr]: the first of ['.'], [':'] and ['%'] decides. *)
Fixpoint first_separator (s : string) : option ascii :=
  match s with
  | EmptyString => None
  | String c s' =>
      if Ascii.eqb c "." || Ascii.eqb c ":" || Ascii.eqb c "%" then Some c
      else first_separator s'
  end.

(** [net.ParseIP]: the address in its 16-byte form, or [None] for [nil]. *)
Definition ParseIP (s : string) : option IP :=
  match first_separator s with
  | Some "."%char => parseIPv4 s
  | Some ":"%char => parseIPv6 s
  | _ => None
  end.

(** [IP.To4] *)
Definition To4 (ip : IP) : option IP :=
  if Z.of_nat (length ip) =? IPv4len then Some ip
  else if (Z.of_nat (length ip) =? IPv6len)
          && forallb (Z.eqb 0) (take 10 ip)
          && (nth 10 ip 0 =? 255) && (nth 11 ip 0 =? 255)
  then Some (drop 12 ip)
  else None.

(** [net.CIDRMask(ones, bits)] *)
Fixpoint CIDRMask_loop (l : nat) (n : Z) : IPMask :=
  match l with
  | O => []
  | S l' =>
      if 8 <=? n then 255 :: CIDRMask_loop l' (n - 8)
      else wrap_u8 (Z.lnot (Z.shiftr 255 n)) :: CIDRMask_loop l' 0
  end.

Definition CIDRMask (ones bits : Z) : IPMask :=
  CIDRMask_loop (Z.to_nat (bits / 8)) ones.

(** [IP.Mask] *)
Definition list_eqb (a b : list Z) : bool :=
  (length a =? length b)%nat && forallb (fun p => fst p =? snd p) (combine a b).

Definition IP_Mask (ip : IP) (mask : IPMask) : option IP :=
  let mask :=
    if (Z.of_nat (length mask) =? IPv6len) && (Z.of_nat (length ip) =? IPv4len)
       && forallb (Z.eqb 255) (take 12 mask)
    then drop 12 mask else mask in
  let ip :=
    if (Z.of_nat (length mask) =? IPv4len) && (Z.of_nat (length ip) =? IPv6len)
       && list_eqb (take 12 ip) v4InV6Prefix
    then drop 12 ip else ip in
  if negb (length ip =? length mask)%nat then None
  else Some (map (fun p => Z.land (fst p) (snd p)) (combine ip mask)).

(** [net.ParseCIDR]: the network, or [None] for an error. *)
Definition ParseCIDR (s : string) : option IPNet :=
  match SplitN2 s "/" with
  | [addr; mask] =>
      match first_separator addr with
      | Some "."%char =>
          ip ← parseIPv4 addr;
          n ← (match mask with EmptyString => None | _ => digits_value 10 mask 0 end);
          if 32 <? n then None
          else
            let m := CIDRMask n 32 in
            masked ← IP_Mask ip m;
            Some (mkIPNet masked m)
      | Some ":"%char =>
          ip ← parseIPv6 addr;
          n ← (match mask with EmptyString => None | _ => digits_value 10 mask 0 end);
          if 128 <? n then None
          else
            let m := CIDRMask n 128 in
            masked ← IP_Mask ip m;
            Some (mkIPNet masked m)
      | _ => None
      end
  | _ => None
  end.

(** [networkNumberAndMask] and [IPNet.Contains] *)
Definition networkNumberAndMask (n : IPNet) : option (IP * IPMask) :=
  let ip := match To4 (net_IP n) with Some ip4 => Some ip4
            | None => if Z.of_nat (length (net_IP n)) =? IPv6len
                      then Some (net_IP n) else None end in
  match ip with
  | None => None
  | Some ip =>
      let m := net_Mask n in
      if Z.of_nat (length m) =? IPv4len then
        if Z.of_nat (length ip) =? IPv4len then Some (ip, m) else None
      else if Z.of_nat (length m) =? IPv6len then
        if Z.of_nat (length ip) =? IPv4len then Some (ip, drop 12 m)
        else Some (ip, m)
      else None
  end.

Fixpoint same_masked (nn m ip : list Z) : bool :=
  match nn, m, ip with
  | n0 :: nn', m0 :: m', i0 :: ip' =>
      (Z.land n0 m0 =? Z.land i0 m0) && same_masked nn' m' ip'
  | _, _, _ => true
  end.

Definition IPNet_Contains (n : IPNet) (ip : IP) : bool :=
  match networkNumberAndMask n with
  | None => false
  | Some (nn, m) =>
      let ip := match To4 ip with Some x => x | None => ip end in
      if negb (length ip =? length nn)%nat then false
      else same_masked nn m ip
  end.

End Net.

(** ** Package regexp

    The expressions of the trace parser, and a backtracking matcher for them.
    [regexp] returns the match that a backtracking search finds first
    (leftmost-first), which is what [FindStringSubmatch] below computes.  The
    matcher works on bytes; the classes used in the sources ([\d], [\s],
    [\S], [.]) treat every byte of a multi-byte rune alike. *)

Module Regexp.
Import GoLib.

Inductive regex :=
| Eps
| Chr (c : ascii)
| ChrFold (c : ascii)
| Class (p : ascii -> bool)
| Seq (r1 r2 : regex)
| Alt (r1 r2 : regex)
| Star (r : regex)
| Group (i : nat) (r : regex)
| Bol
| Eol.

(** Derived forms: [r+], [r{n}], a literal text, and the same under [(?i)]. *)
Definition Plus (r : regex) : regex := Seq r (Star r).

Fixpoint Rep (n : nat) (r : regex) : regex :=
  match n with
  | O => Eps
  | S n' => Seq r (Rep n' r)
  end.

Fixpoint Lit (s : string) : regex :=
  match s with
  | EmptyString => Eps
  | String c s' => Seq (Chr c) (Lit s')
  end.

Fixpoint LitFold (s : string) : regex :=
  match s with
  | EmptyString => Eps
  | String c s' => Seq (ChrFold c) (LitFold s')
  end.

(** A sequence and a choice of several expressions. *)
Fixpoint Concat (rs : list regex) : regex :=
  match rs with
  | [] => Eps
  | r :: rs' => Seq r (Concat rs')
  end.

Fixpoint Alts (rs : list regex) : regex :=
  match rs with
  | [] => Class (fun _ => false)
  | [r] => r
  | r :: rs' => Alt r (Alts rs')
  end.

(** The classes [\d], [\s] (which is [[\t\n\f\r ]]), [\S] and [.]. *)
Definition cls_d (c : ascii) : bool :=
  (48 <=? byte_val c) && (byte_val c <=? 57).

Definition cls_s (c : ascii) : bool :=
  let v := byte_val c in
  (v =? 9) || (v =? 10) || (v =? 12) || (v =? 13) || (v =? 32).

Definition cls_S (c : ascii) : bool := negb (cls_s c).

Definition cls_dot (c : ascii) : bool := negb (byte_val c =? 10).

(** The captured texts, by group number; group 0 is the whole match. *)
Definition captures : Type := list string.

Definition set_capture (i : nat) (text : string) (cs : captures) : captures :=
  <[i := text]> cs.

(** [rmatch r pos s cs k]: match [r] at position [pos], where the text left
    is [s], and go on with [k]; alternatives are tried in order and a star
    takes as many rounds as it can before it gives one back. *)
Fixpoint rmatch (r : regex) (pos : nat) (s : string) (cs : captures)
  (k : nat -> string -> captures -> option captures) {struct r}
  : option captures :=
  match r with
  | Eps => k pos s cs
  | Chr c =>
      match s with
      | String c' s' => if Ascii.eqb c c' then k (S pos) s' cs else None
      | EmptyString => None
      end
  | ChrFold c =>
      match s with
      | String c' s' =>
          if Ascii.eqb (lower_byte c) (lower_byte c') then k (S pos) s' cs
          else None
      | EmptyString => None
      end
  | Class p =>
      match s with
      | String c' s' => if p c' then k (S pos) s' cs else None
      | EmptyString => None
      end
  | Seq r1 r2 =>
      rmatch r1 pos s cs (fun pos' s' cs' => rmatch r2 pos' s' cs' k)
  | Alt r1 r2 =>
      match rmatch r1 pos s cs k with
      | Some cs' => Some cs'
      | None => rmatch r2 pos s cs k
      end
  | Star r1 =>
      (fix rounds (fuel : nat) (pos : nat) (s : string) (cs : captures)
         : option captures :=
         match fuel with
         | O => k pos s cs
         | S fuel' =>
             match rmatch r1 pos s cs
                     (fun pos' s' cs' =>
                        if (pos' =? pos)%nat then None
                        else rounds fuel' pos' s' cs') with
             | Some cs' => Some cs'
             | None => k pos s cs
             end
         end) (S (String.length s)) pos s cs
  | Group i r1 =>
      rmatch r1 pos s cs
        (fun pos' s' cs' =>
           k pos' s' (set_capture i (String.substring 0 (pos' - pos) s) cs'))
  | Bol => if (pos =? 0)%nat then k pos s cs else None
  | Eol =>
      match s with
      | EmptyString => k pos s cs
      | String _ _ => None
      end
  end.

(** The number of groups of an expression. *)
Fixpoint num_groups (r : regex) : nat :=
  match r with
  | Seq r1 r2 | Alt r1 r2 => Nat.max (num_groups r1) (num_groups r2)
  | Star r1 => num_groups r1
  | Group i r1 => Nat.max i (num_groups r1)
  | _ => O
  end.

(** [FindStringSubmatch]: the leftmost match, as the list of the texts of
    group 0 (the match) and of the numbered groups, or [None] for [nil]. *)
Fixpoint find_from (r : regex) (pos : nat) (s : string) : option captures :=
  match rmatch r pos s (replicate (S (num_groups r)) EmptyString)
          (fun pos' _ cs =>
             Some (set_capture 0 (String.substring 0 (pos' - pos) s) cs)) with
  | Some cs => Some cs
  | None =>
      match s with
      | EmptyString => None
      | String _ s' => find_from r (S pos) s'
      end
  end.

Definition FindStringSubmatch (r : regex) (s : string) : option captures :=
  find_from r 0 s.

End Regexp.

(** ** Package adb: the wire protocol *)

Module Adb.
Import GoLib.

(** The errors [ReadLengthPrefixed] builds.  [ErrInvalidHexDigit] wraps the
    sentinel [ErrProtocol] ([%w]). *)
Inductive error :=
| ErrReadingLengthPrefix (cause : io_error)
| ErrInvalidHexDigit (b : ascii)
| ErrReadingPayload (length : Z) (cause : io_error).

(** [errors.Is(err, ErrProtocol)] *)
Definition is_ErrProtocol (e : error) : bool :=
  match e with
  | ErrInvalidHexDigit _ => true
  | _ => false
  end.

(** [writeCommand]: the bytes written to [w]. *)
Definition writeCommand (cmd : string) : string :=
  fmt_04x (len cmd) ++ cmd.

(** The loop of [ReadLengthPrefixed] over [lengthBuf]; [length] is a
    [uint32]. *)
Definition between (lo hi b : ascii) : bool :=
  (byte_val lo <=? byte_val b) && (byte_val b <=? byte_val hi).

Fixpoint parse_length_prefix (lengthBuf : string) (length : Z) : Z + ascii :=
  match lengthBuf with
  | EmptyString => inl length
  | String b rest =>
      let length := wrap_u32 (Z.shiftl length 4) in
      if between "0" "9" b then
        parse_length_prefix rest (Z.lor length (wrap_u8 (byte_val b - byte_val "0")))
      else if between "a" "f" b then
        parse_length_prefix rest
          (Z.lor length (wrap_u32 (wrap_u8 (byte_val b - byte_val "a") + 10)))
      else if between "A" "F" b then
        parse_length_prefix rest
          (Z.lor length (wrap_u32 (wrap_u8 (byte_val b - byte_val "A") + 10)))
      else inr b
  end.

(** [ReadLengthPrefixed]: the result and the bytes left in the reader. *)
Definition ReadLengthPrefixed (r : string) : (string + error) * string :=
  match ReadFull 4 r with
  | (inr e, r1) => (inr (ErrReadingLengthPrefix e), r1)
  | (inl lengthBuf, r1) =>
      match parse_length_prefix lengthBuf 0 with
      | inr b => (inr (ErrInvalidHexDigit b), r1)
      | inl length =>
          if length =? 0 then (inl "", r1)
          else
            match ReadFull (Z.to_nat length) r1 with
            | (inr e, r2) => (inr (ErrReadingPayload length e), r2)
            | (inl payload, r2) => (inl payload, r2)
            end
      end
  end.

(** The four bytes of a length prefix, and what makes one malformed. *)
Definition is_hex_digit (b : ascii) : bool :=
  between "0" "9" b || between "a" "f" b || between "A" "F" b.

Definition is_lower_hex_digit (b : ascii) : bool :=
  between "0" "9" b || between "a" "f" b.

(** What the encoder's prefix has to satisfy for a payload length [n]: four
    lower-case hex digits that the decoding loop reads back as [n]. *)
Definition prefix_ok (n : Z) : bool :=
  match fmt_04x n with
  | String a (String b (String c (String d EmptyString))) as p =>
      forallb is_lower_hex_digit [a; b; c; d]
      && match parse_length_prefix p 0 with
         | inl m => m =? n
         | inr _ => false
         end
  | _ => false
  end.

(** A predicate checked on every value of four hex digits. *)
Definition nibbles : list Z := [0; 1; 2; 3; 4; 5; 6; 7; 8; 9; 10; 11; 12; 13; 14; 15].

Definition all4 (f : Z -> bool) : bool :=
  forallb (fun a => forallb (fun b => forallb (fun c => forallb (fun d =>
    f (((a * 16 + b) * 16 + c) * 16 + d)) nibbles) nibbles) nibbles) nibbles.

End Adb.

(** ** Package capture: the data model *)

Module Capture.
Import GoLib Net Regexp.

(** [time.Time], kept abstract as an instant; the zero value is [0]. *)
Definition Time : Type := Z.
Definition zeroTime : Time := 0.

(** [type Protocol string] and [type ConnState string] with their constants. *)
Definition Protocol : Type := string.
Definition ProtoTCP : Protocol := "TCP".
Definition ProtoUDP : Protocol := "UDP".
Definition ProtoICMP : Protocol := "ICMP".

Definition ConnState : Type := string.
Definition ConnEstablished : ConnState := "ESTABLISHED".
Definition ConnSynSent : ConnState := "SYN_SENT".
Definition ConnSynRecv : ConnState := "SYN_RECV".
Definition ConnFinWait1 : ConnState := "FIN_WAIT1".
Definition ConnFinWait2 : ConnState := "FIN_WAIT2".
Definition ConnTimeWait : ConnState := "TIME_WAIT".
Definition ConnClose : ConnState := "CLOSE".
Definition ConnCloseWait : ConnState := "CLOSE_WAIT".
Definition ConnLastAck : ConnState := "LAST_ACK".
Definition ConnListen : ConnState := "LISTEN".
Definition ConnClosing : ConnState := "CLOSING".

(** [NetworkPacket]; the fields [ID], [Serial] and [Protocol], which
    [Connection] has too, carry the prefix [pkt_]. *)
Record NetworkPacket := mkPacket {
  pkt_ID : string;
  pkt_Serial : string;
  Timestamp : Time;
  SrcIP : string;
  SrcPort : Z;
  DstIP : string;
  DstPort : Z;
  pkt_Protocol : Protocol;
  Length : Z;
  Flags : string;
  HTTPMethod : string;
  HTTPPath : string;
  HTTPHost : string;
  HTTPStatus : Z;
  Raw : string
}.

Record Connection := mkConnection {
  conn_ID : string;
  conn_Serial : string;
  LocalIP : string;
  LocalPort : Z;
  RemoteIP : string;
  RemotePort : Z;
  State : ConnState;
  conn_Protocol : Protocol;
  UID : Z;
  FirstSeen : Time;
  LastSeen : Time
}.

(** The zero values [NetworkPacket{}] and [Connection{}]. *)
Definition zeroPacket : NetworkPacket :=
  mkPacket "" "" zeroTime "" 0 "" 0 "" 0 "" "" "" "" 0 "".

Definition zeroConnection : Connection :=
  mkConnection "" "" "" 0 "" 0 "" "" 0 zeroTime zeroTime.

(** Assignments to single fields. *)
Definition set_LastSeen (t : Time) (c : Connection) : Connection :=
  mkConnection (conn_ID c) (conn_Serial c) (LocalIP c) (LocalPort c)
    (RemoteIP c) (RemotePort c) (State c) (conn_Protocol c) (UID c)
    (FirstSeen c) t.

Definition set_State (st : ConnState) (c : Connection) : Connection :=
  mkConnection (conn_ID c) (conn_Serial c) (LocalIP c) (LocalPort c)
    (RemoteIP c) (RemotePort c) st (conn_Protocol c) (UID c)
    (FirstSeen c) (LastSeen c).

(** *** procnet.go: the socket-table parser *)

Record ProcNetParser := mkProcNetParser {
  pn_serial : string;
  pn_nextID : Z
}.

Definition NewProcNetParser (serial : string) : ProcNetParser :=
  mkProcNetParser serial 0.

Inductive parse_error :=
| ErrHexDecode
| ErrUnknownIPHexLength (n : Z)
| ErrInvalidAddrFormat (addr : string)
| ErrInvalidPort (port : string).

(** [b[i]]; the index is in range wherever it is used. *)
Definition byte_at (b : list Z) (i : nat) : Z := nth i b 0.

(** The 32-bit word of an IPv6 group, [b[off+3]<<24 | b[off+2]<<16 |
    b[off+1]<<8 | b[off]]. *)
Definition word_at (b : list Z) (off : nat) : Z :=
  Z.lor (Z.lor (Z.lor (wrap_u32 (Z.shiftl (byte_at b (off + 3)) 24))
                      (wrap_u32 (Z.shiftl (byte_at b (off + 2)) 16)))
               (wrap_u32 (Z.shiftl (byte_at b (off + 1)) 8)))
        (byte_at b off).

(** [parseHexIP] *)
Definition parseHexIP (h : string) : string + parse_error :=
  if len h =? 8 then
    match DecodeString h with
    | None => inr ErrHexDecode
    | Some b =>
        inl (fmt_d (byte_at b 3) ++ "." ++ fmt_d (byte_at b 2) ++ "." ++
             fmt_d (byte_at b 1) ++ "." ++ fmt_d (byte_at b 0))
    end
  else if len h =? 32 then
    match DecodeString h with
    | None => inr ErrHexDecode
    | Some b =>
        let parts :=
          flat_map (fun i : nat =>
                      let off := (i * 4)%nat in
                      let w := word_at b off in
                      [fmt_x (Z.shiftr w 16); fmt_x (Z.land w 65535)])
                   [0%nat; 1%nat; 2%nat; 3%nat] in
        inl (Join parts ":")
    end
  else inr (ErrUnknownIPHexLength (len h)).

(** [parseHexAddr] *)
Definition parseHexAddr (addr : string) : (string * Z) + parse_error :=
  match SplitN2 addr ":" with
  | [ipHex; portHex] =>
      match parseHexIP ipHex with
      | inr e => inr e
      | inl ip =>
          match ParseUint portHex 16 16 with
          | (_, Some _) => inr (ErrInvalidPort portHex)
          | (port, None) => inl (ip, wrap_u16 port)
          end
      end
  | _ => inr (ErrInvalidAddrFormat addr)
  end.

(** [parseConnState] *)
Definition parseConnState (hexState : string) : ConnState :=
  let v := fst (ParseUint hexState 16 8) in
  if v =? 1 then ConnEstablished
  else if v =? 2 then ConnSynSent
  else if v =? 3 then ConnSynRecv
  else if v =? 4 then ConnFinWait1
  else if v =? 5 then ConnFinWait2
  else if v =? 6 then ConnTimeWait
  else if v =? 7 then ConnClose
  else if v =? 8 then ConnCloseWait
  else if v =? 9 then ConnLastAck
  else if v =? 10 then ConnListen
  else if v =? 11 then ConnClosing
  else "UNKNOWN_" ++ fmt_02X v.

(** [parseLine]: the connection, if the line yields one, and the parser with
    its counter. *)
Definition parseLine (p : ProcNetParser) (line : string) (proto : Protocol)
  (now : Time) : option Connection * ProcNetParser :=
  let fields := Fields line in
  if Z.of_nat (length fields) <? 10 then (None, p)
  else
    let localAddr := nth 1 fields "" in
    let remoteAddr := nth 2 fields "" in
    let stateHex := nth 3 fields "" in
    let uidStr := nth 7 fields "" in
    match parseHexAddr localAddr with
    | inr _ => (None, p)
    | inl (localIP, localPort) =>
        match parseHexAddr remoteAddr with
        | inr _ => (None, p)
        | inl (remoteIP, remotePort) =>
            let state := parseConnState stateHex in
            let uid := fst (Atoi uidStr) in
            if String.eqb localIP "127.0.0.1" && String.eqb remoteIP "127.0.0.1"
            then (None, p)
            else if String.eqb remoteIP "0.0.0.0" && String.eqb state ConnListen
            then (None, p)
            else
              let nextID := wrap_u64 (pn_nextID p + 1) in
              (Some (mkConnection
                       (pn_serial p ++ "-conn-" ++ fmt_d nextID)
                       (pn_serial p) localIP localPort remoteIP remotePort
                       state proto uid now now),
               mkProcNetParser (pn_serial p) nextID)
        end
    end.

(** [ParseProcNet]: the loop over the lines, [now] being what [time.Now()]
    returned. *)
Fixpoint parse_lines (p : ProcNetParser) (lines : list string)
  (proto : Protocol) (now : Time) (conns : list Connection)
  : list Connection * ProcNetParser :=
  match lines with
  | [] => (conns, p)
  | line :: rest =>
      let line := TrimSpace line in
      if String.eqb line "" || HasPrefix line "sl"
      then parse_lines p rest proto now conns
      else
        match parseLine p line proto now with
        | (Some conn, p') => parse_lines p' rest proto now (conns ++ [conn])%list
        | (None, p') => parse_lines p' rest proto now conns
        end
  end.

Definition ParseProcNet (p : ProcNetParser) (output : string)
  (proto : Protocol) (now : Time) : list Connection * ProcNetParser :=
  parse_lines p (Split output "010") proto now [].

(** The rows of the parser's test, and the test input with its header. *)
Definition nl : string := String "010" EmptyString.

Definition row0 : string :=
  "   0: 0100007F:13AD 00000000:0000 0A 00000000:00000000 00:00000000 00000000     0        0 12345 1 0000000000000000 100 0 0 10 0".
Definition row1 : string :=
  "   1: 0101A8C0:D4F2 220ED8AE:01BB 01 00000000:00000000 00:00000000 00000000  1000        0 54321 1 0000000000000000 100 0 0 10 0".
Definition row2 : string :=
  "   2: 0101A8C0:C350 4E46C8AC:0050 01 00000000:00000000 00:00000000 00000000  1000        0 54322 1 0000000000000000 100 0 0 10 0".
Definition header : string :=
  "  sl  local_address rem_address   st tx_queue rx_queue tr tm->when retrnsmt   uid  timeout inode".

Definition three_rows : string := row0 ++ nl ++ row1 ++ nl ++ row2.
Definition test_input : string := header ++ nl ++ three_rows.

(** The two connections of the test. *)
Definition conn1 (now : Time) : Connection :=
  mkConnection "device1-conn-1" "device1" "192.168.1.1" 54514
               "174.216.14.34" 443 ConnEstablished ProtoTCP 1000 now now.

Definition conn2 (now : Time) : Connection :=
  mkConnection "device1-conn-2" "device1" "192.168.1.1" 50000
               "172.200.70.78" 80 ConnEstablished ProtoTCP 1000 now now.

(** What the two tests of [parseLine] leave through. *)
Definition not_filtered (conn : Connection) : Prop :=
  ~ (LocalIP conn = "127.0.0.1" /\ RemoteIP conn = "127.0.0.1") /\
  ~ (RemoteIP conn = "0.0.0.0" /\ State conn = ConnListen).

(** A row of the IPv6 table: an established connection from [::1] port 8080
    to [::1] port 54321. *)
Definition row_v6_loopback : string :=
  "   0: 00000000000000000000000001000000:1F90 00000000000000000000000001000000:D431 01 00000000:00000000 00:00000000 00000000  1000        0 54323 1 0000000000000000 100 0 0 10 0".

(** *** resolver.go: the hostname resolver *)

(** The part of [LogcatSnooper] the resolver reads: the map from IP to
    domain, and [LookupIP]. *)
Record LogcatSnooper := mkLogcatSnooper {
  ipMap : gmap string string
}.

Definition LookupIP (s : LogcatSnooper) (ip : string) : string :=
  default "" (ipMap s !! ip).

(** The DNS side of [Resolver]: the cache, the pending set, the queue (a
    channel of capacity 256, oldest element first) and the snooper. *)
Record Resolver := mkResolver {
  dnsCache : gmap string string;
  dnsPend : gset string;
  dnsQueue : list string;
  snooper : option LogcatSnooper
}.

Definition dnsQueue_capacity : Z := 256.

(** What a call does to the cache layers and to the queue, in order. *)
Inductive access :=
| ReadCache (ip : string)
| SnooperLookup (ip : string)
| WriteCache (ip host : string)
| ReadPending (ip : string)
| MarkPending (ip : string)
| Enqueue (ip : string)
| QueueFull (ip : string).

Definition privateRanges : list string :=
  ["10.0.0.0/8"; "172.16.0.0/12"; "192.168.0.0/16"; "127.0.0.0/8";
   "169.254.0.0/16"; "::1/128"; "fe80::/10"; "fc00::/7"].

(** The loop of [isPrivateIP] over the ranges.  The error of [ParseCIDR] is
    ignored in the source, so a range that did not parse would make
    [network.Contains] a nil dereference: [None]. *)
Fixpoint contains_any (parsed : IP) (cidrs : list string) : option bool :=
  match cidrs with
  | [] => Some false
  | cidr :: rest =>
      match ParseCIDR cidr with
      | None => None
      | Some network =>
          if IPNet_Contains network parsed then Some true
          else contains_any parsed rest
      end
  end.

(** [isPrivateIP] *)
Definition isPrivateIP (ip : string) : option bool :=
  match ParseIP ip with
  | None => Some false
  | Some parsed => contains_any parsed privateRanges
  end.

(** [ResolveHostname]: the host name, the resolver afterwards and the
    accesses made.  The locks are left out. *)
Definition ResolveHostname (r : Resolver) (ip : string)
  : option (string * Resolver * list access) :=
  if String.eqb ip "" || String.eqb ip "0.0.0.0" || String.eqb ip "::"
  then Some ("", r, [])
  else
    match isPrivateIP ip with
    | None => None
    | Some true => Some ("", r, [])
    | Some false =>
        match dnsCache r !! ip with
        | Some host => Some (host, r, [ReadCache ip])
        | None =>
            let snoopHost :=
              match snooper r with
              | Some sn => LookupIP sn ip
              | None => ""
              end in
            let looked :=
              match snooper r with
              | Some _ => [ReadCache ip; SnooperLookup ip]
              | None => [ReadCache ip]
              end in
            if negb (String.eqb snoopHost "") then
              Some (snoopHost,
                    mkResolver (<[ip := snoopHost]> (dnsCache r)) (dnsPend r)
                               (dnsQueue r) (snooper r),
                    looked ++ [WriteCache ip snoopHost])%list
            else if decide (ip ∈ dnsPend r) then
              Some ("", r, looked ++ [ReadPending ip])%list
            else if Z.of_nat (length (dnsQueue r)) <? dnsQueue_capacity then
              Some ("",
                    mkResolver (dnsCache r) ({[ip]} ∪ dnsPend r)
                               (dnsQueue r ++ [ip])%list (snooper r),
                    looked ++ [ReadPending ip; MarkPending ip; Enqueue ip])%list
            else
              Some ("",
                    mkResolver (dnsCache r) ({[ip]} ∪ dnsPend r)
                               (dnsQueue r) (snooper r),
                    looked ++ [ReadPending ip; MarkPending ip; QueueFull ip])%list
        end
    end.

(** The private and reserved ranges, as sets of addresses in the 16-byte form
    that [net.ParseIP] returns: an IPv4 address [a.b.c.d] is the IPv4-mapped
    [::ffff:a.b.c.d]. *)
Definition is_byte (z : Z) : Prop := 0 <= z < 256.

Definition v4 (a b c d : Z) : IP := (v4InV6Prefix ++ [a; b; c; d])%list.

Inductive private_range : IP -> Prop :=
| in_10_8 b c d :
    is_byte b -> is_byte c -> is_byte d -> private_range (v4 10 b c d)
| in_172_16_12 b c d :
    16 <= b <= 31 -> is_byte c -> is_byte d -> private_range (v4 172 b c d)
| in_192_168_16 c d :
    is_byte c -> is_byte d -> private_range (v4 192 168 c d)
| in_127_8 b c d :
    is_byte b -> is_byte c -> is_byte d -> private_range (v4 127 b c d)
| in_169_254_16 c d :
    is_byte c -> is_byte d -> private_range (v4 169 254 c d)
| in_loopback_128 :
    private_range [0; 0; 0; 0; 0; 0; 0; 0; 0; 0; 0; 0; 0; 0; 0; 1]
| in_fe80_10 b1 rest :
    128 <= b1 <= 191 -> length rest = 14%nat -> Forall is_byte rest ->
    private_range (254 :: b1 :: rest)
| in_fc00_7 b0 rest :
    252 <= b0 <= 253 -> length rest = 15%nat -> Forall is_byte rest ->
    private_range (b0 :: rest).

(** [IP.IsLoopback] of package net. *)
Definition IsLoopback (ip : IP) : bool :=
  match To4 ip with
  | Some ip4 => nth 0 ip4 0 =? 127
  | None => list_eqb ip [0; 0; 0; 0; 0; 0; 0; 0; 0; 0; 0; 0; 0; 0; 0; 1]
  end.

(** A resolver with a cache entry, a pending address and a snooper entry. *)
Definition busy_resolver : Resolver :=
  mkResolver {["93.184.216.34" := "example.com"]} {["8.8.4.4"]} ["8.8.4.4"]
             (Some (mkLogcatSnooper {["8.8.8.8" := "dns.google"]})).

(** *** tcpdump.go: the trace parser *)

(** [rePacketLine], [reHTTPRequest], [reHTTPResponse] and [reHTTPHost]. *)
Definition rePacketLine : regex :=
  Concat
    [Bol;
     Group 1 (Concat [Rep 2 (Class cls_d); Chr ":"; Rep 2 (Class cls_d);
                      Chr ":"; Rep 2 (Class cls_d); Chr ".";
                      Plus (Class cls_d)]);
     Plus (Class cls_s);
     Group 2 (Concat [Lit "IP"; Alt (Chr "6") Eps]);
     Plus (Class cls_s);
     Group 3 (Plus (Class cls_S)); Chr "."; Group 4 (Plus (Class cls_d));
     Plus (Class cls_s); Chr ">"; Plus (Class cls_s);
     Group 5 (Plus (Class cls_S)); Chr "."; Group 6 (Plus (Class cls_d));
     Chr ":"; Plus (Class cls_s);
     Group 7 (Plus (Class cls_dot));
     Eol].

Definition reHTTPRequest : regex :=
  Concat
    [Bol;
     Group 1 (Alts [Lit "GET"; Lit "POST"; Lit "PUT"; Lit "DELETE";
                    Lit "PATCH"; Lit "HEAD"; Lit "OPTIONS"; Lit "CONNECT"]);
     Plus (Class cls_s);
     Group 2 (Plus (Class cls_S));
     Plus (Class cls_s);
     Lit "HTTP/"].

Definition reHTTPResponse : regex :=
  Concat
    [Bol; Lit "HTTP/";
     Plus (Class (fun c => cls_d c || Ascii.eqb c "."));
     Plus (Class cls_s);
     Group 1 (Rep 3 (Class cls_d))].

Definition reHTTPHost : regex :=
  Concat
    [Bol; LitFold "Host:"; Star (Class cls_s); Group 1 (Plus (Class cls_S))].

Record TcpdumpParser := mkTcpdumpParser {
  td_serial : string;
  td_nextID : Z
}.

Definition NewTcpdumpParser (serial : string) : TcpdumpParser :=
  mkTcpdumpParser serial 0.

(** [m[i]] of a match. *)
Definition submatch (m : list string) (i : nat) : string := nth i m "".

(** [parsePort] *)
Definition parsePort (s : string) : Z := wrap_u16 (fst (ParseUint s 10 16)).

(** [parseProtocol] *)
Definition parseProtocol (rest : string) : Protocol :=
  let lower := ToLower rest in
  if Contains lower "udp" then ProtoUDP
  else if Contains lower "icmp" then ProtoICMP
  else ProtoTCP.

(** [parseLength] *)
Fixpoint length_after_keyword (parts : list string) : option Z :=
  match parts with
  | part :: ((next :: _) as rest) =>
      if String.eqb part "length" then Some (fst (Atoi next))
      else length_after_keyword rest
  | _ => None
  end.

Definition parseLength (rest : string) : Z :=
  let parts := Fields rest in
  match length_after_keyword parts with
  | Some n => n
  | None =>
      if 2 <=? Z.of_nat (length parts) then
        match Atoi (List.last parts "") with
        | (n, None) => n
        | (_, Some _) => 0
        end
      else 0
  end.

(** [parseFlags] *)
Definition parseFlags (rest : string) : string :=
  let idx := Index rest "Flags [" in
  if idx =? -1 then ""
  else
    let e := Index (slice rest idx (len rest)) "]" in
    if e =? -1 then ""
    else slice rest (idx + 7) (idx + e).

(** Assignments to the HTTP fields of a packet. *)
Definition set_HTTPRequest (method path : string) (p : NetworkPacket)
  : NetworkPacket :=
  mkPacket (pkt_ID p) (pkt_Serial p) (Timestamp p) (SrcIP p) (SrcPort p)
    (DstIP p) (DstPort p) (pkt_Protocol p) (Length p) (Flags p)
    method path (HTTPHost p) (HTTPStatus p) (Raw p).

Definition set_HTTPStatus (status : Z) (p : NetworkPacket) : NetworkPacket :=
  mkPacket (pkt_ID p) (pkt_Serial p) (Timestamp p) (SrcIP p) (SrcPort p)
    (DstIP p) (DstPort p) (pkt_Protocol p) (Length p) (Flags p)
    (HTTPMethod p) (HTTPPath p) (HTTPHost p) status (Raw p).

Definition set_HTTPHost (host : string) (p : NetworkPacket) : NetworkPacket :=
  mkPacket (pkt_ID p) (pkt_Serial p) (Timestamp p) (SrcIP p) (SrcPort p)
    (DstIP p) (DstPort p) (pkt_Protocol p) (Length p) (Flags p)
    (HTTPMethod p) (HTTPPath p) host (HTTPStatus p) (Raw p).

(** [EnrichWithHTTP]; the packet is a pointer, [None] being [nil]. *)
Definition EnrichWithHTTP (pkt : option NetworkPacket) (line : string)
  : option NetworkPacket :=
  match pkt with
  | None => None
  | Some pkt =>
      let line := TrimSpace line in
      match FindStringSubmatch reHTTPRequest line with
      | Some m => Some (set_HTTPRequest (submatch m 1) (submatch m 2) pkt)
      | None =>
          match FindStringSubmatch reHTTPResponse line with
          | Some m => Some (set_HTTPStatus (fst (Atoi (submatch m 1))) pkt)
          | None =>
              match FindStringSubmatch reHTTPHost line with
              | Some m => Some (set_HTTPHost (submatch m 1) pkt)
              | None => Some pkt
              end
          end
      end
  end.

Section Tcpdump.

(** The calls into package time: [time.Parse(layout, s)], whose result is
    kept abstract, and [time.Date] on the day of [now] with the clock fields
    of a parsed time. *)
Variable ClockTime : Type.
Variable time_Parse : string -> string -> option ClockTime.
Variable time_Date_on : Time -> ClockTime -> Time.

(** [parseTimestamp], [now] being what [time.Now()] returned. *)
Definition parseTimestamp (now : Time) (s : string) : Time :=
  match time_Parse "15:04:05.000000" s with
  | Some t => time_Date_on now t
  | None =>
      match time_Parse "15:04:05.000" s with
      | Some t => time_Date_on now t
      | None => now
      end
  end.

(** [ParseLine] *)
Definition ParseLine (p : TcpdumpParser) (now : Time) (line : string)
  : option NetworkPacket * TcpdumpParser :=
  let line := TrimSpace line in
  if String.eqb line "" then (None, p)
  else
    match FindStringSubmatch rePacketLine line with
    | None => (None, p)
    | Some m =>
        let ts := parseTimestamp now (submatch m 1) in
        let srcIP := submatch m 3 in
        let srcPort := parsePort (submatch m 4) in
        let dstIP := submatch m 5 in
        let dstPort := parsePort (submatch m 6) in
        let rest := submatch m 7 in
        let proto := parseProtocol rest in
        let length := parseLength rest in
        let flags := parseFlags rest in
        let nextID := wrap_u64 (td_nextID p + 1) in
        (Some (mkPacket (td_serial p ++ "-" ++ fmt_d nextID) (td_serial p) ts
                        srcIP srcPort dstIP dstPort proto length flags
                        "" "" "" 0 line),
         mkTcpdumpParser (td_serial p) nextID)
    end.

(** [ParseStream] on the lines the scanner yields, with [done] never closed:
    the packets sent to [out], in order.  [clock i] is what [time.Now()]
    returns while line [i] is parsed. *)
Fixpoint ParseStream_loop (p : TcpdumpParser) (clock : nat -> Time) (i : nat)
  (lines : list string) (currentPkt : option NetworkPacket)
  (out : list NetworkPacket) : list NetworkPacket * TcpdumpParser :=
  match lines with
  | [] =>
      match currentPkt with
      | Some pkt => ((out ++ [pkt])%list, p)
      | None => (out, p)
      end
  | line :: rest =>
      match ParseLine p (clock i) line with
      | (Some pkt, p') =>
          let out :=
            match currentPkt with
            | Some prev => (out ++ [prev])%list
            | None => out
            end in
          ParseStream_loop p' clock (S i) rest (Some pkt) out
      | (None, p') =>
          ParseStream_loop p' clock (S i) rest
            (match currentPkt with
             | Some _ => EnrichWithHTTP currentPkt line
             | None => None
             end) out
      end
  end.

Definition ParseStream (p : TcpdumpParser) (clock : nat -> Time)
  (lines : list string) : list NetworkPacket * TcpdumpParser :=
  ParseStream_loop p clock 0 lines None [].

(** The packet of the line
    [12:34:56.789012 IP 10.0.0.1.12345 > 93.184.216.34.80: tcp 100], and the
    parser after it. *)
Definition trace_packet (p : TcpdumpParser) (now : Time) : NetworkPacket :=
  mkPacket (td_serial p ++ "-" ++ fmt_d (wrap_u64 (td_nextID p + 1)))
           (td_serial p) (parseTimestamp now "12:34:56.789012")
           "10.0.0.1" 12345 "93.184.216.34" 80 ProtoTCP 100 ""
           "" "" "" 0
           "12:34:56.789012 IP 10.0.0.1.12345 > 93.184.216.34.80: tcp 100".

Definition next_parser (p : TcpdumpParser) : TcpdumpParser :=
  mkTcpdumpParser (td_serial p) (wrap_u64 (td_nextID p + 1)).

End Tcpdump.

(** The lines of the trace scenario. *)
Definition trace_line : string :=
  "12:34:56.789012 IP 10.0.0.1.12345 > 93.184.216.34.80: tcp 100".
Definition request_line : string := "GET /api/users HTTP/1.1".
Definition host_line : string := "Host: example.com".

End Capture.

(** ** Package store: the ring store *)

Module Store.
Import GoLib Capture.

Definition DefaultMaxPackets : Z := 50000.
Definition DefaultMaxConns : Z := 10000.

(** A registered change callback, named by a handle. *)
Definition func : Type := nat.

(** [Store].  The mutex is left out.  A value of [connMap] is a pointer
    [&s.connections[idx]] into the ring; it is modelled by the index [idx], so
    that a write through the pointer is a write to that ring slot. *)
Record Store := mkStore {
  packets : list NetworkPacket;
  pktHead : Z;
  pktCount : Z;
  pktMaxSize : Z;
  connections : list Connection;
  connHead : Z;
  connCount : Z;
  connMaxSize : Z;
  connMap : gmap string nat;
  onChange : option func
}.

Record Config := mkConfig {
  MaxPackets : Z;
  MaxConnections : Z
}.

(** Run-time panics are modelled by [None]. *)

(** [a % b] on [int]: truncated remainder, a panic when [b] is zero. *)
Definition go_rem (a b : Z) : option Z :=
  if b =? 0 then None else Some (Z.rem a b).

(** [l[i]] and [l[i] = x]: a panic when [i] is out of range. *)
Definition index_get {A} (l : list A) (i : Z) : option A :=
  if i <? 0 then None else l !! Z.to_nat i.

Definition index_set {A} (l : list A) (i : Z) (x : A) : option (list A) :=
  if (i <? 0) || (Z.of_nat (length l) <=? i) then None
  else Some (<[Z.to_nat i := x]> l).

(** [make([]T, n)]; [n] is positive wherever [New] uses it. *)
Definition make {A} (zero : A) (n : Z) : list A := replicate (Z.to_nat n) zero.

(** [New] *)
Definition New (cfg : Config) : Store :=
  let maxPackets :=
    if MaxPackets cfg <=? 0 then DefaultMaxPackets else MaxPackets cfg in
  let maxConnections :=
    if MaxConnections cfg <=? 0 then DefaultMaxConns else MaxConnections cfg in
  mkStore (make zeroPacket maxPackets) 0 0 maxPackets
          (make zeroConnection maxConnections) 0 0 maxConnections
          ∅ None.

(** [SetOnChange] *)
Definition SetOnChange (s : Store) (fn : option func) : Store :=
  mkStore (packets s) (pktHead s) (pktCount s) (pktMaxSize s)
          (connections s) (connHead s) (connCount s) (connMaxSize s)
          (connMap s) fn.

(** [AddPacket]: the new store and the callback that is invoked after the
    lock is released, if one is set. *)
Definition AddPacket (s : Store) (pkt : NetworkPacket)
  : option (Store * option func) :=
  idx ← go_rem (pktHead s) (pktMaxSize s);
  packets' ← index_set (packets s) idx pkt;
  let pktHead' := wrap_i64 (pktHead s + 1) in
  let pktCount' :=
    if pktCount s <? pktMaxSize s then wrap_i64 (pktCount s + 1)
    else pktCount s in
  let cb := onChange s in
  Some (mkStore packets' pktHead' pktCount' (pktMaxSize s)
                (connections s) (connHead s) (connCount s) (connMaxSize s)
                (connMap s) (onChange s),
        cb).

(** [uitoa] and [itoa].  The loop of [uitoa] fills a 20-byte buffer from its
    end; a 64-bit value never needs more. *)
Fixpoint uitoa_loop (fuel : nat) (u : Z) (buf : string) : string :=
  match fuel with
  | O => buf
  | S fuel' =>
      if 0 <? u
      then uitoa_loop fuel' (u / 10)
             (String (to_byte (wrap_u8 (u mod 10) + byte_val "0")) buf)
      else buf
  end.

Definition uitoa (u : Z) : string :=
  if u =? 0 then "0" else uitoa_loop 20 u "".

Definition itoa (i : Z) : string :=
  if i <? 0 then "-" ++ uitoa (wrap_u64 (- i)) else uitoa (wrap_u64 i).

(** [connKey] *)
Definition connKey (c : Connection) : string :=
  LocalIP c ++ ":" ++ itoa (LocalPort c) ++ "->" ++
  RemoteIP c ++ ":" ++ itoa (RemotePort c).

(** The two assignments [existing.LastSeen = conn.LastSeen] and
    [existing.State = conn.State]. *)
Definition entry_update (conn existing : Connection) : Connection :=
  set_State (State conn) (set_LastSeen (LastSeen conn) existing).

(** [AddConnection].  In the branch of a key already in [connMap] the two
    assignments go through the stored pointer; no callback is invoked. *)
Definition AddConnection (s : Store) (conn : Connection)
  : option (Store * option func) :=
  let key := connKey conn in
  match connMap s !! key with
  | Some existing =>
      let connections' :=
        alter (entry_update conn) existing (connections s) in
      Some (mkStore (packets s) (pktHead s) (pktCount s) (pktMaxSize s)
                    connections' (connHead s) (connCount s) (connMaxSize s)
                    (connMap s) (onChange s),
            None)
  | None =>
      idx ← go_rem (connHead s) (connMaxSize s);
      connections' ← index_set (connections s) idx conn;
      let connMap' := <[key := Z.to_nat idx]> (connMap s) in
      let connHead' := wrap_i64 (connHead s + 1) in
      let connCount' :=
        if connCount s <? connMaxSize s then wrap_i64 (connCount s + 1)
        else connCount s in
      let cb := onChange s in
      Some (mkStore (packets s) (pktHead s) (pktCount s) (pktMaxSize s)
                    connections' connHead' connCount' (connMaxSize s)
                    connMap' (onChange s),
            cb)
  end.

(** The loop body shared by the readers: the ring index of the [i]-th most
    recent entry. *)
Definition recent_index (head maxSize i : Z) : option Z :=
  let idx := wrap_i64 (wrap_i64 (head - 1) - i) in
  let idx := if idx <? 0 then wrap_i64 (idx + maxSize) else idx in
  go_rem idx maxSize.

(** [GetRecentPackets] *)
Definition GetRecentPackets (s : Store) (n : Z) : option (list NetworkPacket) :=
  let n := if pktCount s <? n then pktCount s else n in
  if n =? 0 then Some []
  else if n <? 0 then None
  else
    mapM (fun i => idx ← recent_index (pktHead s) (pktMaxSize s) i;
                   index_get (packets s) idx)
         (seqZ 0 n).

(** [GetRecentConnections] *)
Definition GetRecentConnections (s : Store) (n : Z) : option (list Connection) :=
  let n := if connCount s <? n then connCount s else n in
  if n =? 0 then Some []
  else if n <? 0 then None
  else
    mapM (fun i => idx ← recent_index (connHead s) (connMaxSize s) i;
                   index_get (connections s) idx)
         (seqZ 0 n).

(** [PacketCount] and [ConnectionCount] *)
Definition PacketCount (s : Store) : Z := pktCount s.
Definition ConnectionCount (s : Store) : Z := connCount s.

(** [Clear] *)
Definition Clear (s : Store) : Store :=
  mkStore (packets s) 0 0 (pktMaxSize s)
          (connections s) 0 0 (connMaxSize s)
          ∅ (onChange s).

(** [ClearDevice].  The first loop ranges over [s.packets[:s.pktCount]] (a
    panic when the bound is out of range) and zeroes the packets of the
    device; the second loop deletes from [connMap] every key whose pointer
    leads to a connection of the device.  The ring of connections is not
    written. *)
Definition clear_packet (serial : string) (p : NetworkPacket) : NetworkPacket :=
  if String.eqb (pkt_Serial p) serial then zeroPacket else p.

Definition points_at_device (conns : list Connection) (serial : string)
  (entry : string * nat) : Prop :=
  match conns !! entry.2 with
  | Some conn => conn_Serial conn = serial
  | None => False
  end.

Global Instance points_at_device_dec conns serial entry :
  Decision (points_at_device conns serial entry).
Proof. unfold points_at_device. destruct (conns !! entry.2); apply _. Defined.

Definition ClearDevice (s : Store) (serial : string) : option Store :=
  if (pktCount s <? 0) || (Z.of_nat (length (packets s)) <? pktCount s)
  then None
  else
    let n := Z.to_nat (pktCount s) in
    let packets' :=
      (map (clear_packet serial) (take n (packets s))
         ++ drop n (packets s))%list in
    let connMap' :=
      filter (fun entry => ¬ points_at_device (connections s) serial entry)
             (connMap s) in
    Some (mkStore packets' (pktHead s) (pktCount s) (pktMaxSize s)
                  (connections s) (connHead s) (connCount s) (connMaxSize s)
                  connMap' (onChange s)).

(** A sequence of inserts, stopping at the first panic. *)
Fixpoint AddPackets (s : Store) (pkts : list NetworkPacket) : option Store :=
  match pkts with
  | [] => Some s
  | pkt :: rest => r ← AddPacket s pkt; AddPackets r.1 rest
  end.

(** The stores that the operations can build. *)
Inductive reachable : Store -> Prop :=
| reach_New cfg : reachable (New cfg)
| reach_SetOnChange s fn : reachable s -> reachable (SetOnChange s fn)
| reach_AddPacket s pkt s' cb :
    reachable s -> AddPacket s pkt = Some (s', cb) -> reachable s'
| reach_AddConnection s conn s' cb :
    reachable s -> AddConnection s conn = Some (s', cb) -> reachable s'
| reach_Clear s : reachable s -> reachable (Clear s)
| reach_ClearDevice s serial s' :
    reachable s -> ClearDevice s serial = Some s' -> reachable s'.

(** Every pointer kept in the index map leads into the ring. *)
Definition pointers_valid (s : Store) : Prop :=
  forall key ptr, connMap s !! key = Some ptr ->
                  (ptr < length (connections s))%nat.

(** The packet ring of capacity [c] after the inserts [pkts], in this order:
    the head counts the inserts, the counter saturates at [c], and the slot
    [i mod c] holds the [i]-th insert as long as fewer than [c] inserts
    followed it. *)
Definition ring_holds (c : Z) (pkts : list NetworkPacket) (s : Store) : Prop :=
  pktMaxSize s = c /\
  Z.of_nat (length (packets s)) = c /\
  pktHead s = Z.of_nat (length pkts) /\
  pktCount s = Z.min (Z.of_nat (length pkts)) c /\
  forall i : nat,
    (i < length pkts)%nat -> Z.of_nat (length pkts) - Z.of_nat i <= c ->
    packets s !! Z.to_nat (Z.of_nat i mod c) = pkts !! i.

(** Data of the store tests. *)
Definition test_packet (i : Z) : NetworkPacket :=
  mkPacket ("pkt-" ++ itoa i) "dev1" zeroTime "" 0 "" 0 "" 0 "" "" "" "" 0 "".

Definition dev1_packet : NetworkPacket :=
  mkPacket "p1" "dev1" zeroTime "10.0.0.1" 12345 "93.184.216.34" 80
           ProtoTCP 100 "" "" "" "" 0 "".

Definition dev1_conn : Connection :=
  mkConnection "c1" "dev1" "10.0.0.1" 12345 "93.184.216.34" 443
               ConnEstablished ProtoTCP 1000 7 7.

(** The same four address fields, seen later in another state. *)
Definition dev1_conn_later : Connection :=
  mkConnection "c2" "dev1" "10.0.0.1" 12345 "93.184.216.34" 443
               ConnCloseWait ProtoTCP 1000 9 9.

(** A store that holds [dev1_conn]. *)
Definition store_with_dev1 : Store :=
  match AddConnection (New (mkConfig 4 4)) dev1_conn with
  | Some (s, _) => s
  | None => New (mkConfig 4 4)
  end.

(** One packet and one connection of device [dev1], then
    [ClearDevice("dev1")]. *)
Definition cleared_store : option Store :=
  r1 ← AddPacket (New (mkConfig 4 4)) dev1_packet;
  r2 ← AddConnection r1.1 dev1_conn;
  ClearDevice r2.1 "dev1".

End Store.

(** ** Package tracker: the reconnect loop *)

Module Tracker.
Import GoLib.

(** [time.Duration] is a number of nanoseconds in an [int64]. *)
Definition Duration : Type := Z.
Definition Second : Duration := 1000000000.

Definition reconnectBaseDelay : Duration := 1 * Second.
Definition reconnectMaxDelay : Duration := 30 * Second.

(** What the loop of [Run] meets in one round: whether the context is done
    when the round starts, when [stream] has returned, and before the timer
    of the wait fires. *)
Record round := mkRound {
  done_at_start : bool;
  done_after_stream : bool;
  done_in_wait : bool
}.

(** A round of persistent failure: [stream] returns with an error and the
    context is not cancelled. *)
Definition failure : round := mkRound false false false.

(** What the loop does: it opens a stream, and it waits for a delay. *)
Inductive event :=
| OpenStream
| Wait (delay : Duration).

(** The loop either returns [ctx.Err()] or is still running, with its
    current delay, when the rounds described are over. *)
Inductive outcome :=
| Returned_ctx_Err
| Running (delay : Duration).

(** The loop of [Run]; [stream] returns in every round described. *)
Fixpoint Run_loop (rounds : list round) (delay : Duration)
  : list event * outcome :=
  match rounds with
  | [] => ([], Running delay)
  | r :: rest =>
      if done_at_start r then ([], Returned_ctx_Err)
      else if done_after_stream r then ([OpenStream], Returned_ctx_Err)
      else if done_in_wait r then ([OpenStream], Returned_ctx_Err)
      else
        let '(events, out) :=
          Run_loop rest (Z.min (wrap_i64 (delay * 2)) reconnectMaxDelay) in
        (OpenStream :: Wait delay :: events, out)
  end.

(** [Run] *)
Definition Run (rounds : list round) : list event * outcome :=
  Run_loop rounds reconnectBaseDelay.

(** The delays of a run, in order. *)
Fixpoint waits (events : list event) : list Duration :=
  match events with
  | [] => []
  | Wait d :: rest => d :: waits rest
  | OpenStream :: rest => waits rest
  end.

(** The number of streams opened. *)
Fixpoint attempts (events : list event) : nat :=
  match events with
  | [] => O
  | OpenStream :: rest => S (attempts rest)
  | Wait _ :: rest => attempts rest
  end.

(** The delay after [i] failed attempts: [2^i] seconds, at most 30. *)
Definition backoff (i : nat) : Duration :=
  Z.min (2 ^ Z.of_nat i * Second) (30 * Second).

End Tracker.

(** ** Package adb, continued: status replies, errors and the device list *)

Module AdbReply.
Import GoLib Adb.

(** Go errors as values: the sentinels of packages io and adb, any other
    error of the connection with its text, and the errors built by
    [fmt.Errorf] with [%w], either after a prefix ([prefix: %w]) or before a
    suffix ([%w: suffix]). *)
Inductive go_error :=
| io_EOF
| io_ErrUnexpectedEOF
| conn_error (text : string)
| ErrProtocol
| ErrCommandFailed
| ErrConnectionClosed
| context_error
| Errorf_prefix (prefix : string) (cause : go_error)
| Errorf_suffix (cause : go_error) (suffix : string)
| ServerError (Command Message : string).

Section ErrorText.

(** [%q] of a byte and of a string, left to package fmt. *)
Variable fmt_q_byte : ascii -> string.
Variable fmt_q : string -> string.

(** [err.Error()] *)
Fixpoint Error (e : go_error) : string :=
  match e with
  | io_EOF => "EOF"
  | io_ErrUnexpectedEOF => "unexpected EOF"
  | conn_error text => text
  | ErrProtocol => "adb protocol error"
  | ErrCommandFailed => "adb command failed"
  | ErrConnectionClosed => "connection closed"
  | context_error => "context canceled"
  | Errorf_prefix prefix cause => prefix ++ ": " ++ Error cause
  | Errorf_suffix cause suffix => Error cause ++ ": " ++ suffix
  | ServerError Command Message =>
      "adb server error for command " ++ fmt_q Command ++ ": " ++ Message
  end.

Definition of_io (e : io_error) : go_error :=
  match e with
  | EOF => io_EOF
  | ErrUnexpectedEOF => io_ErrUnexpectedEOF
  end.

(** The errors of [ReadLengthPrefixed], as it builds them. *)
Definition of_read_error (e : error) : go_error :=
  match e with
  | ErrReadingLengthPrefix cause =>
      Errorf_prefix "reading length prefix" (of_io cause)
  | ErrInvalidHexDigit b =>
      Errorf_suffix ErrProtocol
        ("invalid hex digit " ++ fmt_q_byte b ++ " in length")
  | ErrReadingPayload length cause =>
      Errorf_prefix ("reading payload (" ++ fmt_d length ++ " bytes)")
                    (of_io cause)
  end.

(** [isClosedErr] of package tracker, for an error that is not nil. *)
Definition isClosedErr (err : go_error) : bool :=
  String.eqb (Error err) "use of closed network connection"
  || String.eqb (Error err) "read/write on closed pipe".

(** The error [Tracker.stream] returns when [ReadLengthPrefixed] has failed
    with [err]; [ctx_done] says whether [ctx.Err()] is set. *)
Definition stream_error (ctx_done : bool) (err : go_error) : go_error :=
  if ctx_done then context_error
  else if (match err with io_EOF => true | _ => false end) || isClosedErr err
  then Errorf_suffix ErrConnectionClosed "stream terminated"
  else Errorf_prefix "reading device update" err.

End ErrorText.

(** [errors.Is(err, target)] for the sentinels: the chain of [Unwrap]. *)
Fixpoint unwraps_to (target : go_error -> bool) (e : go_error) : bool :=
  target e ||
  match e with
  | Errorf_prefix _ cause | Errorf_suffix cause _ => unwraps_to target cause
  | ServerError _ _ => target ErrCommandFailed
  | _ => false
  end.

Definition is_ErrConnectionClosed (e : go_error) : bool :=
  match e with ErrConnectionClosed => true | _ => false end.

(** The errors of [readStatus]. *)
Inductive status_error :=
| ErrReadingStatus (cause : io_error)
| ErrReadingFailMessage (cause : error)
| ErrServer (Command Message : string)
| ErrUnexpectedStatus (status : string).

Definition wireOkay : string := "OKAY".
Definition wireFail : string := "FAIL".

(** [readStatus]: [None] for a nil error, and the bytes left in the
    reader. *)
Definition readStatus (r : string) (cmd : string)
  : option status_error * string :=
  match ReadFull 4 r with
  | (inr e, r1) => (Some (ErrReadingStatus e), r1)
  | (inl status, r1) =>
      if String.eqb status wireOkay then (None, r1)
      else if String.eqb status wireFail then
        match ReadLengthPrefixed r1 with
        | (inr e, r2) => (Some (ErrReadingFailMessage e), r2)
        | (inl msg, r2) => (Some (ErrServer cmd msg), r2)
        end
      else (Some (ErrUnexpectedStatus status), r1)
  end.

(** What [Client.Command] makes of the bytes the server answers with, after
    it has written the command: [readStatus], then one length-prefixed
    payload. *)
Definition Command_reply (reply : string) (cmd : string)
  : (string + (status_error + error)) * string :=
  match readStatus reply cmd with
  | (Some e, r1) => (inr (inl e), r1)
  | (None, r1) =>
      match ReadLengthPrefixed r1 with
      | (inl payload, r2) => (inl payload, r2)
      | (inr e, r2) => (inr (inr e), r2)
      end
  end.

(** The payloads the loop of [Tracker.stream] reads from a connection that
    delivers the bytes [r] and is then closed, and the error that ends the
    loop.  Every round consumes at least the four bytes of a prefix. *)
Fixpoint read_frames (fuel : nat) (r : string) : list string * option error :=
  match fuel with
  | O => ([], None)
  | S fuel' =>
      match ReadLengthPrefixed r with
      | (inr e, _) => ([], Some e)
      | (inl payload, r') =>
          let '(payloads, e) := read_frames fuel' r' in
          (payload :: payloads, e)
      end
  end.

Definition stream_frames (r : string) : list string * option error :=
  read_frames (S (String.length r)) r.

(** The frames a server writes for a list of payloads. *)
Fixpoint frames (payloads : list string) : string :=
  match payloads with
  | [] => EmptyString
  | payload :: rest => writeCommand payload ++ frames rest
  end.

(** The reply of the server to a command it refuses. *)
Definition fail_reply (msg : string) : string := wireFail ++ writeCommand msg.

(** The reply of the server to a command it accepts, with its payload. *)
Definition okay_reply (payload : string) : string :=
  wireOkay ++ writeCommand payload.

(** *** device.go *)

Definition DeviceState : Type := string.
Definition StateDevice : DeviceState := "device".
Definition StateOffline : DeviceState := "offline".
Definition StateUnauthorized : DeviceState := "unauthorized".
Definition StateBootloader : DeviceState := "bootloader".
Definition StateRecovery : DeviceState := "recovery".
Definition StateSideload : DeviceState := "sideload".
Definition StateNoPermission : DeviceState := "no permissions".
Definition StateUnknown : DeviceState := "unknown".

(** [DeviceState.IsOnline] *)
Definition IsOnline (s : DeviceState) : bool := String.eqb s StateDevice.

Record Device := mkDevice {
  dev_Serial : string;
  dev_State : DeviceState;
  Product : string;
  Model : string;
  DeviceTag : string;
  Transport : string;
  dev_FirstSeen : Z;
  dev_LastSeen : Z
}.

Definition zeroDevice : Device := mkDevice "" "" "" "" "" "" 0 0.

(** [parseState] *)
Definition parseState (s : string) : DeviceState :=
  if String.eqb s StateDevice || String.eqb s StateOffline
     || String.eqb s StateUnauthorized || String.eqb s StateBootloader
     || String.eqb s StateRecovery || String.eqb s StateSideload
  then s
  else if Contains s "no permissions" then StateNoPermission
  else StateUnknown.

(** The loop of [parseDeviceLine] over the properties [key:value]. *)
Fixpoint parse_properties (kvs : list string) (dev : Device) : Device :=
  match kvs with
  | [] => dev
  | kv :: rest =>
      match SplitN2 kv ":" with
      | [key; value] =>
          parse_properties rest
            (if String.eqb key "product" then
               mkDevice (dev_Serial dev) (dev_State dev) value (Model dev)
                        (DeviceTag dev) (Transport dev)
                        (dev_FirstSeen dev) (dev_LastSeen dev)
             else if String.eqb key "model" then
               mkDevice (dev_Serial dev) (dev_State dev) (Product dev) value
                        (DeviceTag dev) (Transport dev)
                        (dev_FirstSeen dev) (dev_LastSeen dev)
             else if String.eqb key "device" then
               mkDevice (dev_Serial dev) (dev_State dev) (Product dev)
                        (Model dev) value (Transport dev)
                        (dev_FirstSeen dev) (dev_LastSeen dev)
             else if String.eqb key "transport_id" then
               mkDevice (dev_Serial dev) (dev_State dev) (Product dev)
                        (Model dev) (DeviceTag dev) value
                        (dev_FirstSeen dev) (dev_LastSeen dev)
             else dev)
      | _ => parse_properties rest dev
      end
  end.

(** [parseDeviceLine] *)
Definition parseDeviceLine (line : string) (now : Z) : Device :=
  match Fields line with
  | serial :: state :: kvs =>
      parse_properties kvs
        (mkDevice serial (parseState state) "" "" "" "" now now)
  | _ => zeroDevice
  end.

(** [ParseDeviceList], [now] being what [time.Now()] returned. *)
Fixpoint parse_device_lines (lines : list string) (now : Z) : list Device :=
  match lines with
  | [] => []
  | line :: rest =>
      let line := TrimSpace line in
      if String.eqb line "" then parse_device_lines rest now
      else
        let dev := parseDeviceLine line now in
        if negb (String.eqb (dev_Serial dev) "")
        then dev :: parse_device_lines rest now
        else parse_device_lines rest now
  end.

Definition ParseDeviceList (data : string) (now : Z) : list Device :=
  parse_device_lines (Split (TrimSpace data) "010") now.

(** The eight states of a device. *)
Definition device_states : list DeviceState :=
  [StateDevice; StateOffline; StateUnauthorized; StateBootloader;
   StateRecovery; StateSideload; StateNoPermission; StateUnknown].

(** What every device of a parsed list satisfies. *)
Definition well_formed_device (now : Z) (d : Device) : Prop :=
  dev_Serial d <> "" /\ In (dev_State d) device_states
  /\ dev_FirstSeen d = now /\ dev_LastSeen d = now.

(** A payload that fits the four hex digits of a length prefix. *)
Definition short (s : string) : Prop := len s < 2 ^ 16.

(** The digit that the decoding loop of [ReadLengthPrefixed] reads from a
    byte, branch by branch. *)
Definition loop_digit (b : ascii) : option Z :=
  if between "0" "9" b then Some (wrap_u8 (byte_val b - byte_val "0"))
  else if between "a" "f" b
  then Some (wrap_u32 (wrap_u8 (byte_val b - byte_val "a") + 10))
  else if between "A" "F" b
  then Some (wrap_u32 (wrap_u8 (byte_val b - byte_val "A") + 10))
  else None.

(** Every byte, for checks by cases. *)
Definition all_ascii : list ascii := map ascii_of_nat (seq 0 256).

Definition option_Z_eqb (a b : option Z) : bool :=
  match a, b with
  | Some x, Some y => x =? y
  | None, None => true
  | _, _ => false
  end.

End AdbReply.

(** ** Package tracker, continued: the roster *)

Module Roster.
Import GoLib AdbReply.

(** [event.Type], for the three events of the tracker. *)
Inductive EventType := DeviceConnected | DeviceStateChanged | DeviceDisconnected.

(** [event.Event]; [ev_Device] is the device the event points to. *)
Record Event := mkEvent {
  ev_Type : EventType;
  ev_Serial : string;
  ev_Device : Device;
  ev_OldState : DeviceState;
  ev_NewState : DeviceState;
  ev_Timestamp : Z
}.

Definition set_seen (first last : Z) (dev : Device) : Device :=
  mkDevice (dev_Serial dev) (dev_State dev) (Product dev) (Model dev)
           (DeviceTag dev) (Transport dev) first last.

(** The first loop of [diffAndEmit], over the devices of the new list: the
    map [known] and the events handed to [bus.Publish], in order. *)
Fixpoint diff_current (current : list Device) (now : Z)
  (known : gmap string Device) (events : list Event)
  : gmap string Device * list Event :=
  match current with
  | [] => (known, events)
  | dev :: rest =>
      match known !! dev_Serial dev with
      | None =>
          let dev := set_seen now now dev in
          diff_current rest now (<[dev_Serial dev := dev]> known)
            (events ++ [mkEvent DeviceConnected (dev_Serial dev) dev ""
                                (dev_State dev) now])%list
      | Some prev =>
          let dev := set_seen (dev_FirstSeen prev) now dev in
          diff_current rest now (<[dev_Serial dev := dev]> known)
            (if negb (String.eqb (dev_State prev) (dev_State dev))
             then (events ++ [mkEvent DeviceStateChanged (dev_Serial dev) dev
                                      (dev_State prev) (dev_State dev) now])%list
             else events)
      end
  end.

(** The set [seen]. *)
Definition seen_serials (current : list Device) : gset string :=
  list_to_set (map dev_Serial current).

(** [diffAndEmit], [now] being what [time.Now()] returned.  The second loop
    ranges over the map, in an order Go leaves open; here it is the order of
    [map_to_list]. *)
Definition diffAndEmit (known : gmap string Device) (current : list Device)
  (now : Z) : gmap string Device * list Event :=
  let seen := seen_serials current in
  let '(known1, events1) := diff_current current now known [] in
  let gone := filter (fun entry => entry.1 ∉ seen) known1 in
  let events2 :=
    map (fun entry : string * Device =>
           mkEvent DeviceDisconnected entry.1 entry.2 (dev_State entry.2) "" now)
        (map_to_list gone) in
  (filter (fun entry => entry.1 ∈ seen) known1, (events1 ++ events2)%list).

(** What a device of the new list becomes in the roster, and the event it
    gives rise to, in terms of the roster [known] before the call. *)
Definition first_seen (known : gmap string Device) (now : Z) (dev : Device) : Z :=
  match known !! dev_Serial dev with
  | Some prev => dev_FirstSeen prev
  | None => now
  end.

Definition roster_entry (known : gmap string Device) (now : Z) (dev : Device)
  : string * Device :=
  (dev_Serial dev, set_seen (first_seen known now dev) now dev).

Definition events_for (known : gmap string Device) (now : Z) (dev : Device)
  : list Event :=
  match known !! dev_Serial dev with
  | None =>
      [mkEvent DeviceConnected (dev_Serial dev) (set_seen now now dev) ""
               (dev_State dev) now]
  | Some prev =>
      if negb (String.eqb (dev_State prev) (dev_State dev))
      then [mkEvent DeviceStateChanged (dev_Serial dev)
                    (set_seen (dev_FirstSeen prev) now dev)
                    (dev_State prev) (dev_State dev) now]
      else []
  end.

Definition disconnected_event (now : Z) (entry : string * Device) : Event :=
  mkEvent DeviceDisconnected entry.1 entry.2 (dev_State entry.2) "" now.

(** Two devices of a test roster. *)
Definition emulator : Device :=
  mkDevice "emulator-5554" StateDevice "sdk" "sdk" "emu" "1" 0 0.
Definition pixel : Device :=
  mkDevice "HVA0T18B14001251" StateOffline "flame" "Pixel_4" "flame" "2" 0 0.

End Roster.

(** ** Package bridge: the device table of the application *)

Module Bridge.
Import GoLib AdbReply Roster.

(** [App.handleDeviceEvent], as far as the table [a.devices] goes (the
    broadcast and [StopCapture] are left out).  The events of the tracker
    always carry a device, so the test [e.Device != nil] succeeds; the
    device is the one the event was published with, the loop variable of
    [diffAndEmit] being a new variable in every iteration (Go 1.22, which
    the README asks for). *)
Definition handleDeviceEvent (devices : gmap string Device) (e : Event)
  : gmap string Device :=
  match ev_Type e with
  | DeviceConnected => <[ev_Serial e := ev_Device e]> devices
  | DeviceDisconnected => delete (ev_Serial e) devices
  | DeviceStateChanged => <[ev_Serial e := ev_Device e]> devices
  end.

(** The events of the bus, handled in the order they were published. *)
Definition deliver (devices : gmap string Device) (events : list Event)
  : gmap string Device :=
  foldl handleDeviceEvent devices events.

(** What the table of the application and the roster of the tracker have in
    common: the serials, and state and [FirstSeen] of every device. *)
Definition view (d : Device) : DeviceState * Z := (dev_State d, dev_FirstSeen d).

Definition same_view (devices known : gmap string Device) : Prop :=
  forall serial, view <$> devices !! serial = view <$> known !! serial.

End Bridge.

(** ** Package capture, continued: what the parsers emit *)

Module CaptureMore.
Import GoLib Net Regexp Capture.

(** What [ParseProcNet] promises of the [i]-th connection it returns, for
    the parser [p] it was called on. *)
Definition emitted_by (p : ProcNetParser) (proto : Protocol) (now : Time)
  (i : nat) (conn : Connection) : Prop :=
  conn_ID conn
  = pn_serial p ++ "-conn-" ++ fmt_d (wrap_u64 (pn_nextID p + Z.of_nat i + 1))
  /\ conn_Serial conn = pn_serial p
  /\ conn_Protocol conn = proto
  /\ FirstSeen conn = now /\ LastSeen conn = now
  /\ 0 <= LocalPort conn < 65536 /\ 0 <= RemotePort conn < 65536.

(** The test of [ParseLine] on a line of a trace: it is not empty after
    trimming and [rePacketLine] matches it. *)
Definition is_header (line : string) : bool :=
  negb (String.eqb (TrimSpace line) "")
  && match FindStringSubmatch rePacketLine (TrimSpace line) with
     | Some _ => true
     | None => false
     end.

(** A packet without its HTTP fields. *)
Definition clear_HTTP (p : NetworkPacket) : NetworkPacket :=
  mkPacket (pkt_ID p) (pkt_Serial p) (Timestamp p) (SrcIP p) (SrcPort p)
    (DstIP p) (DstPort p) (pkt_Protocol p) (Length p) (Flags p)
    "" "" "" 0 (Raw p).

Section HeaderLines.
Variable ClockTime : Type.
Variable time_Parse : string -> string -> option ClockTime.
Variable time_Date_on : Time -> ClockTime -> Time.

(** The packets that [ParseLine] alone makes of the lines of a trace, line
    [i] being parsed at the time [clock i]. *)
Fixpoint header_packets (p : TcpdumpParser) (clock : nat -> Time) (i : nat)
  (lines : list string) : list NetworkPacket * TcpdumpParser :=
  match lines with
  | [] => ([], p)
  | line :: rest =>
      match ParseLine ClockTime time_Parse time_Date_on p (clock i) line with
      | (Some pkt, p') =>
          let '(pkts, q) := header_packets p' clock (S i) rest in
          (pkt :: pkts, q)
      | (None, p') => header_packets p' clock (S i) rest
      end
  end.

End HeaderLines.

(** The packet that the loop of [ParseStream] is still assembling. *)
Definition pending (currentPkt : option NetworkPacket) : list NetworkPacket :=
  match currentPkt with Some pkt => [pkt] | None => [] end.

(** What [ParseStream] promises of the [i]-th packet it sends, for the
    parser [p] it was called on. *)
Definition sent_by (p : TcpdumpParser) (i : nat) (pkt : NetworkPacket) : Prop :=
  pkt_ID pkt
  = td_serial p ++ "-" ++ fmt_d (wrap_u64 (td_nextID p + Z.of_nat i + 1))
  /\ pkt_Serial pkt = td_serial p
  /\ 0 <= SrcPort pkt < 65536 /\ 0 <= DstPort pkt < 65536
  /\ In (pkt_Protocol pkt) [ProtoTCP; ProtoUDP; ProtoICMP].

(** *** resolver.go, continued: the background workers *)

(** [NewResolver], with the snooper it is given. *)
Definition NewResolver (sn : option LogcatSnooper) : Resolver :=
  mkResolver ∅ ∅ [] sn.

(** [doReverseDNS]: the snooper is asked first; [net_host] is what the
    lookups on the network come to ([LookupAddr], then [DeviceNslookup]),
    empty when they find nothing. *)
Definition doReverseDNS (r : Resolver) (ip : string) (net_host : string)
  : string :=
  match snooper r with
  | Some sn => if negb (String.eqb (LookupIP sn ip) "") then LookupIP sn ip
               else net_host
  | None => net_host
  end.

(** One round of [dnsWorker]: it receives the oldest address of the queue,
    resolves it, stores the result in the cache and deletes the address from
    the pending set.  With an empty queue the worker waits: [None]. *)
Definition dnsWorker_step (r : Resolver) (net_host : string) : option Resolver :=
  match dnsQueue r with
  | [] => None
  | ip :: rest =>
      Some (mkResolver (<[ip := doReverseDNS r ip net_host]> (dnsCache r))
                       (dnsPend r ∖ {[ip]}) rest (snooper r))
  end.

(** What happens to a resolver: a call of [ResolveHostname] or a round of a
    worker. *)
Inductive resolver_step : Resolver -> Resolver -> Prop :=
| step_ResolveHostname r ip host r' acc :
    ResolveHostname r ip = Some (host, r', acc) -> resolver_step r r'
| step_dnsWorker r net_host r' :
    dnsWorker_step r net_host = Some r' -> resolver_step r r'.

Inductive resolver_steps : Resolver -> Resolver -> Prop :=
| steps_refl r : resolver_steps r r
| steps_step r1 r2 r3 :
    resolver_steps r1 r2 -> resolver_step r2 r3 -> resolver_steps r1 r3.

(** The snooper has no name for the address. *)
Definition snooper_silent (r : Resolver) (ip : string) : Prop :=
  match snooper r with
  | Some sn => LookupIP sn ip = ""
  | None => True
  end.

(** The accesses of a call of [ResolveHostname] that finds no name, up to
    the look at the snooper. *)
Definition looked (r : Resolver) (ip : string) : list access :=
  match snooper r with
  | Some _ => [ReadCache ip; SnooperLookup ip]
  | None => [ReadCache ip]
  end.

(** An address that [ResolveHostname] resolves: not one of the three texts
    it returns early for. *)
Definition resolvable (ip : string) : Prop :=
  (String.eqb ip "" || String.eqb ip "0.0.0.0" || String.eqb ip "::") = false.

(** An address marked pending that is in no queue and has no cache entry. *)
Definition dropped (r : Resolver) (ip : string) : Prop :=
  ip ∈ dnsPend r /\ (ip ∉ dnsQueue r) /\ dnsCache r !! ip = None
  /\ snooper_silent r ip.

(** The queue holds at most 256 addresses, none of them twice, and all of
    them pending. *)
Definition queue_ok (r : Resolver) : Prop :=
  Z.of_nat (length (dnsQueue r)) <= dnsQueue_capacity
  /\ NoDup (dnsQueue r)
  /\ forall ip, ip ∈ dnsQueue r -> ip ∈ dnsPend r.

(** [r.snooper = sn] *)
Definition set_snooper (sn : option LogcatSnooper) (r : Resolver) : Resolver :=
  mkResolver (dnsCache r) (dnsPend r) (dnsQueue r) sn.

(** A resolver whose queue is full. *)
Definition full_resolver : Resolver :=
  mkResolver ∅ {["8.8.4.4"]} (replicate 256 "8.8.4.4") None.

End CaptureMore.

(** ** Package store, continued: the readers by device and the invariant *)

Module StoreQueries.
Import GoLib Capture Store.

(** The loop shared by [GetPacketsBySerial] and [GetConnectionsBySerial]
    over the ring [ring]:
    [for i := 0; i < count && len(result) < n; i++], [todo] being the values
    of [i] still to come and [matches] the test on the serial. *)
Fixpoint by_serial_loop {A} (ring : list A) (head maxSize : Z)
  (matches : A -> bool) (n : Z) (todo : list Z) (result : list A)
  : option (list A) :=
  match todo with
  | [] => Some result
  | i :: rest =>
      if Z.of_nat (length result) <? n then
        idx ← recent_index head maxSize i;
        x ← index_get ring idx;
        by_serial_loop ring head maxSize matches n rest
          (if matches x then (result ++ [x])%list else result)
      else Some result
  end.

(** [GetPacketsBySerial] *)
Definition GetPacketsBySerial (s : Store) (serial : string) (n : Z)
  : option (list NetworkPacket) :=
  by_serial_loop (packets s) (pktHead s) (pktMaxSize s)
    (fun p => String.eqb (pkt_Serial p) serial) n (seqZ 0 (pktCount s)) [].

(** [GetConnectionsBySerial] *)
Definition GetConnectionsBySerial (s : Store) (serial : string) (n : Z)
  : option (list Connection) :=
  by_serial_loop (connections s) (connHead s) (connMaxSize s)
    (fun c => String.eqb (conn_Serial c) serial) n (seqZ 0 (connCount s)) [].

(** [StoreStats] and [Stats] *)
Record StoreStats := mkStoreStats {
  stat_PacketCount : Z;
  stat_ConnectionCount : Z;
  PacketCapacity : Z;
  ConnCapacity : Z
}.

Definition Stats (s : Store) : StoreStats :=
  mkStoreStats (pktCount s) (connCount s) (pktMaxSize s) (connMaxSize s).

(** A sequence of connection inserts, stopping at the first panic. *)
Fixpoint AddConnections (s : Store) (conns : list Connection) : option Store :=
  match conns with
  | [] => Some s
  | conn :: rest => r ← AddConnection s conn; AddConnections r.1 rest
  end.

(** [queryInt] of the bridge, which computes the count that the HTTP
    handlers pass to the readers; [s] is the value of the query parameter,
    empty when it is absent. *)
Definition queryInt (s : string) (def : Z) : Z :=
  if String.eqb s "" then def
  else
    let '(n, err) := Atoi s in
    if (match err with Some _ => true | None => false end) || (n <=? 0)
    then def
    else n.

(** [handleGetRecentPackets] and [handleGetRecentConnections]: what is
    handed to [writeJSON]. *)
Definition handleGetRecentPackets (s : Store) (query_n : string)
  : option (list NetworkPacket) :=
  GetRecentPackets s (queryInt query_n 200).

Definition handleGetRecentConnections (s : Store) (query_n : string)
  : option (list Connection) :=
  GetRecentConnections s (queryInt query_n 200).

(** The shape that the operations keep.  A ring has the length of its
    capacity, the capacity is a positive [int], the head counts the inserts
    since the last [Clear] and the counter is the head capped at the
    capacity; the pointers of the index map lead into the ring. *)
Definition ring_ok {A} (ring : list A) (head maxSize count : Z) : Prop :=
  0 < maxSize /\ maxSize < 2 ^ 63 /\
  Z.of_nat (length ring) = maxSize /\
  0 <= head /\ head < 2 ^ 63 /\
  count = Z.min head maxSize.

Definition store_ok (s : Store) : Prop :=
  ring_ok (packets s) (pktHead s) (pktMaxSize s) (pktCount s) /\
  ring_ok (connections s) (connHead s) (connMaxSize s) (connCount s) /\
  pointers_valid s.

(** Whether the byte [c] occurs in [s]. *)
Fixpoint has_char (c : ascii) (s : string) : bool :=
  match s with
  | EmptyString => false
  | String x s' => Ascii.eqb x c || has_char c s'
  end.

(** A port is a [uint16]. *)
Definition is_port (p : Z) : Prop := 0 <= p < 65536.

(** Connections of the store tests, with keys of their own. *)
Definition conn_a : Connection :=
  mkConnection "ca" "dev1" "10.0.0.1" 1000 "1.1.1.1" 443
               ConnEstablished ProtoTCP 1000 1 1.
Definition conn_b : Connection :=
  mkConnection "cb" "dev2" "10.0.0.2" 2000 "8.8.8.8" 53
               ConnEstablished ProtoTCP 1000 2 2.
Definition conn_a_later : Connection :=
  mkConnection "ca2" "dev1" "10.0.0.1" 1000 "1.1.1.1" 443
               ConnTimeWait ProtoTCP 1000 3 3.

(** A store of capacity one that holds [conn_a]. *)
Definition full_store : Store :=
  match AddConnection (New (mkConfig 1 1)) conn_a with
  | Some (s, _) => s
  | None => New (mkConfig 1 1)
  end.

End StoreQueries.

(** ** Package capture, continued: the engine of the socket-table mode *)

Module Engine.
Import GoLib Capture.

(** [Connection] as engine.go and resolver.go use it: the fields that
    [parseLine] fills ([conn_fields]), and [Hostname] and [AppName], two
    strings that [parseLine] leaves at their zero value and that only
    [EnrichConnection] and the diff of the engine assign. *)
Record Conn := mkConn {
  conn_fields : Connection;
  Hostname : string;
  AppName : string
}.

(** A connection as [ParseProcNet] returns it. *)
Definition parsed (c : Connection) : Conn := mkConn c "" "".

(** [connKey] of the engine.  Unlike the key of the store it ends with the
    state of the connection. *)
Definition connKey (c : Conn) : string :=
  LocalIP (conn_fields c) ++ ":" ++ fmt_d (LocalPort (conn_fields c)) ++
  "->" ++
  RemoteIP (conn_fields c) ++ ":" ++ fmt_d (RemotePort (conn_fields c)) ++
  "/" ++ State (conn_fields c).

(** The assignments to [c.FirstSeen] and [c.LastSeen], to [c.Hostname] and
    to [c.AppName]. *)
Definition set_seen (first last : Time) (c : Conn) : Conn :=
  mkConn (mkConnection (conn_ID (conn_fields c)) (conn_Serial (conn_fields c))
            (LocalIP (conn_fields c)) (LocalPort (conn_fields c))
            (RemoteIP (conn_fields c)) (RemotePort (conn_fields c))
            (State (conn_fields c)) (conn_Protocol (conn_fields c))
            (UID (conn_fields c)) first last)
         (Hostname c) (AppName c).

Definition set_Hostname (host : string) (c : Conn) : Conn :=
  mkConn (conn_fields c) host (AppName c).

Definition set_AppName (pkg : string) (c : Conn) : Conn :=
  mkConn (conn_fields c) (Hostname c) pkg.

(** [ResolvePackageName], on the map [uidCache] of the resolver; a key that
    is not in a Go map reads as the zero value. *)
Definition ResolvePackageName (uidCache : gmap Z string) (uid : Z) : string :=
  if uid <=? 0 then "" else default "" (uidCache !! uid).

(** [EnrichConnection]: the connection and the resolver afterwards. *)
Definition EnrichConnection (r : Resolver) (uidCache : gmap Z string)
  (c : Conn) : option (Conn * Resolver) :=
  '(host, r', _) ← ResolveHostname r (RemoteIP (conn_fields c));
  let c := if negb (String.eqb host "") then set_Hostname host c else c in
  let pkg := ResolvePackageName uidCache (UID (conn_fields c)) in
  let c := if negb (String.eqb pkg "") then set_AppName pkg c else c in
  Some (c, r').

(** [connToPacket] *)
Definition connToPacket (c : Conn) : NetworkPacket :=
  mkPacket (conn_ID (conn_fields c) ++ "-pkt") (conn_Serial (conn_fields c))
    (FirstSeen (conn_fields c))
    (LocalIP (conn_fields c)) (LocalPort (conn_fields c))
    (RemoteIP (conn_fields c)) (RemotePort (conn_fields c))
    (conn_Protocol (conn_fields c)) 0 (State (conn_fields c))
    "" "" (Hostname c) 0
    (conn_Protocol (conn_fields c) ++ " " ++
     LocalIP (conn_fields c) ++ ":" ++ fmt_d (LocalPort (conn_fields c)) ++
     " -> " ++
     RemoteIP (conn_fields c) ++ ":" ++ fmt_d (RemotePort (conn_fields c)) ++
     " [" ++ State (conn_fields c) ++ "]").

(** [CaptureStats]; [PacketCount] and [Errors] are [int64], [ConnCount] is
    an [int]. *)
Record CaptureStats := mkCaptureStats {
  st_Serial : string;
  st_Mode : string;
  st_PacketCount : Z;
  st_ConnCount : Z;
  st_BytesRead : Z;
  StartedAt : Time;
  LastActivity : Time;
  st_Errors : Z
}.

(** What the engine does to its statistics for a new connection. *)
Definition count_connection (now : Time) (s : CaptureStats) : CaptureStats :=
  mkCaptureStats (st_Serial s) (st_Mode s)
    (wrap_i64 (st_PacketCount s + 1)) (wrap_i64 (st_ConnCount s + 1))
    (st_BytesRead s) (StartedAt s) now (st_Errors s).

(** The engine, as far as [readAndDiffProcNet] reads and writes it: its
    resolver (the DNS side and the map [uidCache]), its statistics, and the
    values it has offered to each of its two channels, oldest first.  A send
    is [select] with an empty [default]: the channel takes the value if it
    has room for it, and the value is dropped otherwise. *)
Record Engine := mkEngine {
  resolver : Resolver;
  uidCache : gmap Z string;
  stats : CaptureStats;
  connCh : list Conn;
  packetCh : list NetworkPacket
}.

Definition set_resolver (r : Resolver) (e : Engine) : Engine :=
  mkEngine r (uidCache e) (stats e) (connCh e) (packetCh e).

Definition offer_conn (c : Conn) (e : Engine) : Engine :=
  mkEngine (resolver e) (uidCache e) (stats e) (connCh e ++ [c])%list
           (packetCh e).

Definition offer_packet (pkt : NetworkPacket) (e : Engine) : Engine :=
  mkEngine (resolver e) (uidCache e) (stats e) (connCh e)
           (packetCh e ++ [pkt])%list.

Definition set_stats (s : CaptureStats) (e : Engine) : Engine :=
  mkEngine (resolver e) (uidCache e) s (connCh e) (packetCh e).

(** The body of the first loop of the diff, for the connection [c] of the
    parsed list.  The resolver is threaded through the loop as this
    function reads and writes it; the goroutines that run beside it (the
    workers of the resolver, the snooper, the loader of the UID map) are not
    interleaved here. *)
Definition diff_one (now : Time) (c : Conn) (known : gmap string Conn)
  (e : Engine) : option (gmap string Conn * Engine) :=
  let key := connKey c in
  match known !! key with
  | Some prev =>
      let c := set_seen (FirstSeen (conn_fields prev)) now c in
      if String.eqb (Hostname prev) "" then
        '(c, r) ← EnrichConnection (resolver e) (uidCache e) c;
        let e := set_resolver r e in
        let e := if negb (String.eqb (Hostname c) "")
                 then offer_conn c e else e in
        Some (<[key := c]> known, e)
      else
        let c := set_AppName (AppName prev) (set_Hostname (Hostname prev) c) in
        Some (<[key := c]> known, e)
  | None =>
      let c := set_seen now now c in
      '(c, r) ← EnrichConnection (resolver e) (uidCache e) c;
      let e := set_resolver r e in
      let known := <[key := c]> known in
      let e := set_stats (count_connection now (stats e)) e in
      let e := offer_conn c e in
      let e := offer_packet (connToPacket c) e in
      Some (known, e)
  end.

Fixpoint diff_loop (conns : list Connection) (now : Time)
  (known : gmap string Conn) (e : Engine)
  : option (gmap string Conn * Engine) :=
  match conns with
  | [] => Some (known, e)
  | c :: rest =>
      '(known, e) ← diff_one now (parsed c) known e;
      diff_loop rest now known e
  end.

(** The set [seen]. *)
Definition seen_keys (conns : list Connection) : gset string :=
  list_to_set (map (fun c => connKey (parsed c)) conns).

(** The diff of [readAndDiffProcNet] on the parsed connections: the first
    loop, then the loop that deletes the keys not seen. *)
Definition diffProcNet (e : Engine) (known : gmap string Conn)
  (conns : list Connection) (now : Time)
  : option (gmap string Conn * Engine) :=
  '(known, e) ← diff_loop conns now known e;
  Some (filter (fun entry => entry.1 ∈ seen_keys conns) known, e).

(** The reads of [readAndDiffProcNet].  [tcpOut], [tcp6Out], [udpOut] and
    [udp6Out] are the results of the four calls of [Shell], [None] for an
    error; [t1] to [t4] are the times of the calls of [ParseProcNet].  The
    result is [None] when the function returns after the first read. *)
Definition parse_read (p : ProcNetParser) (out : option string)
  (proto : Protocol) (t : Time) (conns : list Connection)
  : list Connection * ProcNetParser :=
  match out with
  | Some output =>
      let '(more, p') := ParseProcNet p output proto t in
      ((conns ++ more)%list, p')
  | None => (conns, p)
  end.

Definition read_conns (p : ProcNetParser)
  (tcpOut tcp6Out udpOut udp6Out : option string) (t1 t2 t3 t4 : Time)
  : option (list Connection * ProcNetParser) :=
  match tcpOut with
  | None => None
  | Some _ =>
      let '(conns, p) := parse_read p tcpOut ProtoTCP t1 [] in
      let '(conns, p) := parse_read p tcp6Out ProtoTCP t2 conns in
      let '(conns, p) := parse_read p udpOut ProtoUDP t3 conns in
      let '(conns, p) := parse_read p udp6Out ProtoUDP t4 conns in
      Some (conns, p)
  end.

(** [readAndDiffProcNet]: the engine, the parser and the map [known]
    afterwards; [now] is the time of the diff.  The outer [None] is a
    panic. *)
Definition readAndDiffProcNet (e : Engine) (p : ProcNetParser)
  (known : gmap string Conn)
  (tcpOut tcp6Out udpOut udp6Out : option string) (t1 t2 t3 t4 now : Time)
  : option (Engine * ProcNetParser * gmap string Conn) :=
  match read_conns p tcpOut tcp6Out udpOut udp6Out t1 t2 t3 t4 with
  | None => Some (e, p, known)
  | Some (conns, p') =>
      '(known', e') ← diffProcNet e known conns now;
      Some (e', p', known')
  end.

(** What the diff makes of the parsed connection [c]: [LastSeen] is the
    time of the diff, [FirstSeen] is that of the entry that [known] holds
    under the key of [c], or the time of the diff when it holds none. *)
Definition kept_first_seen (known : gmap string Conn) (now : Time)
  (key : string) : Time :=
  match known !! key with
  | Some prev => FirstSeen (conn_fields prev)
  | None => now
  end.

Definition stamped (known : gmap string Conn) (now : Time) (c : Connection)
  : Connection :=
  conn_fields (set_seen (kept_first_seen known now (connKey (parsed c))) now
                        (parsed c)).

(** What holds of a connection [c] that a diff of [conns] against [known]
    offers on [connCh]: it is a connection of the parsed list with its time
    stamps set, and if [known] held an entry under its key, that entry had
    no host name and [c] has one. *)
Definition offered_by (known : gmap string Conn) (conns : list Connection)
  (now : Time) (c : Conn) : Prop :=
  (exists c0, c0 ∈ conns /\ conn_fields c = stamped known now c0)
  /\ (forall prev, known !! connKey c = Some prev ->
                   Hostname prev = "" /\ Hostname c <> "").

(** The keys of a parsed list, in order. *)
Definition keys (conns : list Connection) : list string :=
  map (fun c => connKey (parsed c)) conns.

(** [drainConnections] of the application, as far as the store goes: every
    connection received from the channel is handed to [AddConnection], which
    reads the fields of [conn_fields]; the callback of the store and the
    broadcast to the browser are left out.  [None] is a panic of the
    store. *)
Fixpoint drainConnections (s : Store.Store) (received : list Conn)
  : option Store.Store :=
  match received with
  | [] => Some s
  | c :: rest =>
      '(s', _) ← Store.AddConnection s (conn_fields c);
      drainConnections s' rest
  end.

(** An engine that has not run, for a resolver without snooper. *)
Definition idle_engine : Engine :=
  mkEngine (mkResolver ∅ ∅ [] None) ∅
           (mkCaptureStats "dev1" "procnet" 0 0 0 0 0 0) [] [].

End Engine.

(** * Properties *)

(** ** Integers *)

Module GoLibFacts.
Import GoLib.

(** No wrap-around inside the range of [int64]. *)
Lemma wrap_i64_small (z : Z) : - 2 ^ 63 <= z < 2 ^ 63 -> wrap_i64 z = z.
Proof.
  unfold wrap_i64. change (2 ^ 63) with 9223372036854775808.
  change (2 ^ 64) with 18446744073709551616.
  intros H. Z.div_mod_to_equations. lia.
Qed.

End GoLibFacts.

(** ** Wire framing *)

Module AdbFacts.
Import GoLib Adb.

Lemma take_bytes_app (p s : string) :
  take_bytes (String.length p) (p ++ s) = Some (p, s).
Proof.
  induction p as [|c p IH]; simpl; [reflexivity|].
  rewrite IH. reflexivity.
Qed.

Lemma take_bytes_all (s : string) :
  take_bytes (String.length s) s = Some (s, "").
Proof.
  induction s as [|c s IH]; simpl; [reflexivity|].
  rewrite IH. reflexivity.
Qed.

Lemma in_nibbles (d : Z) : 0 <= d < 16 -> In d nibbles.
Proof.
  intros H. unfold nibbles. simpl.
  assert (d = 0 \/ d = 1 \/ d = 2 \/ d = 3 \/ d = 4 \/ d = 5 \/ d = 6 \/ d = 7
          \/ d = 8 \/ d = 9 \/ d = 10 \/ d = 11 \/ d = 12 \/ d = 13 \/ d = 14
          \/ d = 15) by lia.
  intuition.
Qed.

Lemma all4_spec (f : Z -> bool) (n : Z) :
  all4 f = true -> 0 <= n < 2 ^ 16 -> f n = true.
Proof.
  change (2 ^ 16) with 65536.
  intros H Hn. unfold all4 in H.
  pose proof (proj1 (forallb_forall _ _) H (n / 4096)
                (in_nibbles (n / 4096) ltac:(Z.div_mod_to_equations; lia))) as H3.
  pose proof (proj1 (forallb_forall _ _) H3 (n / 256 mod 16)
                (in_nibbles (n / 256 mod 16) ltac:(Z.div_mod_to_equations; lia))) as H2.
  pose proof (proj1 (forallb_forall _ _) H2 (n / 16 mod 16)
                (in_nibbles (n / 16 mod 16) ltac:(Z.div_mod_to_equations; lia))) as H1.
  pose proof (proj1 (forallb_forall _ _) H1 (n mod 16)
                (in_nibbles (n mod 16) ltac:(Z.div_mod_to_equations; lia))) as H0.
  simpl in H0.
  replace (((n / 4096 * 16 + n / 256 mod 16) * 16 + n / 16 mod 16) * 16
           + n mod 16) with n in H0
    by (Z.div_mod_to_equations; lia).
  exact H0.
Qed.

(** Every length below 2^16 is checked by running the encoder and the
    decoding loop on it. *)
Lemma prefix_ok_below_2_16 : all4 prefix_ok = true.
Proof. vm_compute. reflexivity. Qed.

Lemma prefix_ok_range (n : Z) : 0 <= n < 2 ^ 16 -> prefix_ok n = true.
Proof. apply all4_spec, prefix_ok_below_2_16. Qed.

Lemma parse_length_prefix_non_hex (buf : string) (acc : Z) :
  forallb is_hex_digit (list_ascii_of_string buf) = false ->
  exists b, parse_length_prefix buf acc = inr b /\ is_hex_digit b = false.
Proof.
  revert acc. induction buf as [|b buf IH]; intros acc H; simpl in H.
  - discriminate.
  - simpl. unfold is_hex_digit in H |- *.
    destruct (between "0" "9" b) eqn:E1; simpl in H.
    { apply IH, H. }
    destruct (between "a" "f" b) eqn:E2; simpl in H.
    { apply IH, H. }
    destruct (between "A" "F" b) eqn:E3; simpl in H.
    { apply IH, H. }
    exists b. rewrite E1, E2, E3. split; reflexivity.
Qed.

(** C2. Framing round trip: for a payload [s] shorter than 2^16 bytes the
    encoder writes four lower-case hex digits followed by [s], and
    [ReadLengthPrefixed] reads [s] back, leaving nothing in the stream; and a
    stream whose first four bytes contain a byte that is not a hex digit is
    answered with an error that wraps [ErrProtocol]. *)
Theorem framing_round_trip (s : string) (b0 b1 b2 b3 : ascii) (rest : string) :
  len s < 2 ^ 16 ->
  forallb is_hex_digit [b0; b1; b2; b3] = false ->
  (exists p, writeCommand s = p ++ s /\ String.length p = 4%nat
             /\ forallb is_lower_hex_digit (list_ascii_of_string p) = true)
  /\ ReadLengthPrefixed (writeCommand s) = (inl s, "")
  /\ (exists e r', ReadLengthPrefixed
                     (String b0 (String b1 (String b2 (String b3 rest))))
                   = (inr e, r') /\ is_ErrProtocol e = true).
Proof.
  intros Hlen Hbad.
  assert (Hok : prefix_ok (len s) = true).
  { apply prefix_ok_range. unfold len in *. lia. }
  unfold prefix_ok in Hok. unfold writeCommand.
  destruct (fmt_04x (len s)) as [|a [|b [|c [|d [|x p]]]]]; try discriminate.
  apply andb_true_iff in Hok as [Hdig Hparse].
  split; [|split].
  - eexists. split; [reflexivity|]. split; [reflexivity|exact Hdig].
  - unfold ReadLengthPrefixed, ReadFull.
    change 4%nat with (String.length (String a (String b (String c (String d ""))))).
    rewrite take_bytes_app.
    destruct (parse_length_prefix (String a (String b (String c (String d "")))) 0)
      as [m|] eqn:Em; [|discriminate].
    apply Z.eqb_eq in Hparse. subst m.
    destruct (len s =? 0) eqn:E0.
    + apply Z.eqb_eq in E0. unfold len in E0.
      destruct s; [reflexivity|simpl in E0; lia].
    + unfold len. rewrite Nat2Z.id, take_bytes_all. reflexivity.
  - unfold ReadLengthPrefixed, ReadFull. cbn [take_bytes].
    destruct (parse_length_prefix_non_hex
                (String b0 (String b1 (String b2 (String b3 "")))) 0 Hbad)
      as (bad & Hb & _).
    rewrite Hb. eexists _, _. split; reflexivity.
Qed.

Lemma framing_round_trip_witness :
  len "host:version" < 2 ^ 16 /\
  ReadLengthPrefixed (writeCommand "host:version") = (inl "host:version", "") /\
  exists e r', ReadLengthPrefixed "zzzzhello" = (inr e, r')
               /\ is_ErrProtocol e = true.
Proof.
  split; [reflexivity|].
  apply (framing_round_trip "host:version" "z" "z" "z" "z" "hello");
    reflexivity.
Defined.

End AdbFacts.

(** ** The ring store *)

Module StoreFacts.
Import GoLib GoLibFacts Capture Store.

Lemma rem_nonneg (a b : Z) : 0 <= a -> 0 < b -> Z.rem a b = a mod b.
Proof. intros. apply Z.rem_mod_nonneg; lia. Qed.

Lemma mod_distinct (c i k : Z) :
  0 < c -> 0 <= i < k -> k - i < c -> i mod c <> k mod c.
Proof.
  intros Hc Hi Hd E.
  assert (Hk : (k - i) mod c = 0).
  { rewrite Zminus_mod, E, Z.sub_diag. apply Z.mod_0_l. lia. }
  rewrite Z.mod_small in Hk; lia.
Qed.

Lemma New_ring (c m : Z) :
  0 < c -> ring_holds c [] (New (mkConfig c m)).
Proof.
  intros Hc. unfold ring_holds, New, make. simpl.
  destruct (c <=? 0) eqn:E; [apply Z.leb_le in E; lia|].
  simpl. rewrite length_replicate.
  repeat split; try lia.
Qed.

Lemma AddPacket_ring (c : Z) (pkts : list NetworkPacket) (s : Store)
  (pkt : NetworkPacket) :
  0 < c -> Z.of_nat (length pkts) + 1 < 2 ^ 63 ->
  ring_holds c pkts s ->
  exists s', AddPacket s pkt = Some (s', onChange s)
             /\ ring_holds c (pkts ++ [pkt])%list s'
             /\ onChange s' = onChange s.
Proof.
  intros Hc Hk (Hmax & Hlen & Hhead & Hcount & Hring).
  set (k := Z.of_nat (length pkts)) in *.
  assert (Hk0 : 0 <= k) by (unfold k; lia).
  assert (Hidx : 0 <= k mod c < c) by (apply Z.mod_pos_bound; lia).
  unfold AddPacket, go_rem, index_set.
  rewrite Hmax, Hhead.
  destruct (c =? 0) eqn:E0; [apply Z.eqb_eq in E0; lia|].
  simpl. rewrite rem_nonneg by lia. rewrite Hlen.
  destruct (k mod c <? 0) eqn:E1; [apply Z.ltb_lt in E1; lia|].
  destruct (c <=? k mod c) eqn:E2; [apply Z.leb_le in E2; lia|].
  simpl. eexists. split; [reflexivity|].
  split; [|reflexivity].
  unfold ring_holds. simpl.
  rewrite length_insert, length_app. simpl.
  replace (Z.of_nat (length pkts + 1)) with (k + 1) by (unfold k; lia).
  repeat split; try assumption.
  - apply wrap_i64_small. change (2 ^ 63) with 9223372036854775808 in *. lia.
  - rewrite Hcount.
    destruct (Z.min k c <? c) eqn:E3.
    + apply Z.ltb_lt in E3. rewrite wrap_i64_small.
      * lia.
      * change (2 ^ 63) with 9223372036854775808 in *. lia.
    + apply Z.ltb_ge in E3. lia.
  - intros i Hi Hd.
    destruct (decide (i = length pkts)) as [->|Hne].
    + fold k. rewrite list_lookup_insert_eq by lia.
      rewrite lookup_app_r by lia. rewrite Nat.sub_diag. reflexivity.
    + assert (Hik : (i < length pkts)%nat) by lia.
      rewrite list_lookup_insert_ne.
      * rewrite lookup_app_l by lia. apply Hring; [lia|fold k; lia].
      * intros E. apply Z2Nat.inj in E; try lia.
        -- symmetry in E. revert E. apply mod_distinct; unfold k; lia.
        -- apply Z.mod_pos_bound; lia.
Qed.

Lemma AddPackets_ring (c : Z) (more done : list NetworkPacket) (s : Store) :
  0 < c -> Z.of_nat (length done) + Z.of_nat (length more) < 2 ^ 63 ->
  ring_holds c done s ->
  exists s', AddPackets s more = Some s'
             /\ ring_holds c (done ++ more)%list s'.
Proof.
  intros Hc. revert done s.
  induction more as [|pkt more IH]; intros done s Hk Hs.
  - exists s. rewrite app_nil_r. split; [reflexivity|assumption].
  - simpl in Hk.
    destruct (AddPacket_ring c done s pkt Hc ltac:(lia) Hs) as (s1 & E1 & Hs1 & _).
    destruct (IH (done ++ [pkt])%list s1) as (s' & E' & Hs'); [|assumption|].
    + rewrite length_app. simpl. lia.
    + exists s'. simpl. rewrite E1. simpl. rewrite E'.
      rewrite <- app_assoc in Hs'. split; [reflexivity|exact Hs'].
Qed.

Lemma GetRecentPackets_ring (c : Z) (pkts : list NetworkPacket) (s : Store) :
  0 < c -> c <= Z.of_nat (length pkts) -> Z.of_nat (length pkts) < 2 ^ 63 ->
  ring_holds c pkts s ->
  GetRecentPackets s c = Some (take (Z.to_nat c) (reverse pkts)).
Proof.
  intros Hc Hck Hk (Hmax & Hlen & Hhead & Hcount & Hring).
  change (2 ^ 63) with 9223372036854775808 in Hk.
  unfold GetRecentPackets. rewrite Hcount, Z.min_r by lia.
  rewrite Z.ltb_irrefl.
  destruct (c =? 0) eqn:E0; [apply Z.eqb_eq in E0; lia|].
  destruct (c <? 0) eqn:E1; [apply Z.ltb_lt in E1; lia|].
  apply mapM_Some_2, Forall2_same_length_lookup_2.
  { rewrite length_seqZ, length_take, length_reverse. lia. }
  intros i x y Hx Hy.
  apply lookup_seqZ in Hx as [-> Hi]. rewrite Z.add_0_l.
  apply lookup_take_Some in Hy as [Hy _].
  unfold recent_index. rewrite Hhead, Hmax.
  set (k := Z.of_nat (length pkts)) in *.
  rewrite (wrap_i64_small (k - 1)) by (change (2 ^ 63) with 9223372036854775808; lia).
  rewrite (wrap_i64_small (k - 1 - Z.of_nat i))
    by (change (2 ^ 63) with 9223372036854775808; lia).
  destruct (k - 1 - Z.of_nat i <? 0) eqn:E2; [apply Z.ltb_lt in E2; lia|].
  unfold go_rem. rewrite E0. simpl.
  rewrite rem_nonneg by lia.
  unfold index_get.
  destruct ((k - 1 - Z.of_nat i) mod c <? 0) eqn:E3.
  { apply Z.ltb_lt in E3. pose proof (Z.mod_pos_bound (k - 1 - Z.of_nat i) c Hc). lia. }
  rewrite reverse_lookup in Hy by (unfold k in *; lia).
  rewrite <- Hy.
  replace (k - 1 - Z.of_nat i) with (Z.of_nat (length pkts - S i)) by (unfold k; lia).
  apply Hring; unfold k in *; lia.
Qed.

(** C4. Ring bound: in a store of packet capacity [c > 0], after [k > c]
    packet inserts the packet count is [c] and [GetRecentPackets c] returns
    the last [c] inserted packets, newest first: its first entry is the last
    insert and its last entry is insert number [k - c] (counting from zero).
    On the way the count after [j] inserts is [min j c]: it grows with every
    insert up to the capacity and stays there.  The head is a 64-bit [int],
    hence the bound on [k]. *)
Theorem ring_bound (c m : Z) (pkts : list NetworkPacket) :
  let k := length pkts in
  0 < c -> c < Z.of_nat k -> Z.of_nat k < 2 ^ 63 ->
  exists s recent,
    AddPackets (New (mkConfig c m)) pkts = Some s /\
    PacketCount s = c /\
    GetRecentPackets s c = Some recent /\
    recent = take (Z.to_nat c) (reverse pkts) /\
    length recent = Z.to_nat c /\
    recent !! 0%nat = pkts !! (k - 1)%nat /\
    recent !! (Z.to_nat c - 1)%nat = pkts !! (k - Z.to_nat c)%nat /\
    (forall j, (j <= k)%nat ->
       exists sj, AddPackets (New (mkConfig c m)) (take j pkts) = Some sj
                  /\ PacketCount sj = Z.min (Z.of_nat j) c).
Proof.
  intros k Hc Hck Hk.
  destruct (AddPackets_ring c pkts [] (New (mkConfig c m)) Hc
              ltac:(simpl; fold k; lia) (New_ring c m Hc)) as (s & Es & Hs).
  simpl in Hs.
  exists s, (take (Z.to_nat c) (reverse pkts)).
  split; [exact Es|].
  split.
  { destruct Hs as (_ & _ & _ & Hcount & _). unfold PacketCount.
    fold k in Hcount. lia. }
  split. { apply GetRecentPackets_ring; fold k; try lia. exact Hs. }
  split; [reflexivity|].
  split. { rewrite length_take, length_reverse. fold k. lia. }
  split. { rewrite lookup_take_lt by lia. rewrite reverse_lookup by (fold k; lia).
           fold k. f_equal; lia. }
  split. { rewrite lookup_take_lt by lia. rewrite reverse_lookup by (fold k; lia).
           fold k. f_equal; lia. }
  intros j Hj.
  destruct (AddPackets_ring c (take j pkts) [] (New (mkConfig c m)) Hc)
    as (sj & Ej & Hsj).
  { simpl. rewrite length_take. fold k. lia. }
  { apply New_ring, Hc. }
  exists sj. split; [exact Ej|].
  destruct Hsj as (_ & _ & _ & Hcount & _). simpl in Hcount.
  rewrite length_take in Hcount. fold k in Hcount.
  unfold PacketCount. rewrite Hcount. f_equal. lia.
Qed.

(** Capacity 5 and the inserts [pkt-0] .. [pkt-9]. *)
Lemma ring_overflow_capacity_5 :
  let p := test_packet in
  let pkts := [p 0; p 1; p 2; p 3; p 4; p 5; p 6; p 7; p 8; p 9] in
  (0 < 5 /\ 5 < Z.of_nat (length pkts) /\ Z.of_nat (length pkts) < 2 ^ 63) /\
  exists s, AddPackets (New (mkConfig 5 5)) pkts = Some s /\
            PacketCount s = 5 /\
            GetRecentPackets s 5 = Some [p 9; p 8; p 7; p 6; p 5].
Proof.
  intros p pkts.
  assert (H0 : 0 < 5) by reflexivity.
  assert (H1 : 5 < Z.of_nat (length pkts)) by reflexivity.
  assert (H2 : Z.of_nat (length pkts) < 2 ^ 63) by reflexivity.
  split; [auto|].
  destruct (ring_bound 5 5 pkts H0 H1 H2) as (s & recent & Es & Ec & Er & -> & _).
  exists s. auto.
Defined.

Lemma connKey_same (c1 c2 : Connection) :
  LocalIP c1 = LocalIP c2 -> LocalPort c1 = LocalPort c2 ->
  RemoteIP c1 = RemoteIP c2 -> RemotePort c1 = RemotePort c2 ->
  connKey c1 = connKey c2.
Proof. unfold connKey. intros -> -> -> ->. reflexivity. Qed.

Lemma New_connMaxSize_pos (cfg : Config) : 0 < connMaxSize (New cfg).
Proof.
  unfold New. simpl. destruct (MaxConnections cfg <=? 0) eqn:E.
  - reflexivity.
  - apply Z.leb_gt in E. exact E.
Qed.

Lemma New_connections_length (cfg : Config) :
  Z.of_nat (length (connections (New cfg))) = connMaxSize (New cfg).
Proof.
  pose proof (New_connMaxSize_pos cfg) as Hpos.
  unfold New in *. cbn [connections connMaxSize] in *. unfold make.
  rewrite length_replicate. lia.
Qed.

(** The first insert into a store whose index map is empty and whose ring
    has room. *)
Lemma AddConnection_fresh (s : Store) (conn : Connection) :
  connMap s = ∅ -> connHead s = 0 -> connCount s = 0 ->
  0 < connMaxSize s ->
  Z.of_nat (length (connections s)) = connMaxSize s ->
  AddConnection s conn =
    Some (mkStore (packets s) (pktHead s) (pktCount s) (pktMaxSize s)
            (<[0%nat := conn]> (connections s)) 1 1 (connMaxSize s)
            {[connKey conn := 0%nat]} (onChange s),
          onChange s).
Proof.
  intros Hmap Hhead Hcount Hmax Hlen.
  unfold AddConnection. rewrite Hmap, lookup_empty, Hhead, Hcount.
  unfold go_rem. destruct (connMaxSize s =? 0) eqn:E0; [apply Z.eqb_eq in E0; lia|].
  simpl. rewrite Z.rem_0_l by lia. unfold index_set. rewrite Hlen.
  destruct (connMaxSize s <=? 0) eqn:E1; [apply Z.leb_le in E1; lia|].
  destruct (0 <? connMaxSize s) eqn:E2; [|apply Z.ltb_ge in E2; lia].
  simpl. reflexivity.
Qed.

Lemma AddConnection_existing (s : Store) (conn : Connection) (ptr : nat) :
  connMap s !! connKey conn = Some ptr ->
  AddConnection s conn =
    Some (mkStore (packets s) (pktHead s) (pktCount s) (pktMaxSize s)
            (alter (entry_update conn) ptr (connections s))
            (connHead s) (connCount s) (connMaxSize s)
            (connMap s) (onChange s),
          None).
Proof. intros H. unfold AddConnection. rewrite H. reflexivity. Qed.

(** C5. Connection de-duplication: two inserts into a new store (with any
    callback registered) of connections that agree on local IP, local port,
    remote IP and remote port leave one connection in it.  The second insert
    goes through the pointer of the index map: the head and the index map
    stay as the first insert left them, no callback is invoked, and the stored
    entry is the first connection with the last-seen time and the state of
    the second. *)
Theorem connection_dedup (cfg : Config) (fn : option func) (c1 c2 : Connection) :
  LocalIP c1 = LocalIP c2 -> LocalPort c1 = LocalPort c2 ->
  RemoteIP c1 = RemoteIP c2 -> RemotePort c1 = RemotePort c2 ->
  exists s1 s2,
    AddConnection (SetOnChange (New cfg) fn) c1 = Some (s1, fn) /\
    AddConnection s1 c2 = Some (s2, None) /\
    ConnectionCount s2 = 1 /\
    connHead s2 = connHead s1 /\
    connMap s2 = connMap s1 /\
    GetRecentConnections s2 (connMaxSize s2) = Some [entry_update c2 c1] /\
    LastSeen (entry_update c2 c1) = LastSeen c2 /\
    State (entry_update c2 c1) = State c2.
Proof.
  intros H1 H2 H3 H4.
  pose proof (connKey_same c1 c2 H1 H2 H3 H4) as Hkey.
  pose proof (New_connMaxSize_pos cfg) as Hpos.
  pose proof (New_connections_length cfg) as Hlen.
  assert (Hmap : connMap (New cfg) = ∅) by reflexivity.
  assert (Hhead : connHead (New cfg) = 0) by reflexivity.
  assert (Hcount : connCount (New cfg) = 0) by reflexivity.
  generalize dependent (New cfg). intros n0 Hpos Hlen Hmap Hhead Hcount.
  set (M := connMaxSize n0) in *.
  assert (E1 := AddConnection_fresh (SetOnChange n0 fn) c1 Hmap Hhead Hcount Hpos Hlen).
  eexists _, _. split; [exact E1|].
  split.
  { apply AddConnection_existing with (ptr := 0%nat).
    cbn [connMap]. rewrite Hkey. apply lookup_singleton_eq. }
  cbn [ConnectionCount SetOnChange packets pktHead pktCount pktMaxSize connections
       connHead connCount connMaxSize connMap onChange].
  do 3 (split; [reflexivity|]).
  split; [|split; reflexivity].
  assert (Hget : alter (entry_update c2) 0%nat (<[0%nat:=c1]> (connections n0)) !! 0%nat
                 = Some (entry_update c2 c1)).
  { rewrite list_lookup_alter_eq, list_lookup_insert_eq; [reflexivity|].
    apply Nat2Z.inj_lt. rewrite Hlen. exact Hpos. }
  unfold GetRecentConnections.
  cbn [connCount connMaxSize connHead connections]. fold M.
  assert (Hn : (if 1 <? M then 1 else M) = 1).
  { destruct (1 <? M) eqn:E3; [reflexivity|]. apply Z.ltb_ge in E3. lia. }
  rewrite Hn. simpl. unfold recent_index, go_rem. fold M.
  destruct (M =? 0) eqn:E0; [apply Z.eqb_eq in E0; lia|].
  change (wrap_i64 (wrap_i64 (1 - 1) - 0)) with 0. simpl.
  rewrite Z.rem_0_l by lia. unfold index_get. simpl.
  change (Z.to_nat 0) with 0%nat. rewrite Hget. reflexivity.
Qed.

Lemma reachable_pointers_valid (s : Store) : reachable s -> pointers_valid s.
Proof.
  unfold pointers_valid.
  induction 1 as [cfg|s fn _ IH|s pkt s' cb _ IH E|s conn s' cb _ IH E
                 |s _ IH|s serial s' _ IH E]; intros key ptr Hk.
  - simpl in Hk. rewrite lookup_empty in Hk. discriminate.
  - apply (IH key ptr Hk).
  - unfold AddPacket in E.
    destruct (go_rem _ _) as [idx|]; [|discriminate]. simpl in E.
    destruct (index_set _ _ _) as [l|]; [|discriminate]. simpl in E.
    injection E as <- _. apply (IH key ptr Hk).
  - unfold AddConnection in E.
    destruct (connMap s !! connKey conn) as [p|] eqn:Ep.
    + injection E as <- _. simpl in *. rewrite length_alter. eauto.
    + destruct (go_rem _ _) as [idx|]; [|discriminate]. simpl in E.
      unfold index_set in E.
      destruct ((idx <? 0) || (Z.of_nat (length (connections s)) <=? idx)) eqn:Eb;
        [discriminate|].
      simpl in E. injection E as <- _. cbn [connMap connections] in *.
      apply orb_false_iff in Eb as [Eb1 Eb2].
      apply Z.ltb_ge in Eb1. apply Z.leb_gt in Eb2.
      rewrite length_insert.
      destruct (decide (connKey conn = key)) as [Heq|Hne].
      * rewrite Heq, lookup_insert_eq in Hk. injection Hk as <-. lia.
      * rewrite lookup_insert_ne in Hk by exact Hne. eauto.
  - simpl in Hk. rewrite lookup_empty in Hk. discriminate.
  - unfold ClearDevice in E.
    destruct (_ || _); [discriminate|]. injection E as <-. simpl in *.
    apply map_lookup_filter_Some in Hk as [Hk _]. eauto.
Qed.

(** C10. Frame of an insert whose key is in the index map: the entry the
    map points to gets the last-seen time and the state of the inserted
    connection and keeps its other fields; every other ring slot, both heads,
    both counters, both capacities, the packets, the index map and the
    registered callback are unchanged, and no callback is invoked.  A packet
    insert and an insert of a new key invoke the registered callback, if one
    is set.  In a store built by the operations the pointer does lead to an
    entry. *)
Theorem existing_key_insert_frame (s : Store) (conn : Connection) (ptr : nat) :
  connMap s !! connKey conn = Some ptr ->
  exists s',
    AddConnection s conn = Some (s', None) /\
    connections s' !! ptr = entry_update conn <$> connections s !! ptr /\
    (forall j, j <> ptr -> connections s' !! j = connections s !! j) /\
    length (connections s') = length (connections s) /\
    (forall e, entry_update conn e =
               mkConnection (conn_ID e) (conn_Serial e) (LocalIP e) (LocalPort e)
                 (RemoteIP e) (RemotePort e) (State conn) (conn_Protocol e)
                 (UID e) (FirstSeen e) (LastSeen conn)) /\
    (reachable s -> exists e, connections s !! ptr = Some e) /\
    connHead s' = connHead s /\ pktHead s' = pktHead s /\
    connCount s' = connCount s /\ pktCount s' = pktCount s /\
    connMaxSize s' = connMaxSize s /\ pktMaxSize s' = pktMaxSize s /\
    packets s' = packets s /\ connMap s' = connMap s /\
    onChange s' = onChange s /\
    (forall pkt r, AddPacket s pkt = Some r -> r.2 = onChange s) /\
    (forall conn' r, connMap s !! connKey conn' = None ->
                     AddConnection s conn' = Some r -> r.2 = onChange s).
Proof.
  intros Hk. eexists. split; [apply AddConnection_existing, Hk|].
  cbn [packets pktHead pktCount pktMaxSize connections connHead connCount
       connMaxSize connMap onChange].
  split; [apply list_lookup_alter_eq|].
  split; [intros j Hj; apply list_lookup_alter_ne; congruence|].
  split; [apply length_alter|].
  split; [reflexivity|].
  split.
  { intros Hr. apply lookup_lt_is_Some_2.
    apply (reachable_pointers_valid s Hr _ _ Hk). }
  do 9 (split; [reflexivity|]).
  split.
  - intros pkt r E. unfold AddPacket in E.
    destruct (go_rem _ _); [|discriminate]. simpl in E.
    destruct (index_set _ _ _); [|discriminate]. simpl in E.
    injection E as <-. reflexivity.
  - intros conn' r Hnone E. unfold AddConnection in E. rewrite Hnone in E.
    destruct (go_rem _ _); [|discriminate]. simpl in E.
    destruct (index_set _ _ _); [|discriminate]. simpl in E.
    injection E as <-. reflexivity.
Qed.

(** What [ClearDevice] does in general: packets of the device among the
    first [pktCount] slots are zeroed, other packets stay; the ring of
    connections is not touched; the index map keeps the keys whose pointer
    does not lead to a connection of the device. *)
Lemma ClearDevice_effect (s s' : Store) (serial : string) :
  ClearDevice s serial = Some s' ->
  (forall i p, (i < Z.to_nat (pktCount s))%nat -> packets s !! i = Some p ->
               packets s' !! i = Some (clear_packet serial p)) /\
  (forall i, (Z.to_nat (pktCount s) <= i)%nat ->
             packets s' !! i = packets s !! i) /\
  connections s' = connections s /\
  (forall key ptr, connMap s' !! key = Some ptr <->
                   connMap s !! key = Some ptr /\
                   ~ points_at_device (connections s) serial (key, ptr)).
Proof.
  unfold ClearDevice.
  destruct ((pktCount s <? 0) || _) eqn:Eb; [discriminate|].
  apply orb_false_iff in Eb as [Eb1 Eb2].
  apply Z.ltb_ge in Eb1, Eb2.
  intros E. injection E as <-. cbn [packets connections connMap].
  set (n := Z.to_nat (pktCount s)).
  assert (Hn : (n <= length (packets s))%nat) by (unfold n; lia).
  assert (Hlen : length (map (clear_packet serial) (take n (packets s))) = n).
  { rewrite length_map, length_take. lia. }
  split; [|split; [|split]].
  - intros i p Hi Hp. rewrite lookup_app_l by lia.
    change (map (clear_packet serial)) with (fmap (M := list) (clear_packet serial)).
    rewrite list_lookup_fmap, lookup_take_lt, Hp by lia. reflexivity.
  - intros i Hi. rewrite lookup_app_r by lia. rewrite Hlen, lookup_drop.
    f_equal. lia.
  - reflexivity.
  - intros key ptr. apply map_lookup_filter_Some.
Qed.

(** C6. [ClearDevice] at a store that holds one packet and one connection
    of device [dev1]: the packet slot is zeroed and the index map is emptied,
    but the ring slot of the connection still holds the connection with its
    serial, the connection count is still 1 and the reader still returns the
    connection. *)
Theorem clear_device_keeps_connection_entries :
  exists s,
    cleared_store = Some s /\
    packets s !! 0%nat = Some zeroPacket /\
    connMap s = ∅ /\
    connections s !! 0%nat = Some dev1_conn /\
    conn_Serial dev1_conn = "dev1" /\
    dev1_conn <> zeroConnection /\
    ConnectionCount s = 1 /\
    GetRecentConnections s 10 = Some [dev1_conn].
Proof.
  destruct cleared_store as [s|] eqn:E; [|vm_compute in E; discriminate].
  exists s. split; [reflexivity|].
  vm_compute in E. injection E as <-.
  repeat split; try reflexivity. discriminate.
Qed.

Lemma connection_dedup_witness :
  exists s1 s2,
    AddConnection (SetOnChange (New (mkConfig 100 100)) (Some 1%nat)) dev1_conn
      = Some (s1, Some 1%nat) /\
    AddConnection s1 dev1_conn_later = Some (s2, None) /\
    ConnectionCount s2 = 1 /\
    GetRecentConnections s2 (connMaxSize s2)
      = Some [entry_update dev1_conn_later dev1_conn] /\
    LastSeen (entry_update dev1_conn_later dev1_conn) = 9.
Proof.
  destruct (connection_dedup (mkConfig 100 100) (Some 1%nat)
              dev1_conn dev1_conn_later eq_refl eq_refl eq_refl eq_refl)
    as (s1 & s2 & E1 & E2 & Hc & _ & _ & Hr & Hl & _).
  exists s1, s2. auto.
Defined.

Lemma existing_key_insert_frame_witness :
  connMap store_with_dev1 !! connKey dev1_conn_later = Some 0%nat /\
  exists s', AddConnection store_with_dev1 dev1_conn_later = Some (s', None)
             /\ connHead s' = connHead store_with_dev1
             /\ connMap s' = connMap store_with_dev1.
Proof.
  assert (H : connMap store_with_dev1 !! connKey dev1_conn_later = Some 0%nat)
    by (vm_compute; reflexivity).
  split; [exact H|].
  destruct (existing_key_insert_frame store_with_dev1 dev1_conn_later 0%nat H)
    as (s' & E & _ & _ & _ & _ & _ & Hh & _ & _ & _ & _ & _ & _ & Hm & _).
  exists s'. auto.
Defined.

End StoreFacts.

(** ** The socket-table parser, the trace parser and the resolver *)

Module CaptureFacts.
Import GoLib Net Regexp Capture.

Lemma parseLine_not_filtered p line proto now conn p' :
  parseLine p line proto now = (Some conn, p') -> not_filtered conn.
Proof.
  unfold parseLine.
  destruct (Z.of_nat (length (Fields line)) <? 10); [discriminate|].
  destruct (parseHexAddr (nth 1 (Fields line) "")) as [[localIP localPort]|];
    [|discriminate].
  destruct (parseHexAddr (nth 2 (Fields line) "")) as [[remoteIP remotePort]|];
    [|discriminate].
  destruct (String.eqb localIP "127.0.0.1" && String.eqb remoteIP "127.0.0.1")
    eqn:E1; [discriminate|].
  destruct (String.eqb remoteIP "0.0.0.0" && _) eqn:E2; [discriminate|].
  intros E. injection E as <- _. unfold not_filtered. cbn [LocalIP RemoteIP State].
  split; intros [Ha Hb].
  - rewrite Ha, Hb in E1. discriminate.
  - rewrite Ha, Hb in E2. discriminate.
Qed.

Lemma parse_lines_not_filtered lines : forall p proto now conns,
  Forall not_filtered conns ->
  Forall not_filtered (fst (parse_lines p lines proto now conns)).
Proof.
  induction lines as [|line rest IH]; intros p proto now conns Hc.
  - exact Hc.
  - cbn [parse_lines].
    destruct (String.eqb (TrimSpace line) "" || HasPrefix (TrimSpace line) "sl").
    + apply IH, Hc.
    + destruct (parseLine p (TrimSpace line) proto now) as [[conn|] p'] eqn:E.
      * apply IH. apply Forall_app. split; [exact Hc|].
        constructor; [|constructor].
        apply (parseLine_not_filtered _ _ _ _ _ _ E).
      * apply IH, Hc.
Qed.

(** The scenario of the parser's test.  The three rows of the socket table
    (alone, or below the header line of the table) yield exactly two
    connections: the row [0100007F:13AD 00000000:0000 0A] is dropped, both
    connections are established with UID 1000, the first to
    174.216.14.34:443 and the second to 172.200.70.78:80.  And whatever the
    input, no emitted connection has the local and the remote IP both equal
    to the text [127.0.0.1], and none has the remote IP [0.0.0.0] in state
    listen. *)
Theorem socket_table_scenario (now : Time) :
  ParseProcNet (NewProcNetParser "device1") three_rows ProtoTCP now
    = ([conn1 now; conn2 now], mkProcNetParser "device1" 2) /\
  ParseProcNet (NewProcNetParser "device1") test_input ProtoTCP now
    = ([conn1 now; conn2 now], mkProcNetParser "device1" 2) /\
  forall p output proto,
    Forall not_filtered (fst (ParseProcNet p output proto now)).
Proof.
  split; [vm_compute; reflexivity|].
  split; [vm_compute; reflexivity|].
  intros p output proto. apply parse_lines_not_filtered. constructor.
Qed.

(** C3.  Lines whose local and remote address are both loopback are to be
    dropped, and [parseLine] says so itself (skip loopback and LISTEN
    sockets), but its guard compares both texts with [127.0.0.1] only: the
    row of the IPv6 table from [::1] port 8080 to [::1] port 54321 is emitted
    as a connection, and both of its addresses are loopback addresses. *)
Lemma ipv6_loopback_row_emitted :
  exists conn l r,
    fst (ParseProcNet (NewProcNetParser "device1") row_v6_loopback ProtoTCP 0)
      = [conn] /\
    ParseIP (LocalIP conn) = Some l /\ IsLoopback l = true /\
    ParseIP (RemoteIP conn) = Some r /\ IsLoopback r = true.
Proof.
  eexists _, _, _. split; [vm_compute; reflexivity|].
  repeat split; vm_compute; reflexivity.
Qed.

(** C1. [parseHexIP] reverses the four bytes of an IPv4 address, but the
    32-digit encoding of the IPv6-mapped [::ffff:192.168.1.1] comes out as
    eight hex groups, a text that denotes the same address and is not its
    dotted IPv4 form [192.168.1.1]. *)
Theorem parseHexIP_mapped_not_normalised :
  parseHexIP "0100007F" = inl "127.0.0.1" /\
  parseHexIP "0101A8C0" = inl "192.168.1.1" /\
  ParseIP "::ffff:192.168.1.1" = Some (v4 192 168 1 1) /\
  parseHexIP "0000000000000000FFFF00000101A8C0" = inl "0:0:0:0:0:ffff:c0a8:101" /\
  ParseIP "0:0:0:0:0:ffff:c0a8:101" = Some (v4 192 168 1 1).
Proof. repeat split; vm_compute; reflexivity. Qed.

(** Every result for a 32-digit input is made of eight groups separated by
    colons. *)
Lemma parseHexIP_32_colons (h s : string) :
  len h = 32 -> parseHexIP h = inl s ->
  exists p0 p1 p2 p3 p4 p5 p6 p7,
    s = p0 ++ ":" ++ p1 ++ ":" ++ p2 ++ ":" ++ p3 ++ ":" ++ p4 ++ ":" ++ p5
        ++ ":" ++ p6 ++ ":" ++ p7.
Proof.
  intros Hlen. unfold parseHexIP. rewrite Hlen. cbn [Z.eqb Pos.eqb].
  destruct (DecodeString h) as [b|]; [|discriminate].
  intros E. injection E as <-. cbn [flat_map app Join].
  eexists _, _, _, _, _, _, _, _. reflexivity.
Qed.

Section TraceScenario.
Variable ClockTime : Type.
Variable time_Parse : string -> string -> option ClockTime.
Variable time_Date_on : Time -> ClockTime -> Time.

Lemma rePacketLine_trace_line :
  FindStringSubmatch rePacketLine (TrimSpace trace_line) =
  Some [trace_line; "12:34:56.789012"; "IP"; "10.0.0.1"; "12345";
        "93.184.216.34"; "80"; "tcp 100"].
Proof. vm_compute. reflexivity. Qed.

Lemma ParseLine_trace_line (p : TcpdumpParser) (now : Time) :
  ParseLine ClockTime time_Parse time_Date_on p now trace_line
  = (Some (trace_packet ClockTime time_Parse time_Date_on p now), next_parser p).
Proof.
  unfold ParseLine. rewrite rePacketLine_trace_line.
  change (TrimSpace trace_line) with trace_line.
  reflexivity.
Qed.

Lemma ParseLine_not_header (p : TcpdumpParser) (now : Time) (line : string) :
  negb (String.eqb (TrimSpace line) "") = true ->
  FindStringSubmatch rePacketLine (TrimSpace line) = None ->
  ParseLine ClockTime time_Parse time_Date_on p now line = (None, p).
Proof.
  intros H1 H2. unfold ParseLine. rewrite H2.
  destruct (String.eqb (TrimSpace line) ""); reflexivity.
Qed.

(** C7. Trace parse: the line
    [12:34:56.789012 IP 10.0.0.1.12345 > 93.184.216.34.80: tcp 100] yields a
    packet from 10.0.0.1:12345 to 93.184.216.34:80 with protocol TCP and
    length 100; the lines [GET /api/users HTTP/1.1] and [Host: example.com]
    are no packet headers and enrich the packet with method GET, path
    /api/users and host example.com; [ParseStream] on the three lines sends
    this one enriched packet. *)
Theorem trace_parse (p : TcpdumpParser) (now : Time) (clock : nat -> Time) :
  let parse := ParseLine ClockTime time_Parse time_Date_on in
  let pkt := trace_packet ClockTime time_Parse time_Date_on p now in
  let with_request := set_HTTPRequest "GET" "/api/users" pkt in
  let with_host := set_HTTPHost "example.com" with_request in
  parse p now trace_line = (Some pkt, next_parser p) /\
  SrcIP pkt = "10.0.0.1" /\ SrcPort pkt = 12345 /\
  DstIP pkt = "93.184.216.34" /\ DstPort pkt = 80 /\
  pkt_Protocol pkt = ProtoTCP /\ Length pkt = 100 /\
  parse (next_parser p) now request_line = (None, next_parser p) /\
  EnrichWithHTTP (Some pkt) request_line = Some with_request /\
  HTTPMethod with_request = "GET" /\ HTTPPath with_request = "/api/users" /\
  parse (next_parser p) now host_line = (None, next_parser p) /\
  EnrichWithHTTP (Some with_request) host_line = Some with_host /\
  HTTPHost with_host = "example.com" /\
  HTTPMethod with_host = "GET" /\ HTTPPath with_host = "/api/users" /\
  ParseStream ClockTime time_Parse time_Date_on p clock
              [trace_line; request_line; host_line]
  = ([set_HTTPHost "example.com"
        (set_HTTPRequest "GET" "/api/users" (trace_packet ClockTime time_Parse time_Date_on p
                           (clock 0%nat)))],
     next_parser p).
Proof.
  intros parse pkt with_request with_host.
  assert (Hreq : forall q t, parse q t request_line = (None, q)).
  { intros q t. apply ParseLine_not_header; vm_compute; reflexivity. }
  assert (Hhost : forall q t, parse q t host_line = (None, q)).
  { intros q t. apply ParseLine_not_header; vm_compute; reflexivity. }
  assert (He1 : forall q, EnrichWithHTTP (Some q) request_line
                          = Some (set_HTTPRequest "GET" "/api/users" q)).
  { intros q. reflexivity. }
  assert (He2 : forall q, EnrichWithHTTP (Some q) host_line
                          = Some (set_HTTPHost "example.com" q)).
  { intros q. reflexivity. }
  split; [apply ParseLine_trace_line|].
  do 6 (split; [reflexivity|]).
  split; [apply Hreq|].
  split; [apply He1|].
  do 2 (split; [reflexivity|]).
  split; [apply Hhost|].
  split; [apply He2|].
  do 3 (split; [reflexivity|]).
  unfold ParseStream. cbn [ParseStream_loop].
  rewrite ParseLine_trace_line.
  fold parse. rewrite Hreq, Hhost, He1, He2. reflexivity.
Qed.
End TraceScenario.

Lemma byte_cases (P : Z -> bool) :
  forallb P (seqZ 0 256) = true -> forall b, 0 <= b < 256 -> P b = true.
Proof.
  intros H b Hb. rewrite forallb_forall in H. apply H.
  apply list_elem_of_In, elem_of_seqZ. lia.
Qed.

Lemma land_240 (b : Z) : 16 <= b <= 31 -> Z.land b 240 = 16.
Proof.
  intros Hb.
  pose proof (byte_cases
    (fun b => implb ((16 <=? b) && (b <=? 31)) (Z.land b 240 =? 16))
    eq_refl b ltac:(lia)) as H.
  cbv beta in H.
  replace ((16 <=? b) && (b <=? 31)) with true in H
    by (symmetry; apply andb_true_iff; split; apply Z.leb_le; lia).
  apply Z.eqb_eq, H.
Qed.

Lemma land_192 (b : Z) : 128 <= b <= 191 -> Z.land b 192 = 128.
Proof.
  intros Hb.
  pose proof (byte_cases
    (fun b => implb ((128 <=? b) && (b <=? 191)) (Z.land b 192 =? 128))
    eq_refl b ltac:(lia)) as H.
  cbv beta in H.
  replace ((128 <=? b) && (b <=? 191)) with true in H
    by (symmetry; apply andb_true_iff; split; apply Z.leb_le; lia).
  apply Z.eqb_eq, H.
Qed.

Lemma land_254 (b : Z) : 252 <= b <= 253 -> Z.land b 254 = 252.
Proof.
  intros Hb. assert (b = 252 \/ b = 253) as [-> | ->] by lia; reflexivity.
Qed.

Lemma same_masked_zero (nn ip : list Z) (n : nat) :
  same_masked nn (replicate n 0) ip = true.
Proof.
  revert nn ip. induction n as [|n IH]; intros nn ip.
  - destruct nn; reflexivity.
  - destruct nn as [|n0 nn]; [reflexivity|].
    destruct ip as [|i0 ip]; [reflexivity|].
    cbn [replicate same_masked].
    rewrite !Z.land_0_r, IH. reflexivity.
Qed.

Lemma privateRanges_parse :
  map ParseCIDR privateRanges =
  [Some (mkIPNet [10; 0; 0; 0] [255; 0; 0; 0]);
   Some (mkIPNet [172; 16; 0; 0] [255; 240; 0; 0]);
   Some (mkIPNet [192; 168; 0; 0] [255; 255; 0; 0]);
   Some (mkIPNet [127; 0; 0; 0] [255; 0; 0; 0]);
   Some (mkIPNet [169; 254; 0; 0] [255; 255; 0; 0]);
   Some (mkIPNet [0; 0; 0; 0; 0; 0; 0; 0; 0; 0; 0; 0; 0; 0; 0; 1]
                 (replicate 16 255));
   Some (mkIPNet (254 :: 128 :: replicate 14 0) (255 :: 192 :: replicate 14 0));
   Some (mkIPNet (252 :: replicate 15 0) (254 :: replicate 15 0))].
Proof. vm_compute. reflexivity. Qed.

Lemma contains_any_hit (parsed : IP) (cidrs : list string) (i : nat)
  (network : IPNet) :
  Forall (fun o => o <> None) (map ParseCIDR cidrs) ->
  map ParseCIDR cidrs !! i = Some (Some network) ->
  IPNet_Contains network parsed = true ->
  contains_any parsed cidrs = Some true.
Proof.
  revert i. induction cidrs as [|cidr rest IH]; intros i Hall Hi Hc.
  - destruct i; discriminate.
  - simpl in *. inversion Hall as [|? ? Hne Hrest]; subst.
    destruct (ParseCIDR cidr) as [net0|] eqn:E0; [|congruence].
    destruct i as [|i].
    + simpl in Hi. injection Hi as ->. rewrite Hc. reflexivity.
    + destruct (IPNet_Contains net0 parsed); [reflexivity|].
      apply (IH i); assumption.
Qed.

Lemma privateRanges_all_parse :
  Forall (fun o : option IPNet => o <> None) (map ParseCIDR privateRanges).
Proof. rewrite privateRanges_parse. repeat constructor; discriminate. Qed.

Lemma To4_v4 (a b c d : Z) : To4 (v4 a b c d) = Some [a; b; c; d].
Proof. reflexivity. Qed.

Lemma Contains_v4 (n0 n1 n2 n3 m0 m1 m2 m3 a b c d : Z) :
  IPNet_Contains (mkIPNet [n0; n1; n2; n3] [m0; m1; m2; m3]) (v4 a b c d) =
  (Z.land n0 m0 =? Z.land a m0) && ((Z.land n1 m1 =? Z.land b m1)
  && ((Z.land n2 m2 =? Z.land c m2) && ((Z.land n3 m3 =? Z.land d m3) && true))).
Proof. unfold IPNet_Contains. rewrite To4_v4. reflexivity. Qed.

(** An address whose first byte is not zero is not an IPv4-mapped one. *)
Lemma Contains_v6 (nn m : list Z) (b0 : Z) (rest : list Z) :
  length nn = 16%nat -> length m = 16%nat -> length rest = 15%nat ->
  b0 <> 0 -> nth 0 nn 0 <> 0 ->
  IPNet_Contains (mkIPNet nn m) (b0 :: rest) = same_masked nn m (b0 :: rest).
Proof.
  intros Hnn Hm Hrest Hb Hn.
  assert (HT : forall x l, length l = 15%nat -> x <> 0 -> To4 (x :: l) = None).
  { intros x l Hl Hx. unfold To4. cbn [length]. rewrite Hl.
    change (Z.of_nat 16 =? IPv4len) with false.
    change (Z.of_nat 16 =? IPv6len) with true.
    cbn [take forallb andb].
    destruct x; [congruence|reflexivity|reflexivity]. }
  destruct nn as [|n0 nn]; [discriminate|].
  simpl in Hn. injection Hnn as Hnn.
  unfold IPNet_Contains, networkNumberAndMask. cbn [net_IP net_Mask].
  rewrite !HT by assumption.
  cbn [length]. rewrite Hnn, Hm, Hrest.
  change (Z.of_nat 16 =? IPv4len) with false.
  change (Z.of_nat 16 =? IPv6len) with true.
  cbn [length]. rewrite Hnn.
  change (Z.of_nat 16 =? IPv4len) with false.
  cbn [length]. rewrite Hnn. reflexivity.
Qed.

Lemma private_range_contained (parsed : IP) :
  private_range parsed -> contains_any parsed privateRanges = Some true.
Proof.
  intros H.
  assert (Hhit : forall i network,
             map ParseCIDR privateRanges !! i = Some (Some network) ->
             IPNet_Contains network parsed = true ->
             contains_any parsed privateRanges = Some true).
  { intros i network. apply contains_any_hit, privateRanges_all_parse. }
  rewrite privateRanges_parse in Hhit.
  destruct H as [b c d Hb Hc Hd|b c d Hb Hc Hd|c d Hc Hd|b c d Hb Hc Hd|c d Hc Hd
                | |b1 rest Hb Hlen Hrest|b0 rest Hb Hlen Hrest].
  - apply (Hhit 0%nat _ eq_refl).
    rewrite Contains_v4, !Z.land_0_r. reflexivity.
  - apply (Hhit 1%nat _ eq_refl).
    rewrite Contains_v4, !Z.land_0_r, (land_240 b) by exact Hb. reflexivity.
  - apply (Hhit 2%nat _ eq_refl).
    rewrite Contains_v4, !Z.land_0_r. reflexivity.
  - apply (Hhit 3%nat _ eq_refl).
    rewrite Contains_v4, !Z.land_0_r. reflexivity.
  - apply (Hhit 4%nat _ eq_refl).
    rewrite Contains_v4, !Z.land_0_r. reflexivity.
  - apply (Hhit 5%nat _ eq_refl). reflexivity.
  - apply (Hhit 6%nat _ eq_refl).
    rewrite Contains_v6; try reflexivity; try discriminate;
      [|cbn [length]; rewrite Hlen; reflexivity].
    cbn [same_masked]. rewrite (land_192 b1) by exact Hb.
    rewrite same_masked_zero. reflexivity.
  - apply (Hhit 7%nat _ eq_refl).
    rewrite Contains_v6; try reflexivity; try discriminate;
      [|exact Hlen|lia].
    cbn [same_masked]. rewrite (land_254 b0) by exact Hb.
    rewrite same_masked_zero. reflexivity.
Qed.

(** C8. Resolver privacy: for an IP text that [net.ParseIP] reads as an
    address of 10.0.0.0/8, 172.16.0.0/12, 192.168.0.0/16, 127.0.0.0/8,
    169.254.0.0/16, ::1/128, fe80::/10 or fc00::/7, [isPrivateIP] answers
    true and [ResolveHostname] returns the empty string, leaves the resolver
    (cache, pending set, queue) as it was and makes no access to the cache,
    to the snooper or to the queue. *)
Theorem resolver_privacy (r : Resolver) (ip : string) (parsed : IP) :
  ParseIP ip = Some parsed -> private_range parsed ->
  isPrivateIP ip = Some true /\ ResolveHostname r ip = Some ("", r, []).
Proof.
  intros Hparse Hrange.
  assert (Hp : isPrivateIP ip = Some true).
  { unfold isPrivateIP. rewrite Hparse. apply private_range_contained, Hrange. }
  split; [exact Hp|].
  unfold ResolveHostname. rewrite Hp.
  destruct (_ || _); reflexivity.
Qed.

Lemma resolver_privacy_witness :
  ParseIP "10.1.2.3" = Some (v4 10 1 2 3) /\
  private_range (v4 10 1 2 3) /\
  ResolveHostname busy_resolver "10.1.2.3" = Some ("", busy_resolver, []).
Proof.
  assert (H1 : ParseIP "10.1.2.3" = Some (v4 10 1 2 3)) by reflexivity.
  assert (H2 : private_range (v4 10 1 2 3))
    by (constructor; unfold is_byte; lia).
  split; [exact H1|]. split; [exact H2|].
  apply (resolver_privacy busy_resolver "10.1.2.3" (v4 10 1 2 3) H1 H2).
Defined.

End CaptureFacts.

(** ** The tracker *)

Module TrackerFacts.
Import GoLib GoLibFacts Tracker.

Lemma backoff_bounds (i : nat) : 0 < backoff i <= 30 * Second.
Proof.
  unfold backoff, Second.
  assert (0 < 2 ^ Z.of_nat i) by (apply Z.pow_pos_nonneg; lia).
  lia.
Qed.

Lemma backoff_next (i : nat) :
  Z.min (wrap_i64 (backoff i * 2)) reconnectMaxDelay = backoff (S i).
Proof.
  pose proof (backoff_bounds i) as Hb.
  rewrite wrap_i64_small.
  - unfold backoff, reconnectMaxDelay in *.
    rewrite Nat2Z.inj_succ, Z.pow_succ_r by lia.
    unfold Second in *. lia.
  - unfold Second in Hb. change (2 ^ 63) with 9223372036854775808. lia.
Qed.

Lemma Run_loop_failures (n : nat) : forall (i : nat) (rest : list round),
  Run_loop (replicate n failure ++ rest)%list (backoff i) =
  let '(events, out) := Run_loop rest (backoff (i + n)) in
  (concat (map (fun j => [OpenStream; Wait (backoff j)]) (seq i n)) ++ events,
   out)%list.
Proof.
  induction n as [|n IH]; intros i rest.
  - cbn [replicate seq map concat app]. rewrite Nat.add_0_r.
    destruct (Run_loop rest (backoff i)). reflexivity.
  - cbn [replicate app Run_loop failure done_at_start done_after_stream done_in_wait].
    cbn [failure]. cbn.
    rewrite backoff_next, IH.
    replace (S i + n)%nat with (i + S n)%nat by lia.
    destruct (Run_loop rest (backoff (i + S n))). reflexivity.
Qed.

Lemma waits_failures (i n : nat) (events : list event) :
  waits (concat (map (fun j => [OpenStream; Wait (backoff j)]) (seq i n))
         ++ events)%list
  = (map backoff (seq i n) ++ waits events)%list.
Proof.
  revert i. induction n as [|n IH]; intros i; [reflexivity|].
  cbn [seq map concat app waits]. rewrite IH. reflexivity.
Qed.

Lemma backoff_capped (i : nat) : backoff (5 + i) = 30 * Second.
Proof.
  unfold backoff. apply Z.min_r.
  rewrite Nat2Z.inj_add, Z.pow_add_r by lia.
  assert (0 < 2 ^ Z.of_nat i) by (apply Z.pow_pos_nonneg; lia).
  change (2 ^ Z.of_nat 5) with 32. unfold Second. nia.
Qed.

(** C9. Backoff: as long as [stream] fails and the context is not
    cancelled, [Run] opens a stream and then waits, round after round, and
    the delay of round [i] is [min(2^i, 30)] seconds: 1, 2, 4, 8, 16, 30, 30
    and 30 from then on.  A cancellation seen at any of the three points of
    a round makes [Run] return [ctx.Err()] with no further wait. *)
Theorem reconnect_backoff (n : nat) (b1 b2 : bool) (rest : list round) :
  Run (replicate n failure)
    = (concat (map (fun j => [OpenStream; Wait (backoff j)]) (seq 0 n)),
       Running (backoff n)) /\
  waits (fst (Run (replicate n failure))) = map backoff (seq 0 n) /\
  map backoff (seq 0 7)
    = [1 * Second; 2 * Second; 4 * Second; 8 * Second; 16 * Second;
       30 * Second; 30 * Second] /\
  (forall i, backoff (5 + i) = 30 * Second) /\
  Forall (fun r =>
            let run := Run (replicate n failure ++ r :: rest)%list in
            waits (fst run) = map backoff (seq 0 n) /\
            attempts (fst run) <= S n /\
            snd run = Returned_ctx_Err)%nat
         [mkRound true b1 b2; mkRound false true b2; mkRound false false true].
Proof.
  assert (Hrun : forall rest',
             Run (replicate n failure ++ rest')%list =
             let '(events, out) := Run_loop rest' (backoff n) in
             (concat (map (fun j => [OpenStream; Wait (backoff j)]) (seq 0 n))
              ++ events, out)%list).
  { intros rest'. unfold Run.
    change reconnectBaseDelay with (backoff 0).
    rewrite Run_loop_failures. reflexivity. }
  assert (Hatt : forall i m,
             attempts (concat (map (fun j => [OpenStream; Wait (backoff j)])
                                   (seq i m))) = m).
  { intros i m. revert i. induction m as [|m IH]; intros i; [reflexivity|].
    cbn [seq map concat app attempts]. rewrite IH. reflexivity. }
  assert (Hatt' : forall l1 l2,
             attempts (l1 ++ l2)%list = (attempts l1 + attempts l2)%nat).
  { intros l1 l2. induction l1 as [|[|d] l1 IH]; cbn [app attempts]; lia. }
  split.
  { specialize (Hrun []). rewrite app_nil_r in Hrun. rewrite Hrun.
    cbn [Run_loop]. rewrite app_nil_r. reflexivity. }
  split.
  { specialize (Hrun []). rewrite app_nil_r in Hrun. rewrite Hrun.
    cbn [Run_loop fst]. rewrite waits_failures. cbn [waits]. apply app_nil_r. }
  split; [reflexivity|].
  split; [apply backoff_capped|].
  assert (Hcancel : forall r,
             done_at_start r || done_after_stream r || done_in_wait r = true ->
             let run := Run (replicate n failure ++ r :: rest)%list in
             waits (fst run) = map backoff (seq 0 n) /\
             (attempts (fst run) <= S n)%nat /\
             snd run = Returned_ctx_Err).
  { intros [[|] [|] [|]] Hr; try discriminate Hr; cbv zeta; rewrite Hrun;
      cbn [Run_loop done_at_start done_after_stream done_in_wait fst snd];
      rewrite waits_failures, Hatt', Hatt; cbn [waits attempts];
      rewrite ?app_nil_r; repeat split; lia. }
  constructor; [apply Hcancel; reflexivity|].
  constructor; [apply Hcancel; reflexivity|].
  constructor; [apply Hcancel; reflexivity|].
  constructor.
Qed.

End TrackerFacts.

(** ** Package adb, continued *)

Module AdbReplyFacts.
Import GoLib Adb AdbReply AdbFacts.

Lemma ascii_cases (P : ascii -> bool) :
  forallb P all_ascii = true -> forall b, P b = true.
Proof.
  intros H b. rewrite forallb_forall in H. apply H.
  unfold all_ascii. apply in_map_iff. exists (nat_of_ascii b).
  split; [apply ascii_nat_embedding|].
  apply in_seq. pose proof (nat_ascii_bounded b). lia.
Qed.

Lemma str_app_cons (x : ascii) (a b : string) :
  String x a ++ b = String x (a ++ b).
Proof. reflexivity. Qed.

Lemma str_app_assoc (a b c : string) : (a ++ b) ++ c = a ++ (b ++ c).
Proof.
  induction a as [|x a IH]; [reflexivity|].
  rewrite !str_app_cons, IH. reflexivity.
Qed.

Lemma str_app_length (a b : string) :
  String.length (a ++ b) = (String.length a + String.length b)%nat.
Proof.
  induction a as [|x a IH]; [reflexivity|].
  rewrite str_app_cons. cbn [String.length]. rewrite IH. reflexivity.
Qed.

Lemma str_app_nil_r (a : string) : a ++ "" = a.
Proof.
  induction a as [|x a IH]; [reflexivity|].
  rewrite str_app_cons, IH. reflexivity.
Qed.

Lemma take_bytes_Some (n : nat) (r b rest : string) :
  take_bytes n r = Some (b, rest) -> r = b ++ rest /\ String.length b = n.
Proof.
  revert r b rest. induction n as [|n IH]; intros r b rest H; simpl in H.
  - injection H as <- <-. split; reflexivity.
  - destruct r as [|c r]; [discriminate|].
    destruct (take_bytes n r) as [[b' rest']|] eqn:E; [|discriminate].
    injection H as <- <-. destruct (IH _ _ _ E) as [-> <-].
    split; reflexivity.
Qed.

Lemma take_bytes_short (n : nat) (r : string) :
  (String.length r < n)%nat -> take_bytes n r = None.
Proof.
  revert r. induction n as [|n IH]; intros r H; [lia|].
  destruct r as [|c r]; [reflexivity|].
  simpl in *. rewrite IH by lia. reflexivity.
Qed.

Lemma take_bytes_prefix (p s : string) :
  take_bytes (String.length p) (p ++ s) = Some (p, s).
Proof.
  induction p as [|c p IH]; simpl; [reflexivity|].
  rewrite IH. reflexivity.
Qed.

Lemma loop_digit_hex (b : ascii) : loop_digit b = digit_val 16 b.
Proof.
  pose proof (ascii_cases (fun b => option_Z_eqb (loop_digit b) (digit_val 16 b))
                eq_refl b) as H.
  cbv beta in H.
  destruct (loop_digit b), (digit_val 16 b); simpl in H; try discriminate;
    [apply Z.eqb_eq in H; congruence|reflexivity].
Qed.

Lemma digit_val_bound (base : Z) (b : ascii) (d : Z) :
  digit_val base b = Some d -> 0 <= d < base.
Proof.
  unfold digit_val.
  set (v := byte_val b).
  assert (Hv : 0 <= v) by (unfold v, byte_val; lia).
  destruct ((48 <=? v) && (v <=? 57)) eqn:E1.
  { apply andb_true_iff in E1 as [E1 _]. apply Z.leb_le in E1.
    destruct (v - 48 <? base) eqn:E; [|discriminate].
    intros H. injection H as <-. apply Z.ltb_lt in E. lia. }
  destruct ((97 <=? v) && (v <=? 122)) eqn:E2.
  { apply andb_true_iff in E2 as [E2 _]. apply Z.leb_le in E2.
    destruct (v - 97 + 10 <? base) eqn:E; [|discriminate].
    intros H. injection H as <-. apply Z.ltb_lt in E. lia. }
  destruct ((65 <=? v) && (v <=? 90)) eqn:E3.
  { apply andb_true_iff in E3 as [E3 _]. apply Z.leb_le in E3.
    destruct (v - 65 + 10 <? base) eqn:E; [|discriminate].
    intros H. injection H as <-. apply Z.ltb_lt in E. lia. }
  destruct (36 <? base) eqn:E; [|discriminate].
  intros H. injection H as <-. apply Z.ltb_lt in E. lia.
Qed.

Lemma lor_shift4 (a d : Z) :
  0 <= a -> 0 <= d < 16 -> Z.lor (Z.shiftl a 4) d = a * 16 + d.
Proof.
  intros Ha Hd. rewrite <- Z.add_nocarry_lor.
  - rewrite Z.shiftl_mul_pow2 by lia. reflexivity.
  - apply Z.bits_inj'. intros n Hn. rewrite Z.land_spec, Z.bits_0.
    destruct (Z.lt_ge_cases n 4) as [Hlt|Hge].
    + rewrite Z.shiftl_spec_low by lia. reflexivity.
    + replace (Z.testbit d n) with false; [apply andb_false_r|].
      symmetry. destruct (Z.eq_dec d 0) as [->|Hne]; [apply Z.bits_0|].
      apply Z.bits_above_log2; [lia|].
      assert (Z.log2 d < 4) by (apply Z.log2_lt_pow2; lia). lia.
Qed.

Lemma parse_length_prefix_step (b : ascii) (rest : string) (acc : Z) :
  parse_length_prefix (String b rest) acc =
  match loop_digit b with
  | Some d => parse_length_prefix rest (Z.lor (wrap_u32 (Z.shiftl acc 4)) d)
  | None => inr b
  end.
Proof.
  unfold loop_digit. cbn [parse_length_prefix].
  destruct (between "0" "9" b); [reflexivity|].
  destruct (between "a" "f" b); [reflexivity|].
  destruct (between "A" "F" b); reflexivity.
Qed.

(** The loop reads a hex number; with at most seven digits nothing wraps. *)
Lemma parse_length_prefix_value (p : string) : forall (acc n : Z) (k : nat),
  0 <= acc < 16 ^ Z.of_nat k -> (k + String.length p <= 7)%nat ->
  parse_length_prefix p acc = inl n ->
  digits_value 16 p acc = Some n /\ 0 <= n < 16 ^ Z.of_nat (k + String.length p).
Proof.
  induction p as [|b p IH]; intros acc n k Hacc Hk H.
  - simpl in *. injection H as <-. rewrite Nat.add_0_r. split; [reflexivity|lia].
  - rewrite parse_length_prefix_step in H.
    rewrite loop_digit_hex in H. cbn [digits_value].
    destruct (digit_val 16 b) as [d|] eqn:Ed; [|discriminate].
    pose proof (digit_val_bound _ _ _ Ed) as Hd.
    simpl in Hk.
    assert (Hpow : 16 ^ Z.of_nat (S k) = 16 * 16 ^ Z.of_nat k).
    { rewrite Nat2Z.inj_succ, Z.pow_succ_r by lia. reflexivity. }
    assert (H7 : 16 ^ Z.of_nat (S k) <= 16 ^ 7).
    { apply Z.pow_le_mono_r; lia. }
    assert (Hsh : wrap_u32 (Z.shiftl acc 4) = acc * 16).
    { unfold wrap_u32. rewrite Z.shiftl_mul_pow2 by lia.
      change (2 ^ 4) with 16. apply Z.mod_small.
      change (16 ^ 7) with 268435456 in H7. change (2 ^ 32) with 4294967296.
      lia. }
    rewrite Hsh in H.
    replace (Z.lor (acc * 16) d) with (acc * 16 + d) in H.
    2:{ rewrite <- (lor_shift4 acc d) by lia.
        rewrite Z.shiftl_mul_pow2 by lia. reflexivity. }
    destruct (IH (acc * 16 + d) n (S k)) as [Hv Hb]; [lia|simpl; lia|exact H|].
    split; [exact Hv|].
    cbn [String.length].
    replace (k + S (String.length p))%nat with (S k + String.length p)%nat by lia.
    exact Hb.
Qed.

Lemma writeCommand_prefix (s : string) :
  len s < 2 ^ 16 ->
  exists p, writeCommand s = p ++ s /\ String.length p = 4%nat
            /\ parse_length_prefix p 0 = inl (len s).
Proof.
  intros Hlen.
  assert (Hok : prefix_ok (len s) = true).
  { apply prefix_ok_range. unfold len in *. lia. }
  unfold prefix_ok in Hok. unfold writeCommand.
  destruct (fmt_04x (len s)) as [|a [|b [|c [|d [|x p]]]]]; try discriminate.
  apply andb_true_iff in Hok as [_ Hparse].
  eexists. split; [reflexivity|]. split; [reflexivity|].
  destruct (parse_length_prefix _ 0) as [m|]; [|discriminate].
  apply Z.eqb_eq in Hparse. congruence.
Qed.

Lemma ReadLengthPrefixed_frame_rest (s rest : string) :
  len s < 2 ^ 16 ->
  ReadLengthPrefixed (writeCommand s ++ rest) = (inl s, rest).
Proof.
  intros Hlen.
  destruct (writeCommand_prefix s Hlen) as (p & -> & Hp & Hparse).
  rewrite str_app_assoc.
  unfold ReadLengthPrefixed, ReadFull.
  rewrite <- Hp, take_bytes_prefix, Hparse.
  destruct (len s =? 0) eqn:E0.
  - apply Z.eqb_eq in E0. unfold len in E0.
    destruct s; [reflexivity|simpl in E0; lia].
  - unfold len. rewrite Nat2Z.id, take_bytes_prefix. reflexivity.
Qed.

Lemma frames_length (payloads : list string) :
  Forall short payloads ->
  (length payloads <= String.length (frames payloads))%nat.
Proof.
  induction 1 as [|s rest Hs _ IH]; [reflexivity|].
  cbn [frames length].
  destruct (writeCommand_prefix s Hs) as (p & -> & Hp & _).
  rewrite !str_app_length, Hp. lia.
Qed.

Lemma read_frames_frames (payloads : list string) : forall fuel,
  Forall short payloads -> (length payloads < fuel)%nat ->
  read_frames fuel (frames payloads)
  = (payloads, Some (ErrReadingLengthPrefix EOF)).
Proof.
  induction payloads as [|s rest IH]; intros fuel Hall Hfuel.
  - destruct fuel; [simpl in Hfuel; lia|]. reflexivity.
  - destruct fuel as [|fuel]; [simpl in Hfuel; lia|].
    inversion Hall as [|? ? Hs Hrest]; subst.
    cbn [read_frames frames].
    rewrite ReadLengthPrefixed_frame_rest by exact Hs.
    rewrite IH; [reflexivity|exact Hrest|simpl in Hfuel; lia].
Qed.

(** X1. Framing composes: the loop of [Tracker.stream], reading the frames
    that [writeCommand] builds for a list of payloads shorter than 65536
    bytes one after the other, returns exactly these payloads in order and
    then stops with the error of a prefix cut short by the end of the
    input. *)
Theorem stream_of_frames (payloads : list string) :
  Forall short payloads ->
  stream_frames (frames payloads)
  = (payloads, Some (ErrReadingLengthPrefix EOF)).
Proof.
  intros Hall. unfold stream_frames. apply read_frames_frames; [exact Hall|].
  pose proof (frames_length payloads Hall). lia.
Qed.

Lemma stream_of_frames_witness :
  Forall short ["host:version"; ""; "emulator-5554 device"] /\
  stream_frames (frames ["host:version"; ""; "emulator-5554 device"])
  = (["host:version"; ""; "emulator-5554 device"],
     Some (ErrReadingLengthPrefix EOF)).
Proof.
  assert (H : Forall short ["host:version"; ""; "emulator-5554 device"])
    by (repeat constructor).
  split; [exact H|]. apply (stream_of_frames _ H).
Defined.

(** X2. When [ReadLengthPrefixed] succeeds it has consumed exactly one frame:
    the input is a four-byte prefix, the payload returned and the rest left
    in the reader; the prefix is a hexadecimal numeral of the payload length,
    which is below 65536. *)
Theorem ReadLengthPrefixed_consumes_frame (r s rest : string) :
  ReadLengthPrefixed r = (inl s, rest) ->
  exists p, String.length p = 4%nat /\ r = p ++ s ++ rest /\
            digits_value 16 p 0 = Some (len s) /\ len s < 2 ^ 16.
Proof.
  unfold ReadLengthPrefixed, ReadFull.
  destruct (take_bytes 4 r) as [[p r1]|] eqn:E4; [|discriminate].
  destruct (take_bytes_Some _ _ _ _ E4) as [-> Hp].
  destruct (parse_length_prefix p 0) as [n|] eqn:En; [|discriminate].
  destruct (parse_length_prefix_value p 0 n 0 ltac:(simpl; lia) ltac:(lia) En)
    as [Hv Hn].
  rewrite Hp in Hn. change (16 ^ Z.of_nat (0 + 4)) with (2 ^ 16) in Hn.
  destruct (n =? 0) eqn:E0.
  - apply Z.eqb_eq in E0. subst n. intros H. injection H as <- <-.
    exists p. repeat split; try assumption; reflexivity.
  - destruct (take_bytes (Z.to_nat n) r1) as [[payload r2]|] eqn:Ep; [|discriminate].
    intros H. injection H as <- <-.
    destruct (take_bytes_Some _ _ _ _ Ep) as [-> Hlen].
    exists p. unfold len. rewrite Hlen, Z2Nat.id by lia.
    repeat split; try assumption. lia.
Qed.

Lemma ReadLengthPrefixed_consumes_frame_witness :
  ReadLengthPrefixed "000Chello, worldOKAY" = (inl "hello, world", "OKAY") /\
  exists p, String.length p = 4%nat /\
            "000Chello, worldOKAY" = p ++ "hello, world" ++ "OKAY" /\
            digits_value 16 p 0 = Some (len "hello, world").
Proof.
  assert (H : ReadLengthPrefixed "000Chello, worldOKAY"
              = (inl "hello, world", "OKAY")) by reflexivity.
  split; [exact H|].
  destruct (ReadLengthPrefixed_consumes_frame _ _ _ H) as (p & H1 & H2 & H3 & _).
  exists p. auto.
Defined.

Lemma substring_app_short (k : nat) (p s : string) :
  (k <= String.length p)%nat ->
  String.substring 0 k (p ++ s) = String.substring 0 k p.
Proof.
  revert p. induction k as [|k IH]; intros p Hk.
  - destruct p; destruct s; reflexivity.
  - destruct p as [|c p]; [simpl in Hk; lia|].
    rewrite str_app_cons. cbn [String.substring]. rewrite IH by (simpl in Hk; lia).
    reflexivity.
Qed.

Lemma substring_app_long (k : nat) (p s : string) :
  String.substring 0 (String.length p + k) (p ++ s)
  = p ++ String.substring 0 k s.
Proof.
  induction p as [|c p IH]; [reflexivity|].
  rewrite !str_app_cons. cbn [String.length Nat.add String.substring].
  rewrite IH. reflexivity.
Qed.

Lemma substring_length (k : nat) (s : string) :
  (String.length (String.substring 0 k s) <= k)%nat.
Proof.
  revert s. induction k as [|k IH]; intros s.
  - destruct s; simpl; lia.
  - destruct s as [|c s]; simpl; [lia|]. specialize (IH s). lia.
Qed.

(** X3. A frame cut short is never accepted: on every proper prefix of the
    frame of a payload, [ReadLengthPrefixed] fails, and with a read error
    (short prefix or short payload), not with a protocol error. *)
Theorem truncated_frame_rejected (s : string) (k : nat) :
  len s < 2 ^ 16 -> (k < String.length (writeCommand s))%nat ->
  exists e rest,
    ReadLengthPrefixed (String.substring 0 k (writeCommand s)) = (inr e, rest)
    /\ is_ErrProtocol e = false.
Proof.
  intros Hlen Hk.
  destruct (writeCommand_prefix s Hlen) as (p & Hw & Hp & Hparse).
  rewrite Hw in *. rewrite str_app_length, Hp in Hk.
  unfold ReadLengthPrefixed, ReadFull.
  destruct (Nat.lt_ge_cases k 4) as [Hk4|Hk4].
  - rewrite take_bytes_short.
    + eexists _, _. split; reflexivity.
    + pose proof (substring_length k (p ++ s)). lia.
  - replace k with (String.length p + (k - 4))%nat by lia.
    rewrite substring_app_long.
    replace (take_bytes 4) with (take_bytes (String.length p))
      by (rewrite Hp; reflexivity).
    rewrite take_bytes_prefix, Hparse.
    destruct (len s =? 0) eqn:E0.
    { apply Z.eqb_eq in E0. unfold len in E0. lia. }
    rewrite take_bytes_short.
    + eexists _, _. split; reflexivity.
    + pose proof (substring_length (k - 4) s). unfold len. lia.
Qed.

Lemma truncated_frame_rejected_witness :
  exists e rest,
    ReadLengthPrefixed (String.substring 0 9 (writeCommand "host:version"))
      = (inr e, rest) /\ is_ErrProtocol e = false.
Proof.
  apply (truncated_frame_rejected "host:version" 9); [reflexivity|].
  vm_compute. lia.
Defined.

(** X4. [readStatus] returns a nil error exactly when the reply starts with
    the four bytes [OKAY], and then it has consumed these four bytes only. *)
Theorem readStatus_nil_iff_OKAY (r cmd rest : string) :
  readStatus r cmd = (None, rest) <-> r = wireOkay ++ rest.
Proof.
  unfold readStatus, ReadFull. split.
  - destruct (take_bytes 4 r) as [[status r1]|] eqn:E4; [|discriminate].
    destruct (take_bytes_Some _ _ _ _ E4) as [-> _].
    destruct (String.eqb status wireOkay) eqn:Eo.
    + apply String.eqb_eq in Eo. subst status. intros H.
      injection H as <-. reflexivity.
    + destruct (String.eqb status wireFail); [|discriminate].
      destruct (ReadLengthPrefixed r1) as [[msg|e] r2]; discriminate.
  - intros ->. reflexivity.
Qed.

(** X5. The reply of the server read back by [Client.Command]: after [OKAY]
    and the frame of a payload the payload is returned, after [FAIL] and the
    frame of a message the error is the [ServerError] of the command with
    this message; in both cases the bytes behind the frame stay unread. *)
Theorem Command_reply_round_trip (payload msg cmd rest : string) :
  len payload < 2 ^ 16 -> len msg < 2 ^ 16 ->
  Command_reply (okay_reply payload ++ rest) cmd = (inl payload, rest) /\
  Command_reply (fail_reply msg ++ rest) cmd
    = (inr (inl (ErrServer cmd msg)), rest).
Proof.
  intros Hp Hm. unfold Command_reply, okay_reply, fail_reply, readStatus, ReadFull.
  rewrite !str_app_assoc.
  change 4%nat with (String.length wireOkay) at 1.
  rewrite take_bytes_prefix.
  change 4%nat with (String.length wireFail).
  rewrite take_bytes_prefix.
  cbn [String.eqb wireOkay wireFail Ascii.eqb Bool.eqb].
  rewrite !ReadLengthPrefixed_frame_rest by assumption.
  split; reflexivity.
Qed.

Lemma Command_reply_round_trip_witness :
  Command_reply (okay_reply "0029" ++ "") "host:version" = (inl "0029", "") /\
  Command_reply (fail_reply "device not found" ++ "") "host:version"
    = (inr (inl (ErrServer "host:version" "device not found")), "").
Proof.
  apply (Command_reply_round_trip "0029" "device not found"); reflexivity.
Defined.

(** X6. [Tracker.stream] never reports a closed connection for a failed
    read: [ReadLengthPrefixed] wraps every error into a text of its own, so
    the error is neither [io.EOF] itself nor has one of the two texts that
    [isClosedErr] looks for, whatever the cause; the error returned is
    [reading device update: ...], which does not unwrap to
    [ErrConnectionClosed]. *)
Theorem stream_never_reports_closed
  (fmt_q_byte : ascii -> string) (fmt_q : string -> string) (e : error)
  (cause : go_error) (n : Z) (digit : ascii) :
  let err := of_read_error fmt_q_byte e in
  isClosedErr fmt_q err = false /\
  stream_error fmt_q false err = Errorf_prefix "reading device update" err /\
  unwraps_to is_ErrConnectionClosed (stream_error fmt_q false err) = false /\
  isClosedErr fmt_q (Errorf_prefix "reading length prefix" cause) = false /\
  isClosedErr fmt_q
    (Errorf_prefix ("reading payload (" ++ fmt_d n ++ " bytes)") cause) = false /\
  isClosedErr fmt_q
    (Errorf_suffix ErrProtocol
       ("invalid hex digit " ++ fmt_q_byte digit ++ " in length")) = false.
Proof.
  split; [|split; [|split; [|split; [|split]]]].
  - destruct e as [[|]|b|m [|]]; reflexivity.
  - destruct e as [[|]|b|m [|]]; reflexivity.
  - destruct e as [[|]|b|m [|]]; reflexivity.
  - reflexivity.
  - reflexivity.
  - reflexivity.
Qed.

Lemma parseState_cases (s : string) :
  (parseState s = s /\ In s [StateDevice; StateOffline; StateUnauthorized;
                            StateBootloader; StateRecovery; StateSideload])
  \/ (parseState s = StateNoPermission /\ s <> StateDevice)
  \/ (parseState s = StateUnknown /\ s <> StateDevice).
Proof.
  unfold parseState.
  destruct (String.eqb_spec s StateDevice) as [->|H1]; [left; split; [reflexivity|cbn; auto 10]|].
  destruct (String.eqb_spec s StateOffline) as [->|H2]; [left; split; [reflexivity|cbn; auto 10]|].
  destruct (String.eqb_spec s StateUnauthorized) as [->|H3]; [left; split; [reflexivity|cbn; auto 10]|].
  destruct (String.eqb_spec s StateBootloader) as [->|H4]; [left; split; [reflexivity|cbn; auto 10]|].
  destruct (String.eqb_spec s StateRecovery) as [->|H5]; [left; split; [reflexivity|cbn; auto 10]|].
  destruct (String.eqb_spec s StateSideload) as [->|H6]; [left; split; [reflexivity|cbn; auto 10]|].
  cbn [orb]. destruct (Contains s "no permissions"); auto.
Qed.

Lemma parseState_in_states (s : string) : In (parseState s) device_states.
Proof.
  destruct (parseState_cases s) as [[E Hin]|[[E _]|[E _]]]; rewrite E.
  - unfold device_states. cbn in Hin |- *. intuition.
  - cbn; auto 10.
  - cbn; auto 10.
Qed.

(** X7. [parseState] returns one of the eight device states, and the state
    it returns is online exactly for the text [device]. *)
Theorem parseState_online_iff (s : string) :
  In (parseState s) device_states
  /\ (IsOnline (parseState s) = true <-> s = "device").
Proof.
  destruct (parseState_cases s) as [[E Hin]|[[E Hne]|[E Hne]]]; rewrite E.
  - split.
    + unfold device_states. cbn in Hin |- *. intuition.
    + unfold IsOnline. rewrite String.eqb_eq. reflexivity.
  - split; [cbn; auto 10|]. split; [discriminate|intros ->; contradiction].
  - split; [cbn; auto 10|]. split; [discriminate|intros ->; contradiction].
Qed.

Lemma parse_properties_keeps (kvs : list string) :
  forall dev,
    dev_Serial (parse_properties kvs dev) = dev_Serial dev
    /\ dev_State (parse_properties kvs dev) = dev_State dev
    /\ dev_FirstSeen (parse_properties kvs dev) = dev_FirstSeen dev
    /\ dev_LastSeen (parse_properties kvs dev) = dev_LastSeen dev.
Proof.
  induction kvs as [|kv rest IH]; intros dev; [cbn; auto|].
  cbn [parse_properties].
  destruct (SplitN2 kv ":") as [|key [|value [|x l]]]; try apply IH.
  destruct (String.eqb key "product"); [|destruct (String.eqb key "model");
    [|destruct (String.eqb key "device");
      [|destruct (String.eqb key "transport_id")]]];
    match goal with
    | |- context [parse_properties rest ?d] =>
        destruct (IH d) as [-> [-> [-> ->]]]
    end; cbn; auto.
Qed.

Lemma parseDeviceLine_well_formed (line : string) (now : Z) :
  dev_Serial (parseDeviceLine line now) <> "" ->
  well_formed_device now (parseDeviceLine line now).
Proof.
  unfold parseDeviceLine, well_formed_device.
  destruct (Fields line) as [|serial [|state kvs]]; cbn [zeroDevice dev_Serial];
    try congruence.
  destruct (parse_properties_keeps kvs
              (mkDevice serial (parseState state) "" "" "" "" now now))
    as [-> [-> [-> ->]]].
  cbn [dev_Serial dev_State dev_FirstSeen dev_LastSeen].
  intros Hs. repeat split; auto. apply parseState_in_states.
Qed.

(** X8. Every device that [ParseDeviceList] returns has a serial that is not
    empty, one of the eight states, and both time stamps equal to the time of
    the call, whatever the input is. *)
Theorem ParseDeviceList_well_formed (data : string) (now : Z) :
  Forall (well_formed_device now) (ParseDeviceList data now).
Proof.
  unfold ParseDeviceList.
  induction (Split (TrimSpace data) "010") as [|line rest IH]; cbn [parse_device_lines].
  - constructor.
  - destruct (String.eqb (TrimSpace line) ""); [exact IH|].
    destruct (String.eqb_spec (dev_Serial (parseDeviceLine (TrimSpace line) now)) "")
      as [E|E]; cbn [negb]; [exact IH|].
    constructor; [|exact IH]. apply parseDeviceLine_well_formed, E.
Qed.

End AdbReplyFacts.

(** ** Package tracker, continued: the roster *)

Module RosterFacts.
Import GoLib AdbReply Roster.

Lemma seen_serials_In (current : list Device) (serial : string) :
  serial ∈ seen_serials current <-> In serial (map dev_Serial current).
Proof.
  unfold seen_serials. rewrite elem_of_list_to_set. apply list_elem_of_In.
Qed.

Lemma diff_current_dom (current : list Device) (now : Z) :
  forall known events serial,
    is_Some ((diff_current current now known events).1 !! serial)
    <-> is_Some (known !! serial) \/ In serial (map dev_Serial current).
Proof.
  induction current as [|dev rest IH]; intros known events serial.
  - cbn. tauto.
  - cbn [diff_current map In].
    destruct (known !! dev_Serial dev) as [prev|] eqn:E;
      rewrite IH; cbn [set_seen dev_Serial];
      rewrite lookup_insert_is_Some; 
      destruct (decide (dev_Serial dev = serial)) as [->|Hne]; 
      rewrite ?E; intuition eauto.
Qed.

(** X9. After [diffAndEmit] the roster holds exactly the serials of the list
    it was given, whatever it held before. *)
Theorem roster_matches_snapshot (known : gmap string Device)
  (current : list Device) (now : Z) (serial : string) :
  is_Some ((diffAndEmit known current now).1 !! serial)
  <-> In serial (map dev_Serial current).
Proof.
  unfold diffAndEmit.
  pose proof (diff_current_dom current now known [] serial) as Hdom.
  destruct (diff_current current now known []) as [known1 events1].
  cbn [fst] in *.
  rewrite <- seen_serials_In. split.
  - intros [d Hd]. apply map_lookup_filter_Some in Hd as [_ Hs]. exact Hs.
  - intros Hs.
    destruct (proj2 Hdom) as [d Hd].
    { right. apply seen_serials_In. exact Hs. }
    exists d. apply map_lookup_filter_Some. split; [exact Hd|exact Hs].
Qed.

Lemma first_seen_insert known now dev serial d :
  dev_Serial dev <> serial ->
  first_seen (<[serial := d]> known) now dev = first_seen known now dev.
Proof.
  intros Hne. unfold first_seen. rewrite lookup_insert_ne by congruence. reflexivity.
Qed.

Lemma events_for_insert known now dev serial d :
  dev_Serial dev <> serial ->
  events_for (<[serial := d]> known) now dev = events_for known now dev.
Proof.
  intros Hne. unfold events_for. rewrite lookup_insert_ne by congruence. reflexivity.
Qed.

Lemma diff_current_spec (now : Z) (current : list Device) :
  forall known events,
    NoDup (map dev_Serial current) ->
    diff_current current now known events
    = (list_to_map (map (roster_entry known now) current) ∪ known,
       (events ++ concat (map (events_for known now) current))%list).
Proof.
  induction current as [|dev rest IH]; intros known events Hnd.
  - cbn. rewrite (left_id_L ∅ (∪)), app_nil_r. reflexivity.
  - cbn [map] in Hnd. apply NoDup_cons in Hnd as [Hnotin Hnd].
    assert (Hrest : forall d, map (roster_entry (<[dev_Serial dev := d]> known) now) rest
                              = map (roster_entry known now) rest).
    { intros d. apply map_ext_in. intros a Ha. unfold roster_entry.
      rewrite first_seen_insert; [reflexivity|].
      intros Heq. apply Hnotin. rewrite <- Heq. apply list_elem_of_In, in_map, Ha. }
    assert (Hev : forall d, map (events_for (<[dev_Serial dev := d]> known) now) rest
                              = map (events_for known now) rest).
    { intros d. apply map_ext_in. intros a Ha.
      apply events_for_insert.
      intros Heq. apply Hnotin. rewrite <- Heq. apply list_elem_of_In, in_map, Ha. }
    assert (Hnone : forall l : list (string * Device),
               map fst l = map dev_Serial rest ->
               (list_to_map l : gmap string Device) !! dev_Serial dev = None).
    { intros l Hl. apply not_elem_of_list_to_map_1. 
      change (dev_Serial dev ∉ map fst l). rewrite Hl. exact Hnotin. }
    assert (Hfst : map fst (map (roster_entry known now) rest) = map dev_Serial rest).
    { rewrite map_map. reflexivity. }
    cbn [diff_current map concat].
    assert (Hentry : roster_entry known now dev
                     = (dev_Serial dev, set_seen (first_seen known now dev) now dev))
      by reflexivity.
    rewrite Hentry, list_to_map_cons, <- insert_union_l,
      insert_union_r by (apply Hnone, Hfst).
    unfold first_seen, events_for at 1.
    destruct (known !! dev_Serial dev) as [prev|] eqn:E.
    + cbn [set_seen dev_Serial dev_State].
      rewrite IH by exact Hnd. rewrite Hrest, Hev.
      f_equal.
      destruct (negb _); cbn [app]; rewrite <- ?app_assoc; reflexivity.
    + cbn [set_seen dev_Serial dev_State].
      rewrite IH by exact Hnd. rewrite Hrest, Hev.
      f_equal.
      rewrite <- app_assoc. reflexivity.
Qed.

Lemma roster_entries_lookup known now current serial :
  is_Some ((list_to_map (map (roster_entry known now) current) : gmap string Device) !! serial)
  <-> serial ∈ seen_serials current.
Proof.
  rewrite seen_serials_In.
  rewrite <- (not_eq_None_Some), <- list_elem_of_In.
  replace (map dev_Serial current) with (map fst (map (roster_entry known now) current))
    by (rewrite map_map; reflexivity).
  split.
  - intros H. destruct (decide (serial ∈ map fst (map (roster_entry known now) current))) as [Hin|Hn];
      [exact Hin|]. exfalso. apply H. apply not_elem_of_list_to_map_1. exact Hn.
  - intros Hin Hnone. apply not_elem_of_list_to_map_2 in Hnone. contradiction.
Qed.

Lemma diffAndEmit_closed_form (known : gmap string Device) (current : list Device)
  (now : Z) :
  NoDup (map dev_Serial current) ->
  diffAndEmit known current now
  = (list_to_map (map (roster_entry known now) current),
     (concat (map (events_for known now) current)
      ++ map (disconnected_event now)
           (map_to_list
              (filter (fun entry => entry.1 ∉ seen_serials current) known)))%list).
Proof.
  intros Hnd. unfold diffAndEmit.
  rewrite diff_current_spec by exact Hnd. cbn [app].
  set (entries := list_to_map (map (roster_entry known now) current) : gmap string Device).
  assert (Hent : forall serial, is_Some (entries !! serial) <-> serial ∈ seen_serials current)
    by (intros; apply roster_entries_lookup).
  assert (Hgone : filter (fun entry : string * Device => entry.1 ∉ seen_serials current)
                    (entries ∪ known)
                  = filter (fun entry : string * Device => entry.1 ∉ seen_serials current) known).
  { apply map_eq. intros serial. apply option_eq. intros d.
    rewrite !map_lookup_filter_Some. cbn [fst].
    split; intros [Hl Hs]; (split; [|exact Hs]).
    - apply lookup_union_Some_raw in Hl as [Hl|[_ Hl]]; [|exact Hl].
      exfalso. apply Hs, Hent. eauto.
    - apply lookup_union_Some_raw. right. split; [|exact Hl].
      apply eq_None_not_Some. rewrite Hent. exact Hs. }
  assert (Hkept : filter (fun entry : string * Device => entry.1 ∈ seen_serials current)
                    (entries ∪ known) = entries).
  { apply map_eq. intros serial. apply option_eq. intros d.
    rewrite map_lookup_filter_Some. cbn [fst]. split.
    - intros [Hl Hs]. apply lookup_union_Some_raw in Hl as [Hl|[Hn _]]; [exact Hl|].
      apply Hent in Hs as [d' Hd']. congruence.
    - intros Hl. split; [apply lookup_union_Some_raw; left; exact Hl|].
      apply Hent. eauto. }
  rewrite Hgone, Hkept. reflexivity.
Qed.

(** X10. [diffAndEmit] on a list without repeated serials, in terms of the
    roster before the call: the new roster holds every device of the list
    with [LastSeen] set to the time of the call and [FirstSeen] kept from the
    roster, or set to the time of the call for a new serial; the events are,
    in the order of the list, a connect event for every new serial and a
    state-change event for every known serial whose state differs, and then
    a disconnect event for every serial of the roster that the list lacks. *)
Theorem diffAndEmit_spec (known : gmap string Device) (current : list Device)
  (now : Z) :
  NoDup (map dev_Serial current) ->
  diffAndEmit known current now
  = (list_to_map (map (roster_entry known now) current),
     (concat (map (events_for known now) current)
      ++ map (disconnected_event now)
           (map_to_list
              (filter (fun entry => entry.1 ∉ seen_serials current) known)))%list).
Proof. apply diffAndEmit_closed_form. Qed.

Lemma roster_entries_Some known now current serial d :
  NoDup (map dev_Serial current) ->
  (list_to_map (map (roster_entry known now) current) : gmap string Device) !! serial = Some d
  <-> exists dev, In dev current /\ dev_Serial dev = serial
                  /\ d = set_seen (first_seen known now dev) now dev.
Proof.
  intros Hnd.
  rewrite <- elem_of_list_to_map
    by (rewrite map_map; exact Hnd).
  rewrite list_elem_of_In, in_map_iff. unfold roster_entry. split.
  - intros [dev [Heq Hin]]. exists dev. inversion Heq; subst. auto.
  - intros [dev [Hin [Hs Hd]]]. exists dev. subst. auto.
Qed.

Lemma set_seen_set_seen f1 l1 f2 l2 dev :
  set_seen f2 l2 (set_seen f1 l1 dev) = set_seen f2 l2 dev.
Proof. reflexivity. Qed.

(** X11. A second [diffAndEmit] with the same list emits no event, and keeps
    every device of the roster with its [FirstSeen]; only [LastSeen] moves to
    the time of the second call. *)
Theorem repeated_snapshot_is_quiet (known : gmap string Device)
  (current : list Device) (now later : Z) :
  NoDup (map dev_Serial current) ->
  let roster := (diffAndEmit known current now).1 in
  (diffAndEmit roster current later).2 = []
  /\ forall serial d,
       roster !! serial = Some d ->
       (diffAndEmit roster current later).1 !! serial
       = Some (set_seen (dev_FirstSeen d) later d).
Proof.
  intros Hnd roster. subst roster.
  rewrite (diffAndEmit_closed_form known) by exact Hnd. cbn [fst].
  set (roster := list_to_map (map (roster_entry known now) current) : gmap string Device).
  rewrite (diffAndEmit_closed_form roster) by exact Hnd. cbn [fst snd].
  assert (Hin : forall dev, In dev current ->
             roster !! dev_Serial dev
             = Some (set_seen (first_seen known now dev) now dev)).
  { intros dev Hdev. apply roster_entries_Some; [exact Hnd|]. eauto. }
  split.
  - assert (Hgone : filter (fun entry : string * Device => entry.1 ∉ seen_serials current) roster = ∅).
    { apply map_eq. intros serial. rewrite lookup_empty.
      apply eq_None_not_Some. intros [d Hd].
      apply map_lookup_filter_Some in Hd as [Hl Hs]. apply Hs.
      apply (roster_entries_lookup known now). eauto. }
    rewrite Hgone, map_to_list_empty. cbn [map]. rewrite app_nil_r.
    apply concat_nil_Forall, Forall_forall. intros evs Hevs.
    apply list_elem_of_In, in_map_iff in Hevs as [dev [<- Hdev]].
    unfold events_for. rewrite (Hin dev Hdev). cbn [set_seen dev_State].
    rewrite String.eqb_refl. reflexivity.
  - intros serial d Hd.
    apply roster_entries_Some in Hd as [dev [Hdev [<- ->]]]; [|exact Hnd].
    apply roster_entries_Some; [exact Hnd|]. exists dev.
    split; [exact Hdev|]. split; [reflexivity|].
    unfold first_seen at 3. rewrite (Hin dev Hdev). reflexivity.
Qed.

Lemma diffAndEmit_spec_witness :
  NoDup (map dev_Serial [emulator; pixel])
  /\ diffAndEmit {[ "emulator-5554" := set_seen 3 3 pixel ]} [emulator; pixel] 7
     = (list_to_map (map (roster_entry {[ "emulator-5554" := set_seen 3 3 pixel ]} 7)
                       [emulator; pixel]),
        (concat (map (events_for {[ "emulator-5554" := set_seen 3 3 pixel ]} 7)
                       [emulator; pixel])
         ++ map (disconnected_event 7)
              (map_to_list
                 (filter (fun entry => entry.1 ∉ seen_serials [emulator; pixel])
                    ({[ "emulator-5554" := set_seen 3 3 pixel ]} : gmap string Device))))%list).
Proof.
  assert (H : NoDup (map dev_Serial [emulator; pixel])) by (apply (bool_decide_unpack (NoDup _)); vm_compute; exact I).
  split; [exact H|].
  apply (diffAndEmit_spec _ [emulator; pixel] 7 H).
Defined.

Lemma repeated_snapshot_is_quiet_witness :
  NoDup (map dev_Serial [emulator; pixel])
  /\ (diffAndEmit (diffAndEmit ∅ [emulator; pixel] 7).1 [emulator; pixel] 9).2 = [].
Proof.
  assert (H : NoDup (map dev_Serial [emulator; pixel])) by (apply (bool_decide_unpack (NoDup _)); vm_compute; exact I).
  split; [exact H|].
  apply (repeated_snapshot_is_quiet ∅ [emulator; pixel] 7 9 H).
Defined.

End RosterFacts.

(** ** Package store, continued *)

Module StoreQueriesFacts.
Import GoLib GoLibFacts Capture Store StoreFacts StoreQueries.

Lemma recent_slot (ring_len head maxSize i : Z) :
  0 < maxSize -> maxSize < 2 ^ 63 -> 0 <= head -> head < 2 ^ 63 ->
  0 <= i -> i < head ->
  recent_index head maxSize i = Some ((head - 1 - i) mod maxSize).
Proof.
  intros Hc Hc' Hh Hh' Hi Hi'.
  change (2 ^ 63) with 9223372036854775808 in *.
  unfold recent_index.
  rewrite (wrap_i64_small (head - 1)) by (change (2 ^ 63) with 9223372036854775808; lia).
  rewrite (wrap_i64_small (head - 1 - i)) by (change (2 ^ 63) with 9223372036854775808; lia).
  destruct (head - 1 - i <? 0) eqn:E; [apply Z.ltb_lt in E; lia|].
  unfold go_rem. destruct (maxSize =? 0) eqn:E0; [apply Z.eqb_eq in E0; lia|].
  rewrite rem_nonneg by lia. reflexivity.
Qed.

Lemma recent_entry_ring (c : Z) (pkts : list NetworkPacket) (s : Store) (i : nat) :
  0 < c -> c < 2 ^ 63 -> Z.of_nat (length pkts) < 2 ^ 63 ->
  ring_holds c pkts s ->
  Z.of_nat i < Z.min (Z.of_nat (length pkts)) c ->
  (idx ← recent_index (pktHead s) (pktMaxSize s) (Z.of_nat i);
   index_get (packets s) idx) = reverse pkts !! i.
Proof.
  intros Hc Hc' Hk (Hmax & Hlen & Hhead & Hcount & Hring) Hi.
  set (k := Z.of_nat (length pkts)) in *.
  rewrite (recent_slot c) by lia. cbn [mbind option_bind].
  rewrite Hhead, Hmax. unfold index_get.
  pose proof (Z.mod_pos_bound (k - 1 - Z.of_nat i) c Hc).
  destruct ((k - 1 - Z.of_nat i) mod c <? 0) eqn:E; [apply Z.ltb_lt in E; lia|].
  rewrite reverse_lookup by (unfold k in *; lia).
  replace (k - 1 - Z.of_nat i) with (Z.of_nat (length pkts - S i)) by (unfold k; lia).
  apply Hring; unfold k in *; lia.
Qed.

Lemma GetRecentPackets_any (c : Z) (pkts : list NetworkPacket) (s : Store) (n : Z) :
  0 < c -> c < 2 ^ 63 -> Z.of_nat (length pkts) < 2 ^ 63 ->
  ring_holds c pkts s ->
  GetRecentPackets s n
  = if n <? 0 then None
    else Some (take (Z.to_nat (Z.min n c)) (reverse pkts)).
Proof.
  intros Hc Hc' Hk Hs.
  pose proof Hs as (Hmax & Hlen & Hhead & Hcount & Hring).
  set (k := Z.of_nat (length pkts)) in *.
  unfold GetRecentPackets. cbv zeta. rewrite Hcount.
  destruct (n <? 0) eqn:En.
  - apply Z.ltb_lt in En.
    destruct (Z.min k c <? n) eqn:E1; [apply Z.ltb_lt in E1; lia|].
    destruct (n =? 0) eqn:E2; [apply Z.eqb_eq in E2; lia|].
    rewrite (proj2 (Z.ltb_lt _ _) En). reflexivity.
  - apply Z.ltb_ge in En.
    set (n' := if Z.min k c <? n then Z.min k c else n).
    assert (Hn' : n' = Z.min n (Z.min k c)).
    { unfold n'. destruct (Z.min k c <? n) eqn:E1;
        [apply Z.ltb_lt in E1|apply Z.ltb_ge in E1]; lia. }
    assert (Htake : take (Z.to_nat (Z.min n c)) (reverse pkts)
                    = take (Z.to_nat n') (reverse pkts)).
    { destruct (Z_le_gt_dec (Z.min n c) k) as [Hle|Hgt].
      - f_equal. lia.
      - rewrite !take_ge by (rewrite length_reverse; unfold k in *; lia).
        reflexivity. }
    rewrite Htake.
    destruct (n' =? 0) eqn:E0.
    { apply Z.eqb_eq in E0. rewrite E0. reflexivity. }
    apply Z.eqb_neq in E0.
    destruct (n' <? 0) eqn:E1; [apply Z.ltb_lt in E1; lia|].
    apply mapM_Some_2, Forall2_same_length_lookup_2.
    { rewrite length_seqZ, length_take, length_reverse. unfold k in *. lia. }
    intros i x y Hx Hy.
    apply lookup_seqZ in Hx as [-> Hi]. rewrite Z.add_0_l.
    apply lookup_take_Some in Hy as [Hy _].
    rewrite (recent_entry_ring c pkts) by (fold k; first [assumption|lia]).
    exact Hy.
Qed.

Lemma by_serial_loop_spec {A} (ring : list A) (head maxSize : Z)
  (matches : A -> bool) (n : Z) (entries : list A) :
  forall (offset : Z) (result : list A),
    (forall (i : nat) (x : A), entries !! i = Some x ->
       (idx ← recent_index head maxSize (offset + Z.of_nat i);
        index_get ring idx) = Some x) ->
    by_serial_loop ring head maxSize matches n
      (seqZ offset (Z.of_nat (length entries))) result
    = Some (if Z.of_nat (length result) <? n
            then (result ++ take (Z.to_nat n - length result)
                              (List.filter matches entries))%list
            else result).
Proof.
  induction entries as [|x entries IH]; intros offset result Hent.
  - cbn. rewrite take_nil, app_nil_r. destruct (_ <? _); reflexivity.
  - replace (Z.of_nat (length (x :: entries)))
      with (Z.succ (Z.of_nat (length entries))) by (cbn [length]; lia).
    rewrite seqZ_cons by lia. rewrite Z.pred_succ.
    cbn [by_serial_loop].
    destruct (Z.of_nat (length result) <? n) eqn:E; [|reflexivity].
    apply Z.ltb_lt in E.
    pose proof (Hent 0%nat x eq_refl) as H0. rewrite Z.add_0_r in H0.
    destruct (recent_index head maxSize offset) as [idx|]; [|discriminate].
    cbn [mbind option_bind] in H0 |- *. rewrite H0. cbn [mbind option_bind].
    rewrite IH.
    2:{ intros i y Hy. specialize (Hent (S i) y Hy).
        replace (Z.succ offset + Z.of_nat i) with (offset + Z.of_nat (S i)) by lia.
        exact Hent. }
    f_equal. cbn [List.filter].
    destruct (matches x).
    + rewrite length_app. cbn [length].
      destruct (Z.of_nat (length result + 1) <? n) eqn:E'.
      * apply Z.ltb_lt in E'. rewrite <- app_assoc. cbn [app]. f_equal.
        replace (Z.to_nat n - length result)%nat
          with (S (Z.to_nat n - (length result + 1)))%nat by lia.
        reflexivity.
      * apply Z.ltb_ge in E'.
        replace (Z.to_nat n - length result)%nat with 1%nat by lia.
        cbn [take]. rewrite take_0. reflexivity.
    + rewrite (proj2 (Z.ltb_lt _ _) E). reflexivity.
Qed.

Lemma GetPacketsBySerial_any (c : Z) (pkts : list NetworkPacket) (s : Store)
  (serial : string) (n : Z) :
  0 < c -> c < 2 ^ 63 -> Z.of_nat (length pkts) < 2 ^ 63 ->
  ring_holds c pkts s ->
  GetPacketsBySerial s serial n
  = Some (take (Z.to_nat n)
            (List.filter (fun p => String.eqb (pkt_Serial p) serial)
               (take (Z.to_nat c) (reverse pkts)))).
Proof.
  intros Hc Hc' Hk Hs.
  pose proof Hs as (Hmax & Hlen & Hhead & Hcount & Hring).
  set (k := Z.of_nat (length pkts)) in *.
  unfold GetPacketsBySerial.
  set (entries := take (Z.to_nat c) (reverse pkts)).
  assert (Hlen' : pktCount s = Z.of_nat (length entries)).
  { unfold entries. rewrite length_take, length_reverse, Hcount. unfold k. lia. }
  rewrite Hlen', by_serial_loop_spec.
  - cbn [length]. destruct (Z.of_nat 0 <? n) eqn:E.
    + cbn [app]. rewrite Nat.sub_0_r. reflexivity.
    + apply Z.ltb_ge in E. replace (Z.to_nat n) with 0%nat by lia.
      rewrite take_0. reflexivity.
  - intros i x Hx. rewrite Z.add_0_l.
    apply lookup_take_Some in Hx as [Hx Hi].
    pose proof (lookup_lt_Some _ _ _ Hx) as Hlt. rewrite length_reverse in Hlt.
    rewrite (recent_entry_ring c pkts) by (first [assumption|fold k; unfold k in *; lia]).
    exact Hx.
Qed.

Lemma ring_entry_Some {A} (ring : list A) (head maxSize count i : Z) :
  ring_ok ring head maxSize count -> 0 <= i < count ->
  is_Some (idx ← recent_index head maxSize i; index_get ring idx).
Proof.
  intros (Hc & Hc' & Hlen & Hh & Hh' & Hcount) Hi.
  rewrite (recent_slot maxSize) by lia. cbn [mbind option_bind].
  unfold index_get.
  pose proof (Z.mod_pos_bound (head - 1 - i) maxSize Hc).
  destruct ((head - 1 - i) mod maxSize <? 0) eqn:E; [apply Z.ltb_lt in E; lia|].
  apply lookup_lt_is_Some. lia.
Qed.

Lemma ring_listing {A} (ring : list A) (head maxSize count : Z) :
  ring_ok ring head maxSize count ->
  exists recent,
    mapM (fun i => idx ← recent_index head maxSize i; index_get ring idx)
         (seqZ 0 count) = Some recent
    /\ Z.of_nat (length recent) = count.
Proof.
  intros Hok.
  assert (Hcount : 0 <= count) by (destruct Hok as (?&?&?&?&?&?); lia).
  destruct (mapM (fun i => idx ← recent_index head maxSize i; index_get ring idx)
              (seqZ 0 count)) as [recent|] eqn:E.
  - exists recent. split; [reflexivity|].
    apply length_mapM in E. rewrite length_seqZ in E. lia.
  - exfalso. apply eq_None_not_Some in E. apply E.
    apply mapM_is_Some, Forall_forall. intros i Hi.
    apply elem_of_seqZ in Hi. apply (ring_entry_Some ring head maxSize count); [exact Hok|lia].
Qed.

Lemma mapM_seqZ_take {A} (f : Z -> option A) (m n : Z) (recent : list A) :
  mapM f (seqZ 0 m) = Some recent -> 0 <= n <= m ->
  mapM f (seqZ 0 n) = Some (take (Z.to_nat n) recent).
Proof.
  intros Hm Hn.
  pose proof (length_mapM _ _ _ Hm) as Hlen. rewrite length_seqZ in Hlen.
  apply mapM_Some_1 in Hm.
  apply mapM_Some_2, Forall2_same_length_lookup_2.
  { rewrite length_seqZ, length_take. lia. }
  intros i x y Hx Hy.
  apply lookup_seqZ in Hx as [-> Hi].
  apply lookup_take_Some in Hy as [Hy _].
  apply (Forall2_lookup_lr (fun x y => f x = Some y) _ _ i (0 + Z.of_nat i) y Hm);
    [|exact Hy].
  apply lookup_seqZ. split; [reflexivity|lia].
Qed.

Lemma by_serial_loop_listing {A} (ring : list A) (head maxSize count : Z)
  (matches : A -> bool) (n : Z) (recent : list A) :
  mapM (fun i => idx ← recent_index head maxSize i; index_get ring idx)
       (seqZ 0 count) = Some recent ->
  0 <= count ->
  by_serial_loop ring head maxSize matches n (seqZ 0 count) []
  = Some (take (Z.to_nat n) (List.filter matches recent)).
Proof.
  intros Hm Hcount.
  pose proof (length_mapM _ _ _ Hm) as Hlen. rewrite length_seqZ in Hlen.
  apply mapM_Some_1 in Hm.
  replace count with (Z.of_nat (length recent)) by lia.
  rewrite by_serial_loop_spec.
  - cbn [length]. destruct (Z.of_nat 0 <? n) eqn:E.
    + cbn [app]. rewrite Nat.sub_0_r. reflexivity.
    + apply Z.ltb_ge in E. replace (Z.to_nat n) with 0%nat by lia.
      rewrite take_0. reflexivity.
  - intros i x Hx. rewrite Z.add_0_l.
    apply (Forall2_lookup_lr
             (fun j y => (idx ← recent_index head maxSize j; index_get ring idx) = Some y)
             _ _ i (Z.of_nat i) x Hm); [|exact Hx].
    replace (Z.of_nat i) with (0 + Z.of_nat i) at 2 by lia.
    apply lookup_seqZ. split; [lia|]. apply lookup_lt_Some in Hx. lia.
Qed.

Lemma store_ok_packets (s : Store) :
  store_ok s -> ring_ok (packets s) (pktHead s) (pktMaxSize s) (pktCount s).
Proof. intros [H _]. exact H. Qed.

Lemma store_ok_connections (s : Store) :
  store_ok s ->
  ring_ok (connections s) (connHead s) (connMaxSize s) (connCount s).
Proof. intros [_ [H _]]. exact H. Qed.

Lemma clamp_count (count n : Z) :
  0 <= count -> 0 <= n ->
  (if count <? n then count else n) = Z.min n count.
Proof.
  intros. destruct (count <? n) eqn:E;
    [apply Z.ltb_lt in E|apply Z.ltb_ge in E]; lia.
Qed.

Lemma recent_reader {A} (ring : list A) (head maxSize count n : Z)
  (recent : list A) :
  mapM (fun i => idx ← recent_index head maxSize i; index_get ring idx)
       (seqZ 0 count) = Some recent ->
  0 <= count ->
  (let n := if count <? n then count else n in
   if n =? 0 then Some []
   else if n <? 0 then None
   else mapM (fun i => idx ← recent_index head maxSize i; index_get ring idx)
             (seqZ 0 n))
  = if n <? 0 then None else Some (take (Z.to_nat n) recent).
Proof.
  intros Hm Hcount. cbv zeta.
  pose proof (length_mapM _ _ _ Hm) as Hlen. rewrite length_seqZ in Hlen.
  destruct (n <? 0) eqn:En.
  - apply Z.ltb_lt in En.
    destruct (count <? n) eqn:E1; [apply Z.ltb_lt in E1; lia|].
    destruct (n =? 0) eqn:E2; [apply Z.eqb_eq in E2; lia|].
    rewrite (proj2 (Z.ltb_lt _ _) En). reflexivity.
  - apply Z.ltb_ge in En. rewrite clamp_count by lia.
    assert (Htake : take (Z.to_nat n) recent = take (Z.to_nat (Z.min n count)) recent).
    { destruct (Z_le_gt_dec n count) as [Hle|Hgt].
      - f_equal. lia.
      - rewrite !take_ge by lia. reflexivity. }
    rewrite Htake.
    destruct (Z.min n count =? 0) eqn:E0.
    { apply Z.eqb_eq in E0. rewrite E0. reflexivity. }
    apply Z.eqb_neq in E0.
    destruct (Z.min n count <? 0) eqn:E1; [apply Z.ltb_lt in E1; lia|].
    apply (mapM_seqZ_take _ count); [exact Hm|lia].
Qed.

(** X13. In a store of the shape [store_ok] no reader panics on a count that
    is not negative, and the four readers agree: there is one listing of the
    stored packets, newest first, as long as [PacketCount], and one of the
    connections, such that [GetRecentPackets n] is its first [n] entries and
    [GetPacketsBySerial serial n] the first [n] of its entries with this
    serial; likewise for the connections.  On a negative count the two
    [GetRecent] readers panic and the two readers by serial return
    nothing. *)
Theorem readers_agree (s : Store) :
  store_ok s ->
  exists (pkts : list NetworkPacket) (conns : list Connection),
    Z.of_nat (length pkts) = PacketCount s /\
    Z.of_nat (length conns) = ConnectionCount s /\
    (forall n, GetRecentPackets s n
               = if n <? 0 then None else Some (take (Z.to_nat n) pkts)) /\
    (forall n, GetRecentConnections s n
               = if n <? 0 then None else Some (take (Z.to_nat n) conns)) /\
    (forall serial n,
        GetPacketsBySerial s serial n
        = Some (take (Z.to_nat n)
                  (List.filter (fun p => String.eqb (pkt_Serial p) serial) pkts))) /\
    (forall serial n,
        GetConnectionsBySerial s serial n
        = Some (take (Z.to_nat n)
                  (List.filter (fun c => String.eqb (conn_Serial c) serial) conns))).
Proof.
  intros Hok.
  pose proof (store_ok_packets s Hok) as Hp.
  pose proof (store_ok_connections s Hok) as Hc.
  destruct (ring_listing _ _ _ _ Hp) as (pkts & Epkts & Lpkts).
  destruct (ring_listing _ _ _ _ Hc) as (conns & Econns & Lconns).
  assert (0 <= pktCount s) by lia. assert (0 <= connCount s) by lia.
  exists pkts, conns.
  split; [exact Lpkts|]. split; [exact Lconns|].
  split; [|split; [|split]].
  - intros n. apply (recent_reader (packets s)); assumption.
  - intros n. apply (recent_reader (connections s)); assumption.
  - intros serial n. apply by_serial_loop_listing; assumption.
  - intros serial n. apply by_serial_loop_listing; assumption.
Qed.

Lemma New_store_ok (cfg : Config) :
  MaxPackets cfg < 2 ^ 63 -> MaxConnections cfg < 2 ^ 63 ->
  store_ok (New cfg).
Proof.
  intros Hp Hc. change (2 ^ 63) with 9223372036854775808 in *.
  unfold store_ok, ring_ok, New, make, pointers_valid.
  cbn [packets pktHead pktMaxSize pktCount connections connHead connMaxSize
       connCount connMap].
  rewrite !length_replicate. unfold DefaultMaxPackets, DefaultMaxConns.
  change (2 ^ 63) with 9223372036854775808.
  destruct (MaxPackets cfg <=? 0) eqn:E1;
    [apply Z.leb_le in E1|apply Z.leb_gt in E1];
    (destruct (MaxConnections cfg <=? 0) eqn:E2;
     [apply Z.leb_le in E2|apply Z.leb_gt in E2]);
    (repeat split; try lia; intros key ptr Hk; rewrite lookup_empty in Hk;
     discriminate).
Qed.

Lemma SetOnChange_store_ok (s : Store) (fn : option func) :
  store_ok s -> store_ok (SetOnChange s fn).
Proof. intros H. exact H. Qed.

Lemma Clear_store_ok (s : Store) : store_ok s -> store_ok (Clear s).
Proof.
  intros ((Hc & Hc' & Hlen & _) & (Hd & Hd' & Hlen' & _) & _).
  unfold store_ok, ring_ok, Clear, pointers_valid.
  cbn [packets pktHead pktMaxSize pktCount connections connHead connMaxSize
       connCount connMap].
  change (2 ^ 63) with 9223372036854775808 in *.
  repeat split; try lia.
  intros key ptr Hk. rewrite lookup_empty in Hk. discriminate.
Qed.

Lemma ring_insert {A} (ring : list A) (head maxSize count : Z) (x : A) :
  ring_ok ring head maxSize count -> head + 1 < 2 ^ 63 ->
  go_rem head maxSize = Some (head mod maxSize)
  /\ index_set ring (head mod maxSize) x
     = Some (<[Z.to_nat (head mod maxSize) := x]> ring)
  /\ (Z.to_nat (head mod maxSize) < length ring)%nat
  /\ ring_ok (<[Z.to_nat (head mod maxSize) := x]> ring)
       (wrap_i64 (head + 1)) maxSize
       (if count <? maxSize then wrap_i64 (count + 1) else count).
Proof.
  intros (Hc & Hc' & Hlen & Hh & Hh' & Hcount) Hnext.
  pose proof (Z.mod_pos_bound head maxSize Hc) as Hidx.
  change (2 ^ 63) with 9223372036854775808 in *.
  split.
  { unfold go_rem. destruct (maxSize =? 0) eqn:E0; [apply Z.eqb_eq in E0; lia|].
    rewrite rem_nonneg by lia. reflexivity. }
  split.
  { unfold index_set.
    destruct (head mod maxSize <? 0) eqn:E1; [apply Z.ltb_lt in E1; lia|].
    destruct (Z.of_nat (length ring) <=? head mod maxSize) eqn:E2;
      [apply Z.leb_le in E2; lia|]. reflexivity. }
  split; [lia|].
  unfold ring_ok. rewrite length_insert.
  rewrite (wrap_i64_small (head + 1))
    by (change (2 ^ 63) with 9223372036854775808; lia).
  change (2 ^ 63) with 9223372036854775808.
  repeat split; try lia.
  destruct (count <? maxSize) eqn:E;
    [apply Z.ltb_lt in E|apply Z.ltb_ge in E].
  - rewrite wrap_i64_small by (change (2 ^ 63) with 9223372036854775808; lia). lia.
  - lia.
Qed.

Lemma AddPacket_store_ok (s : Store) (pkt : NetworkPacket) :
  store_ok s -> pktHead s + 1 < 2 ^ 63 ->
  exists s', AddPacket s pkt = Some (s', onChange s) /\ store_ok s'.
Proof.
  intros (Hp & Hc & Hptr) Hnext.
  destruct (ring_insert _ _ _ _ pkt Hp Hnext) as (E1 & E2 & _ & Hp').
  unfold AddPacket. rewrite E1. cbn [mbind option_bind]. rewrite E2.
  cbn [mbind option_bind]. eexists. split; [reflexivity|].
  split; [exact Hp'|]. split; [exact Hc|exact Hptr].
Qed.

Lemma AddConnection_store_ok (s : Store) (conn : Connection) :
  store_ok s -> connHead s + 1 < 2 ^ 63 ->
  exists s' cb, AddConnection s conn = Some (s', cb) /\ store_ok s'.
Proof.
  intros (Hp & Hc & Hptr) Hnext.
  unfold AddConnection.
  destruct (connMap s !! connKey conn) as [ptr|] eqn:E.
  - eexists _, _. split; [reflexivity|].
    split; [exact Hp|]. split.
    + unfold ring_ok in *. cbn [connections connHead connMaxSize connCount].
      rewrite length_alter. exact Hc.
    + intros key ptr' Hk. cbn [connections connMap] in *.
      rewrite length_alter. apply (Hptr key ptr' Hk).
  - destruct (ring_insert _ _ _ _ conn Hc Hnext) as (E1 & E2 & Hlt & Hc').
    rewrite E1. cbn [mbind option_bind]. rewrite E2. cbn [mbind option_bind].
    eexists _, _. split; [reflexivity|].
    split; [exact Hp|]. split; [exact Hc'|].
    intros key ptr' Hk. cbn [connections connMap] in *.
    rewrite length_insert.
    destruct (decide (key = connKey conn)) as [->|Hne].
    + rewrite lookup_insert_eq in Hk. inversion Hk; subst. exact Hlt.
    + rewrite lookup_insert_ne in Hk by congruence. apply (Hptr key ptr' Hk).
Qed.

Lemma ClearDevice_store_ok (s : Store) (serial : string) :
  store_ok s ->
  exists s', ClearDevice s serial = Some s' /\ store_ok s'.
Proof.
  intros (Hp & Hc & Hptr).
  pose proof Hp as (Hm & Hm' & Hlen & Hh & Hh' & Hcount).
  unfold ClearDevice.
  destruct (pktCount s <? 0) eqn:E1; [apply Z.ltb_lt in E1; lia|].
  destruct (Z.of_nat (length (packets s)) <? pktCount s) eqn:E2;
    [apply Z.ltb_lt in E2; lia|].
  cbn [orb]. eexists. split; [reflexivity|].
  split; [|split; [exact Hc|]].
  - unfold ring_ok. cbn [packets pktHead pktMaxSize pktCount].
    rewrite length_app, length_map, length_take, length_drop.
    repeat split; try lia.
  - intros key ptr Hk. cbn [connections connMap] in *.
    apply map_lookup_filter_Some in Hk as [Hk _]. apply (Hptr key ptr Hk).
Qed.

(** X14. [New] builds a store of the shape [store_ok] and every operation
    keeps it, without a panic: [SetOnChange], [Clear], [ClearDevice], and
    [AddPacket] and [AddConnection] as long as the head, a 64-bit [int], does
    not overflow. *)
Theorem store_shape_kept (cfg : Config) (s : Store) :
  MaxPackets cfg < 2 ^ 63 -> MaxConnections cfg < 2 ^ 63 ->
  store_ok s ->
  store_ok (New cfg) /\
  (forall fn, store_ok (SetOnChange s fn)) /\
  store_ok (Clear s) /\
  (forall pkt, pktHead s + 1 < 2 ^ 63 ->
     exists s', AddPacket s pkt = Some (s', onChange s) /\ store_ok s') /\
  (forall conn, connHead s + 1 < 2 ^ 63 ->
     exists s' cb, AddConnection s conn = Some (s', cb) /\ store_ok s') /\
  (forall serial, exists s', ClearDevice s serial = Some s' /\ store_ok s').
Proof.
  intros Hp Hc Hok.
  split; [apply New_store_ok; assumption|].
  split; [intros fn; apply SetOnChange_store_ok, Hok|].
  split; [apply Clear_store_ok, Hok|].
  split; [intros pkt Hn; apply AddPacket_store_ok; assumption|].
  split; [intros conn Hn; apply AddConnection_store_ok; assumption|].
  intros serial. apply ClearDevice_store_ok, Hok.
Qed.

(** X12. The packet readers on a new store of capacity [c] after the inserts
    [pkts]: [GetRecentPackets n] returns the [min n c] last inserts, newest
    first (all of them when fewer were made), and panics for a negative [n];
    [GetPacketsBySerial serial n] returns the first [n] packets of the given
    serial among the last [c] inserts, newest first, and nothing for
    [n <= 0]. *)
Theorem packet_readers_content (c m : Z) (pkts : list NetworkPacket) :
  0 < c -> c < 2 ^ 63 -> Z.of_nat (length pkts) < 2 ^ 63 ->
  exists s,
    AddPackets (New (mkConfig c m)) pkts = Some s /\
    PacketCount s = Z.min (Z.of_nat (length pkts)) c /\
    (forall n, GetRecentPackets s n
               = if n <? 0 then None
                 else Some (take (Z.to_nat (Z.min n c)) (reverse pkts))) /\
    (forall serial n,
        GetPacketsBySerial s serial n
        = Some (take (Z.to_nat n)
                  (List.filter (fun p => String.eqb (pkt_Serial p) serial)
                     (take (Z.to_nat c) (reverse pkts))))).
Proof.
  intros Hc Hc' Hk.
  destruct (AddPackets_ring c pkts [] (New (mkConfig c m)) Hc
              ltac:(simpl; lia) (New_ring c m Hc)) as (s & Es & Hs).
  cbn [app] in Hs.
  exists s. split; [exact Es|].
  split; [destruct Hs as (_ & _ & _ & Hcount & _); exact Hcount|].
  split.
  - intros n. apply GetRecentPackets_any; assumption.
  - intros serial n. apply GetPacketsBySerial_any; assumption.
Qed.

Lemma packet_readers_content_witness :
  (0 < 2 /\ 2 < 2 ^ 63
   /\ Z.of_nat (length [test_packet 0; dev1_packet; test_packet 2]) < 2 ^ 63)
  /\ exists s,
      AddPackets (New (mkConfig 2 2)) [test_packet 0; dev1_packet; test_packet 2]
      = Some s
      /\ GetRecentPackets s 7 = Some [test_packet 2; dev1_packet]
      /\ GetRecentPackets s 1 = Some [test_packet 2]
      /\ GetRecentPackets s (-1) = None
      /\ GetPacketsBySerial s "dev1" (-1) = Some [].
Proof.
  assert (H1 : 0 < 2) by lia.
  assert (H2 : 2 < 2 ^ 63) by reflexivity.
  assert (H3 : Z.of_nat (length [test_packet 0; dev1_packet; test_packet 2]) < 2 ^ 63)
    by reflexivity.
  split; [auto|].
  destruct (packet_readers_content 2 2 [test_packet 0; dev1_packet; test_packet 2]
              H1 H2 H3) as (s & Es & _ & Hrecent & Hserial).
  exists s. split; [exact Es|].
  rewrite !Hrecent, Hserial. repeat split.
Defined.

Lemma Clear_ring (s : Store) :
  store_ok s -> ring_holds (pktMaxSize s) [] (Clear s).
Proof.
  intros ((Hc & Hc' & Hlen & _) & _).
  unfold ring_holds, Clear. cbn [packets pktHead pktMaxSize pktCount length].
  repeat split; lia.
Qed.

Lemma single_connection_read (s : Store) (conn : Connection) (n : Z) :
  connHead s = 1 -> connCount s = 1 ->
  0 < connMaxSize s -> connections s !! 0%nat = Some conn -> 0 < n ->
  GetRecentConnections s n = Some [conn].
Proof.
  intros Hh Hn Hm H0 Hpos.
  unfold GetRecentConnections. cbv zeta. rewrite Hn, Hh.
  replace (if 1 <? n then 1 else n) with 1
    by (destruct (1 <? n) eqn:E; [reflexivity|apply Z.ltb_ge in E; lia]).
  change (1 =? 0) with false. change (1 <? 0) with false. cbv iota.
  change (seqZ 0 1) with [0]. cbn [mapM].
  unfold recent_index.
  change (wrap_i64 (wrap_i64 (1 - 1) - 0)) with 0.
  change (0 <? 0) with false. cbv iota.
  unfold go_rem. destruct (connMaxSize s =? 0) eqn:E0; [apply Z.eqb_eq in E0; lia|].
  rewrite Z.rem_0_l by lia. cbn [mbind option_bind].
  unfold index_get. change (0 <? 0) with false. cbv iota.
  change (Z.to_nat 0) with 0%nat. rewrite H0. reflexivity.
Qed.

(** X15. [Clear] forgets: after it, the readers return only what is inserted
    afterwards (the packets [more], newest first, capped at the capacity),
    and a connection is stored and announced as new, with the change
    callback, also when its key was known before. *)
Theorem Clear_forgets (s : Store) (more : list NetworkPacket) (conn : Connection) :
  store_ok s -> Z.of_nat (length more) < 2 ^ 63 ->
  exists s1 s2,
    AddPackets (Clear s) more = Some s1 /\
    PacketCount s1 = Z.min (Z.of_nat (length more)) (pktMaxSize s) /\
    (forall n, 0 <= n ->
       GetRecentPackets s1 n
       = Some (take (Z.to_nat (Z.min n (pktMaxSize s))) (reverse more))) /\
    (forall serial n,
       GetPacketsBySerial s1 serial n
       = Some (take (Z.to_nat n)
                 (List.filter (fun p => String.eqb (pkt_Serial p) serial)
                    (take (Z.to_nat (pktMaxSize s)) (reverse more))))) /\
    AddConnection (Clear s) conn = Some (s2, onChange s) /\
    ConnectionCount s2 = 1 /\
    (forall n, 0 < n -> GetRecentConnections s2 n = Some [conn]).
Proof.
  intros Hok Hk.
  pose proof Hok as ((Hc & Hc' & Hlen & _) & (Hd & Hd' & Hlen' & _) & _).
  destruct (AddPackets_ring (pktMaxSize s) more [] (Clear s) Hc
              ltac:(simpl; lia) (Clear_ring s Hok)) as (s1 & E1 & Hs1).
  cbn [app] in Hs1.
  pose proof (AddConnection_fresh (Clear s) conn eq_refl eq_refl eq_refl Hd Hlen')
    as E2.
  eexists s1, _. split; [exact E1|].
  split; [destruct Hs1 as (_ & _ & _ & Hcount & _); exact Hcount|].
  split.
  { intros n Hn. rewrite (GetRecentPackets_any (pktMaxSize s) more) by assumption.
    destruct (n <? 0) eqn:E; [apply Z.ltb_lt in E; lia|reflexivity]. }
  split.
  { intros serial n. apply GetPacketsBySerial_any; assumption. }
  split; [exact E2|].
  split; [reflexivity|].
  intros n Hn. apply single_connection_read; cbn [connHead connCount connMaxSize connections Clear];
    try reflexivity; try assumption.
  apply list_lookup_insert_eq. lia.
Qed.

(** X16. The index map is not pruned when the ring wraps around.  When a new
    connection [conn] overwrites the slot that the key of [late] points to,
    this key stays in the map; a later insert of [late] then takes the branch
    of a known key: it stores nothing and invokes no callback, but rewrites
    [State] and [LastSeen] of [conn] in that slot, and both keys point to the
    same slot. *)
Theorem evicted_key_rewrites_successor (s : Store) (conn late : Connection)
  (ptr : nat) :
  store_ok s -> connHead s + 1 < 2 ^ 63 ->
  connMap s !! connKey late = Some ptr ->
  connMap s !! connKey conn = None ->
  Z.of_nat ptr = connHead s mod connMaxSize s ->
  exists s1 s2,
    AddConnection s conn = Some (s1, onChange s) /\
    connections s1 !! ptr = Some conn /\
    connMap s1 !! connKey late = Some ptr /\
    AddConnection s1 late = Some (s2, None) /\
    connections s2 = <[ptr := entry_update late conn]> (connections s1) /\
    connections s2 !! ptr = Some (entry_update late conn) /\
    connMap s2 !! connKey conn = Some ptr /\
    connMap s2 !! connKey late = Some ptr /\
    ConnectionCount s2 = ConnectionCount s1.
Proof.
  intros (Hp & Hc & Hptr) Hnext Hlate Hconn Hslot.
  destruct (ring_insert _ _ _ _ conn Hc Hnext) as (E1 & E2 & Hlt & _).
  assert (Hne : connKey late <> connKey conn) by congruence.
  assert (Hidx : Z.to_nat (connHead s mod connMaxSize s) = ptr) by lia.
  rewrite Hidx in *.
  set (s1 := mkStore (packets s) (pktHead s) (pktCount s) (pktMaxSize s)
               (<[ptr := conn]> (connections s)) (wrap_i64 (connHead s + 1))
               (if connCount s <? connMaxSize s
                then wrap_i64 (connCount s + 1) else connCount s)
               (connMaxSize s) (<[connKey conn := ptr]> (connMap s)) (onChange s)).
  assert (Es1 : AddConnection s conn = Some (s1, onChange s)).
  { unfold AddConnection. rewrite Hconn, E1. cbn [mbind option_bind].
    rewrite E2. cbn [mbind option_bind]. rewrite Hidx. reflexivity. }
  assert (Hstale : connMap s1 !! connKey late = Some ptr).
  { cbn [s1 connMap]. rewrite lookup_insert_ne by congruence. exact Hlate. }
  assert (Hslot1 : connections s1 !! ptr = Some conn).
  { cbn [s1 connections]. apply list_lookup_insert_eq. exact Hlt. }
  exists s1. eexists.
  split; [exact Es1|]. split; [exact Hslot1|]. split; [exact Hstale|].
  split; [apply (AddConnection_existing s1 late ptr Hstale)|].
  cbn [connections connMap ConnectionCount connCount].
  assert (Halter : alter (entry_update late) ptr (connections s1)
                   = <[ptr := entry_update late conn]> (connections s1)).
  { apply list_eq. intros j. destruct (decide (j = ptr)) as [->|Hj].
    - rewrite list_lookup_alter_eq, Hslot1.
      rewrite list_lookup_insert_eq by (apply lookup_lt_Some in Hslot1; exact Hslot1).
      reflexivity.
    - rewrite list_lookup_alter_ne, list_lookup_insert_ne by congruence.
      reflexivity. }
  split; [exact Halter|].
  split.
  { rewrite Halter. apply list_lookup_insert_eq.
    apply lookup_lt_Some in Hslot1. exact Hslot1. }
  split; [cbn [s1 connMap]; apply lookup_insert_eq|].
  split; [exact Hstale|reflexivity].
Qed.

(** X17. The count that the HTTP handlers pass to the store is positive:
    [queryInt] with the default 200 returns the number parsed when it is
    positive and 200 otherwise (parameter absent, not a number, zero or
    negative).  So [handleGetRecentPackets] and [handleGetRecentConnections]
    never hit the panic of a negative count, and return as many entries as
    asked for, capped at the number stored. *)
Theorem bridge_count_positive (s : Store) (query_n : string) :
  store_ok s ->
  0 < queryInt query_n 200 /\
  (queryInt query_n 200
   = match Atoi query_n with
     | (n, None) => if 0 <? n then n else 200
     | (_, Some _) => 200
     end) /\
  (exists pkts, handleGetRecentPackets s query_n = Some pkts
                /\ Z.of_nat (length pkts)
                   = Z.min (queryInt query_n 200) (PacketCount s)) /\
  (exists conns, handleGetRecentConnections s query_n = Some conns
                 /\ Z.of_nat (length conns)
                    = Z.min (queryInt query_n 200) (ConnectionCount s)).
Proof.
  intros Hok.
  assert (Hpos : 0 < queryInt query_n 200).
  { unfold queryInt. destruct (String.eqb query_n ""); [lia|].
    destruct (Atoi query_n) as [n [e|]]; cbn [orb]; [lia|].
    destruct (n <=? 0) eqn:E; [lia|apply Z.leb_gt in E; exact E]. }
  split; [exact Hpos|].
  split.
  { unfold queryInt. destruct (String.eqb_spec query_n "") as [->|Hne].
    - reflexivity.
    - destruct (Atoi query_n) as [n [e|]]; cbn [orb]; [reflexivity|].
      rewrite Z.leb_antisym. destruct (0 <? n); reflexivity. }
  pose proof (store_ok_packets s Hok) as Hp.
  pose proof (store_ok_connections s Hok) as Hc.
  destruct (ring_listing _ _ _ _ Hp) as (pkts & Epkts & Lpkts).
  destruct (ring_listing _ _ _ _ Hc) as (conns & Econns & Lconns).
  assert (0 <= pktCount s) by lia. assert (0 <= connCount s) by lia.
  set (n := queryInt query_n 200) in *.
  assert (En : (n <? 0) = false) by (apply Z.ltb_ge; lia).
  split.
  - exists (take (Z.to_nat n) pkts). split.
    + unfold handleGetRecentPackets, GetRecentPackets. fold n.
      etransitivity;
        [apply (recent_reader (packets s) _ _ _ n pkts Epkts); assumption|].
      rewrite En. reflexivity.
    + rewrite length_take. unfold PacketCount. lia.
  - exists (take (Z.to_nat n) conns). split.
    + unfold handleGetRecentConnections, GetRecentConnections. fold n.
      etransitivity;
        [apply (recent_reader (connections s) _ _ _ n conns Econns); assumption|].
      rewrite En. reflexivity.
    + rewrite length_take. unfold ConnectionCount. lia.
Qed.

Lemma full_store_ok : store_ok full_store.
Proof.
  destruct (AddConnection_store_ok (New (mkConfig 1 1)) conn_a
              (New_store_ok (mkConfig 1 1) eq_refl eq_refl) eq_refl)
    as (s' & cb & E & Hok).
  unfold full_store. rewrite E. exact Hok.
Qed.

Lemma readers_agree_witness :
  store_ok full_store
  /\ exists conns,
       Z.of_nat (length conns) = ConnectionCount full_store
       /\ GetRecentConnections full_store 5 = Some (take 5 conns)
       /\ GetConnectionsBySerial full_store "dev1" 5
          = Some (take 5 (List.filter
                            (fun c => String.eqb (conn_Serial c) "dev1") conns)).
Proof.
  split; [exact full_store_ok|].
  destruct (readers_agree full_store full_store_ok)
    as (pkts & conns & _ & Hlen & _ & Hrecent & _ & Hserial).
  exists conns. split; [exact Hlen|].
  split; [apply (Hrecent 5)|apply (Hserial "dev1" 5)].
Defined.

Lemma store_shape_kept_witness :
  (MaxPackets (mkConfig 0 7) < 2 ^ 63 /\ MaxConnections (mkConfig 0 7) < 2 ^ 63
   /\ store_ok full_store)
  /\ store_ok (New (mkConfig 0 7))
  /\ exists s', ClearDevice full_store "dev1" = Some s' /\ store_ok s'.
Proof.
  assert (H1 : MaxPackets (mkConfig 0 7) < 2 ^ 63) by reflexivity.
  assert (H2 : MaxConnections (mkConfig 0 7) < 2 ^ 63) by reflexivity.
  split; [split; [exact H1|split; [exact H2|exact full_store_ok]]|].
  destruct (store_shape_kept (mkConfig 0 7) full_store H1 H2 full_store_ok)
    as (Hnew & _ & _ & _ & _ & Hclear).
  split; [exact Hnew|apply (Hclear "dev1")].
Defined.

Lemma Clear_forgets_witness :
  (store_ok full_store /\ Z.of_nat (length [dev1_packet]) < 2 ^ 63)
  /\ exists s1 s2,
       AddPackets (Clear full_store) [dev1_packet] = Some s1
       /\ GetRecentPackets s1 3 = Some [dev1_packet]
       /\ AddConnection (Clear full_store) conn_a_later
          = Some (s2, onChange full_store)
       /\ GetRecentConnections s2 3 = Some [conn_a_later].
Proof.
  assert (H : Z.of_nat (length [dev1_packet]) < 2 ^ 63) by reflexivity.
  split; [split; [exact full_store_ok|exact H]|].
  destruct (Clear_forgets full_store [dev1_packet] conn_a_later full_store_ok H)
    as (s1 & s2 & E1 & _ & Hrecent & _ & E2 & _ & Hconns).
  exists s1, s2. split; [exact E1|].
  split; [apply (Hrecent 3); lia|].
  split; [exact E2|apply (Hconns 3); lia].
Defined.

Lemma evicted_key_rewrites_successor_witness :
  (store_ok full_store /\ connHead full_store + 1 < 2 ^ 63
   /\ connMap full_store !! connKey conn_a_later = Some 0%nat
   /\ connMap full_store !! connKey conn_b = None
   /\ Z.of_nat 0 = connHead full_store mod connMaxSize full_store)
  /\ exists s1 s2,
       AddConnection full_store conn_b = Some (s1, onChange full_store)
       /\ AddConnection s1 conn_a_later = Some (s2, None)
       /\ connections s2 = [entry_update conn_a_later conn_b]
       /\ conn_Serial (entry_update conn_a_later conn_b) = "dev2"
       /\ State (entry_update conn_a_later conn_b) = ConnTimeWait.
Proof.
  assert (H1 : connHead full_store + 1 < 2 ^ 63) by reflexivity.
  assert (H2 : connMap full_store !! connKey conn_a_later = Some 0%nat)
    by (vm_compute; reflexivity).
  assert (H3 : connMap full_store !! connKey conn_b = None)
    by (vm_compute; reflexivity).
  assert (H4 : Z.of_nat 0 = connHead full_store mod connMaxSize full_store)
    by reflexivity.
  split; [auto using full_store_ok|].
  destruct (evicted_key_rewrites_successor full_store conn_b conn_a_later 0
              full_store_ok H1 H2 H3 H4)
    as (s1 & s2 & E1 & _ & _ & E2 & Hconns & _).
  exists s1, s2. split; [exact E1|]. split; [exact E2|].
  split; [|split; reflexivity].
  rewrite Hconns.
  assert (Es1 : connections s1 = [conn_b]).
  { vm_compute in E1. inversion E1. reflexivity. }
  rewrite Es1. reflexivity.
Defined.

Lemma bridge_count_positive_witness :
  store_ok full_store
  /\ queryInt "-5" 200 = 200 /\ queryInt "abc" 200 = 200 /\ queryInt "7" 200 = 7
  /\ exists conns, handleGetRecentConnections full_store "-5" = Some conns.
Proof.
  split; [exact full_store_ok|].
  destruct (bridge_count_positive full_store "-5" full_store_ok)
    as (_ & _ & _ & conns & E & _).
  split; [reflexivity|]. split; [reflexivity|]. split; [reflexivity|].
  exists conns. exact E.
Defined.

End StoreQueriesFacts.

(** ** Package capture, continued: the parsers *)

Module CaptureMoreFacts.
Import GoLib GoLibFacts Net Regexp Capture CaptureFacts CaptureMore AdbReplyFacts.

Lemma wrap_u64_succ (x : Z) : wrap_u64 (wrap_u64 x + 1) = wrap_u64 (x + 1).
Proof.
  unfold wrap_u64. rewrite Zplus_mod_idemp_l. reflexivity.
Qed.

Lemma wrap_u16_range (x : Z) : 0 <= wrap_u16 x < 65536.
Proof. unfold wrap_u16. change (2 ^ 16) with 65536. apply Z.mod_pos_bound. lia. Qed.

Lemma parseHexAddr_port (addr ip : string) (port : Z) :
  parseHexAddr addr = inl (ip, port) -> 0 <= port < 65536.
Proof.
  unfold parseHexAddr.
  destruct (SplitN2 addr ":") as [|ipHex [|portHex [|x l]]]; try discriminate.
  destruct (parseHexIP ipHex); [|discriminate].
  destruct (ParseUint portHex 16 16) as [p [e|]]; [discriminate|].
  intros H. injection H as <- <-. apply wrap_u16_range.
Qed.

(** What [parseLine] returns: nothing and the parser as it was, or a
    connection with the next ID. *)
Lemma procnet_line_cases (p : ProcNetParser) (line : string) (proto : Protocol)
  (now : Time) :
  parseLine p line proto now = (None, p)
  \/ exists conn,
       parseLine p line proto now
       = (Some conn, mkProcNetParser (pn_serial p) (wrap_u64 (pn_nextID p + 1)))
       /\ conn_ID conn
          = pn_serial p ++ "-conn-" ++ fmt_d (wrap_u64 (pn_nextID p + 1))
       /\ conn_Serial conn = pn_serial p
       /\ conn_Protocol conn = proto
       /\ FirstSeen conn = now /\ LastSeen conn = now
       /\ 0 <= LocalPort conn < 65536 /\ 0 <= RemotePort conn < 65536.
Proof.
  unfold parseLine.
  destruct (Z.of_nat (length (Fields line)) <? 10); [left; reflexivity|].
  destruct (parseHexAddr (nth 1 (Fields line) "")) as [[localIP localPort]|] eqn:E1;
    [|left; reflexivity].
  destruct (parseHexAddr (nth 2 (Fields line) "")) as [[remoteIP remotePort]|] eqn:E2;
    [|left; reflexivity].
  destruct (_ && _); [left; reflexivity|].
  destruct (_ && _); [left; reflexivity|].
  right. eexists. split; [reflexivity|].
  cbn [conn_ID conn_Serial conn_Protocol FirstSeen LastSeen LocalPort RemotePort].
  repeat split; try reflexivity;
    first [apply (parseHexAddr_port _ _ _ E1)|apply (parseHexAddr_port _ _ _ E2)].
Qed.

Lemma parse_lines_emitted (lines : list string) (proto : Protocol) (now : Time)
  (p0 : ProcNetParser) :
  forall (p : ProcNetParser) (conns : list Connection),
    pn_serial p = pn_serial p0 ->
    wrap_u64 (pn_nextID p) = wrap_u64 (pn_nextID p0 + Z.of_nat (length conns)) ->
    (length conns = 0%nat -> pn_nextID p = pn_nextID p0) ->
    (forall i conn, conns !! i = Some conn -> emitted_by p0 proto now i conn) ->
    let r := parse_lines p lines proto now conns in
    pn_serial r.2 = pn_serial p0
    /\ wrap_u64 (pn_nextID r.2) = wrap_u64 (pn_nextID p0 + Z.of_nat (length r.1))
    /\ (length r.1 = 0%nat -> pn_nextID r.2 = pn_nextID p0)
    /\ (length r.1 <= length conns + length lines)%nat
    /\ (forall i conn, r.1 !! i = Some conn -> emitted_by p0 proto now i conn).
Proof.
  induction lines as [|line rest IH]; intros p conns Hs Hid H0 Hconns.
  - cbn. split; [|split; [|split; [|split]]]; try assumption. lia.
  - cbn [parse_lines].
    assert (Hskip : let r := parse_lines p rest proto now conns in
              pn_serial r.2 = pn_serial p0
              /\ wrap_u64 (pn_nextID r.2)
                 = wrap_u64 (pn_nextID p0 + Z.of_nat (length r.1))
              /\ (length r.1 = 0%nat -> pn_nextID r.2 = pn_nextID p0)
              /\ (length r.1 <= length conns + length (line :: rest))%nat
              /\ (forall i conn, r.1 !! i = Some conn -> emitted_by p0 proto now i conn)).
    { destruct (IH p conns Hs Hid H0 Hconns) as (A & B & C & D & E).
      cbn [length]. split; [|split; [|split; [|split]]]; try assumption. lia. }
    destruct (String.eqb (TrimSpace line) "" || HasPrefix (TrimSpace line) "sl");
      [exact Hskip|].
    destruct (procnet_line_cases p (TrimSpace line) proto now)
      as [E|(conn & E & Hconn)]; rewrite E; [exact Hskip|].
    destruct Hconn as (HID & HSer & HPr & HF & HL & HLP & HRP).
    destruct (IH (mkProcNetParser (pn_serial p) (wrap_u64 (pn_nextID p + 1)))
                 (conns ++ [conn])%list) as (A & B & C & D & E').
    + exact Hs.
    + cbn [pn_nextID]. rewrite length_app. cbn [length].
      unfold wrap_u64 in *. rewrite Zmod_mod.
      rewrite <- Zplus_mod_idemp_l, Hid, Zplus_mod_idemp_l. f_equal. lia.
    + rewrite length_app. cbn [length]. lia.
    + intros i c Hi.
      destruct (decide (i < length conns)%nat) as [Hlt|Hge].
      * rewrite lookup_app_l in Hi by exact Hlt. apply Hconns, Hi.
      * rewrite lookup_app_r in Hi by lia.
        destruct (i - length conns)%nat as [|k] eqn:Ek; [|destruct k; discriminate].
        injection Hi as <-. assert (i = length conns) as -> by lia.
        unfold emitted_by. rewrite HID, HSer, HPr, HF, HL, Hs.
        repeat split; try assumption; try lia.
        do 3 f_equal.
        unfold wrap_u64 in *.
        rewrite <- Zplus_mod_idemp_l, Hid, Zplus_mod_idemp_l. reflexivity.
    + cbn [length] in *. rewrite length_app in D. cbn [length] in D.
      split; [|split; [|split; [|split]]]; try assumption. lia.
Qed.

(** X18. What [ParseProcNet] emits, for any output text: the [i]-th
    connection has the ID [serial-conn-k] with [k] the counter of the parser
    plus [i + 1] (lines that are skipped use up no ID), the serial of the
    parser, the protocol given, both time stamps equal to the time of the
    call, and ports below 65536; there are at most as many connections as
    lines; the parser keeps its serial, its counter has advanced by the
    number of connections, and it is unchanged when nothing was emitted. *)
Theorem ParseProcNet_emits (p : ProcNetParser) (output : string)
  (proto : Protocol) (now : Time) :
  let r := ParseProcNet p output proto now in
  pn_serial r.2 = pn_serial p
  /\ wrap_u64 (pn_nextID r.2)
     = wrap_u64 (pn_nextID p + Z.of_nat (length r.1))
  /\ (r.1 = [] -> r.2 = p)
  /\ (length r.1 <= length (Split output "010"))%nat
  /\ (forall i conn, r.1 !! i = Some conn -> emitted_by p proto now i conn).
Proof.
  unfold ParseProcNet.
  destruct (parse_lines_emitted (Split output "010") proto now p p [])
    as (A & B & C & D & E).
  - reflexivity.
  - cbn [length]. rewrite Z.add_0_r. reflexivity.
  - reflexivity.
  - intros i conn Hi. rewrite lookup_nil in Hi. discriminate.
  - cbv zeta. split; [exact A|]. split; [exact B|].
    split; [|split; [exact D|exact E]].
    intros Hnil. rewrite Hnil in C. specialize (C eq_refl).
    destruct (parse_lines p (Split output "010") proto now []) as [conns p'].
    cbn [fst snd] in *. destruct p', p. cbn in *. congruence.
Qed.

(** *** The address text of [parseHexIP] *)

Lemma fmt_digits_cons (fuel : nat) (table : string) (base u : Z) (c : ascii)
  (acc : string) :
  exists c' s, fmt_digits fuel table base u (String c acc) = String c' s.
Proof.
  revert u c acc. induction fuel as [|fuel IH]; intros u c acc.
  - eexists _, _. reflexivity.
  - cbn [fmt_digits]. destruct (base <=? u); [apply IH|].
    eexists _, _. reflexivity.
Qed.

Lemma fmt_digits_S (fuel : nat) (table : string) (base u : Z) (acc : string) :
  exists c s, fmt_digits (S fuel) table base u acc = String c s.
Proof.
  cbn [fmt_digits]. destruct (base <=? u); [apply fmt_digits_cons|].
  eexists _, _. reflexivity.
Qed.

Lemma fmt_d_cons (u : Z) : exists c s, fmt_d u = String c s.
Proof. apply fmt_digits_S. Qed.

Lemma bytes_cases (P : Z -> Prop) :
  Forall P (seqZ 0 256) -> forall b, 0 <= b < 256 -> P b.
Proof.
  intros H b Hb. rewrite Forall_forall in H. apply H, elem_of_seqZ. lia.
Qed.

Lemma octet_then_dot (v : Z) :
  0 <= v < 256 ->
  forall (first prev_dot : bool) (c : ascii) (rest : string) (fields : list Z),
    parseIPv4Fields_loop (fmt_d v ++ String "." (String c rest))
      first prev_dot 0 0 0 fields
    = parseIPv4Fields_loop (String c rest) false true 0 1 0 (fields ++ [v])%list
    /\ parseIPv4Fields_loop (fmt_d v ++ String "." (String c rest))
         first prev_dot 0 1 0 fields
       = parseIPv4Fields_loop (String c rest) false true 0 2 0 (fields ++ [v])%list
    /\ parseIPv4Fields_loop (fmt_d v ++ String "." (String c rest))
         first prev_dot 0 2 0 fields
       = parseIPv4Fields_loop (String c rest) false true 0 3 0 (fields ++ [v])%list.
Proof.
  intros Hv. pattern v. revert v Hv. apply bytes_cases.
  let l := eval vm_compute in (seqZ 0 256) in change (seqZ 0 256) with l.
  repeat (apply List.Forall_cons;
          [intros first prev_dot c rest fields; split; [|split]; reflexivity|]).
  apply List.Forall_nil.
Qed.

Lemma octet_at_end (v : Z) :
  0 <= v < 256 ->
  forall (first prev_dot : bool) (fields : list Z),
    parseIPv4Fields_loop (fmt_d v) first prev_dot 0 3 0 fields
    = Some (fields ++ [v])%list.
Proof.
  intros Hv. pattern v. revert v Hv. apply bytes_cases.
  let l := eval vm_compute in (seqZ 0 256) in change (seqZ 0 256) with l.
  repeat (apply List.Forall_cons; [intros first prev_dot fields; reflexivity|]).
  apply List.Forall_nil.
Qed.

Lemma octet_first_separator (v : Z) :
  0 <= v < 256 ->
  forall rest, first_separator (fmt_d v ++ String "." rest) = Some "."%char.
Proof.
  intros Hv. pattern v. revert v Hv. apply bytes_cases.
  let l := eval vm_compute in (seqZ 0 256) in change (seqZ 0 256) with l.
  repeat (apply List.Forall_cons; [intros rest; reflexivity|]).
  apply List.Forall_nil.
Qed.

Lemma dotted_quad_parses (a b c d : Z) :
  0 <= a < 256 -> 0 <= b < 256 -> 0 <= c < 256 -> 0 <= d < 256 ->
  ParseIP (fmt_d a ++ "." ++ fmt_d b ++ "." ++ fmt_d c ++ "." ++ fmt_d d)
  = Some (v4 a b c d).
Proof.
  intros Ha Hb Hc Hd.
  assert (Hdot : forall s, "." ++ s = String "." s) by reflexivity.
  rewrite !Hdot.
  unfold ParseIP. rewrite octet_first_separator by exact Ha.
  unfold parseIPv4, parseIPv4Fields.
  destruct (fmt_d_cons b) as (cb & sb & Eb).
  destruct (fmt_d_cons c) as (cc & sc & Ec).
  destruct (fmt_d_cons d) as (cd & sd & Ed).
  assert (Hb' : fmt_d b ++ String "." (fmt_d c ++ String "." (fmt_d d))
                = String cb (sb ++ String "." (fmt_d c ++ String "." (fmt_d d))))
    by (rewrite Eb; reflexivity).
  rewrite Hb'.
  rewrite (proj1 (octet_then_dot a Ha true false cb _ [])).
  rewrite <- Hb'.
  assert (Hc' : fmt_d c ++ String "." (fmt_d d)
                = String cc (sc ++ String "." (fmt_d d)))
    by (rewrite Ec; reflexivity).
  rewrite Hc'.
  rewrite (proj1 (proj2 (octet_then_dot b Hb false true cc _ _))).
  rewrite <- Hc'.
  rewrite Ed at 1.
  rewrite (proj2 (proj2 (octet_then_dot c Hc false true cd sd _))).
  rewrite <- Ed.
  rewrite (octet_at_end d Hd). reflexivity.
Qed.

Lemma hex_pair_byte (hi lo : ascii) (a b : Z) :
  digit_val 16 hi = Some a -> digit_val 16 lo = Some b ->
  0 <= a * 16 + b < 256.
Proof.
  intros Ha Hb.
  apply digit_val_bound in Ha. apply digit_val_bound in Hb. lia.
Qed.

(** X19. [parseHexIP] on eight characters: it fails exactly when they are
    not hex digits; otherwise its text is the dotted quad of the four decoded
    bytes in reverse order, and [net.ParseIP] reads this text back as the
    address of these four bytes. *)
Theorem parseHexIP_v4_text (h : string) :
  len h = 8 ->
  match DecodeString h with
  | None => parseHexIP h = inr ErrHexDecode
  | Some b =>
      exists b0 b1 b2 b3 text,
        b = [b0; b1; b2; b3] /\ Forall is_byte b /\
        parseHexIP h = inl text /\
        text = fmt_d b3 ++ "." ++ fmt_d b2 ++ "." ++ fmt_d b1 ++ "." ++ fmt_d b0 /\
        ParseIP text = Some (v4 b3 b2 b1 b0)
  end.
Proof.
  intros Hlen. unfold parseHexIP. rewrite Hlen. change (8 =? 8) with true. cbv iota.
  unfold len in Hlen.
  destruct h as [|h0 [|h1 [|h2 [|h3 [|h4 [|h5 [|h6 [|h7 [|h8 h]]]]]]]]];
    cbn [String.length] in Hlen; try lia.
  cbn [DecodeString].
  destruct (digit_val 16 h0) as [a0|] eqn:E0; [|reflexivity].
  destruct (digit_val 16 h1) as [a1|] eqn:E1; [|reflexivity].
  destruct (digit_val 16 h2) as [a2|] eqn:E2; [|reflexivity].
  destruct (digit_val 16 h3) as [a3|] eqn:E3; [|reflexivity].
  destruct (digit_val 16 h4) as [a4|] eqn:E4; [|reflexivity].
  destruct (digit_val 16 h5) as [a5|] eqn:E5; [|reflexivity].
  destruct (digit_val 16 h6) as [a6|] eqn:E6; [|reflexivity].
  destruct (digit_val 16 h7) as [a7|] eqn:E7; [|reflexivity].
  pose proof (hex_pair_byte _ _ _ _ E0 E1) as H0.
  pose proof (hex_pair_byte _ _ _ _ E2 E3) as H1.
  pose proof (hex_pair_byte _ _ _ _ E4 E5) as H2.
  pose proof (hex_pair_byte _ _ _ _ E6 E7) as H3.
  eexists _, _, _, _, _. split; [reflexivity|].
  split; [repeat constructor; unfold is_byte; lia|].
  split; [reflexivity|]. split; [reflexivity|].
  unfold byte_at. cbn [nth]. apply dotted_quad_parses; assumption.
Qed.

Lemma parseHexIP_v4_text_witness :
  len "0101A8C0" = 8
  /\ exists text,
       parseHexIP "0101A8C0" = inl text /\ text = "192.168.1.1"
       /\ ParseIP text = Some (v4 192 168 1 1).
Proof.
  split; [reflexivity|].
  destruct (parseHexIP_v4_text "0101A8C0" eq_refl)
    as (b0 & b1 & b2 & b3 & text & Hb & _ & Htext & Heq & Hparse).
  injection Hb as <- <- <- <-.
  exists text. split; [exact Htext|]. split; [exact Heq|exact Hparse].
Defined.

(** *** The packets of a trace *)

Section StreamFacts.
Variable ClockTime : Type.
Variable time_Parse : string -> string -> option ClockTime.
Variable time_Date_on : Time -> ClockTime -> Time.

Local Abbreviation parse := (ParseLine ClockTime time_Parse time_Date_on).
Local Abbreviation stream_loop := (ParseStream_loop ClockTime time_Parse time_Date_on).
Local Abbreviation headers := (header_packets ClockTime time_Parse time_Date_on).

Lemma parseProtocol_cases (rest : string) :
  In (parseProtocol rest) [ProtoTCP; ProtoUDP; ProtoICMP].
Proof.
  unfold parseProtocol.
  destruct (Contains (ToLower rest) "udp"); [cbn; auto|].
  destruct (Contains (ToLower rest) "icmp"); cbn; auto.
Qed.

Lemma parsePort_range (s : string) : 0 <= parsePort s < 65536.
Proof.
  unfold parsePort, wrap_u16. change (2 ^ 16) with 65536.
  apply Z.mod_pos_bound. lia.
Qed.

(** [ParseLine] makes a packet exactly of the header lines. *)
Lemma trace_line_cases (p : TcpdumpParser) (now : Time) (line : string) :
  (is_header line = false /\ parse p now line = (None, p))
  \/ (is_header line = true /\
      exists pkt,
        parse p now line
        = (Some pkt, mkTcpdumpParser (td_serial p) (wrap_u64 (td_nextID p + 1)))
        /\ clear_HTTP pkt = pkt
        /\ Raw pkt = TrimSpace line
        /\ sent_by p 0 pkt).
Proof.
  unfold ParseLine, is_header.
  destruct (String.eqb (TrimSpace line) ""); [left; split; reflexivity|].
  destruct (FindStringSubmatch rePacketLine (TrimSpace line)) as [m|];
    [|left; split; reflexivity].
  right. split; [reflexivity|]. eexists. split; [reflexivity|].
  split; [reflexivity|]. split; [reflexivity|].
  unfold sent_by.
  cbn [pkt_ID pkt_Serial SrcPort DstPort pkt_Protocol Z.of_nat].
  rewrite Z.add_0_r.
  split; [reflexivity|]. split; [reflexivity|].
  split; [apply parsePort_range|]. split; [apply parsePort_range|].
  apply parseProtocol_cases.
Qed.

Lemma clear_HTTP_Enrich (pkt : NetworkPacket) (line : string) :
  exists pkt', EnrichWithHTTP (Some pkt) line = Some pkt'
               /\ clear_HTTP pkt' = clear_HTTP pkt.
Proof.
  unfold EnrichWithHTTP.
  destruct (FindStringSubmatch reHTTPRequest (TrimSpace line));
    [eexists; split; reflexivity|].
  destruct (FindStringSubmatch reHTTPResponse (TrimSpace line));
    [eexists; split; reflexivity|].
  destruct (FindStringSubmatch reHTTPHost (TrimSpace line));
    eexists; split; reflexivity.
Qed.

Lemma stream_loop_headers (clock : nat -> Time) (lines : list string) :
  forall (p : TcpdumpParser) (i : nat) (currentPkt : option NetworkPacket)
         (out : list NetworkPacket),
    let r := stream_loop p clock i lines currentPkt out in
    map clear_HTTP r.1
    = (map clear_HTTP (out ++ pending currentPkt)
         ++ (headers p clock i lines).1)%list
    /\ r.2 = (headers p clock i lines).2.
Proof.
  induction lines as [|line rest IH]; intros p i currentPkt out.
  - cbn. rewrite app_nil_r. destruct currentPkt; cbn; [split; reflexivity|].
    rewrite app_nil_r. split; reflexivity.
  - cbn [ParseStream_loop header_packets].
    destruct (trace_line_cases p (clock i) line)
      as [[_ E]|[_ (pkt & E & Hclear & _)]]; rewrite E.
    + destruct currentPkt as [cur|].
      * destruct (clear_HTTP_Enrich cur line) as (cur' & Ee & Hc).
        rewrite Ee. destruct (IH p (S i) (Some cur') out) as [A B].
        cbv zeta in *. rewrite A, B. split; [|reflexivity].
        cbn [pending]. rewrite !map_app. cbn [map]. rewrite Hc. reflexivity.
      * apply IH.
    + destruct (IH (mkTcpdumpParser (td_serial p) (wrap_u64 (td_nextID p + 1)))
                   (S i) (Some pkt)
                   (match currentPkt with
                    | Some prev => (out ++ [prev])%list
                    | None => out
                    end)) as [A B].
      cbv zeta in *. rewrite A, B.
      destruct (headers _ clock (S i) rest) as [pkts q]. cbn [fst snd].
      split; [|reflexivity].
      destruct currentPkt as [cur|]; cbn [pending];
        rewrite ?app_nil_r, !map_app; cbn [map]; rewrite Hclear, <- ?app_assoc;
        reflexivity.
Qed.

Lemma sent_by_clear_HTTP (p : TcpdumpParser) (i : nat) (pkt : NetworkPacket) :
  sent_by p i (clear_HTTP pkt) -> sent_by p i pkt.
Proof. intros H. exact H. Qed.

Lemma headers_shape (clock : nat -> Time) (p0 : TcpdumpParser)
  (lines : list string) :
  forall (p : TcpdumpParser) (i n : nat),
    td_serial p = td_serial p0 ->
    wrap_u64 (td_nextID p) = wrap_u64 (td_nextID p0 + Z.of_nat n) ->
    let h := headers p clock i lines in
    map Raw h.1 = map TrimSpace (List.filter is_header lines)
    /\ td_serial h.2 = td_serial p0
    /\ wrap_u64 (td_nextID h.2)
       = wrap_u64 (td_nextID p0 + Z.of_nat (n + length h.1))
    /\ (forall j pkt, h.1 !! j = Some pkt -> sent_by p0 (n + j) pkt).
Proof.
  induction lines as [|line rest IH]; intros p i n Hs Hid.
  - cbn. rewrite Nat.add_0_r.
    split; [reflexivity|]. split; [exact Hs|]. split; [exact Hid|].
    intros j pkt Hj. rewrite lookup_nil in Hj. discriminate.
  - cbn [header_packets List.filter].
    destruct (trace_line_cases p (clock i) line)
      as [[Hh E]|[Hh (pkt & E & _ & Hraw & Hsent)]]; rewrite E, Hh.
    + apply IH; assumption.
    + destruct (IH (mkTcpdumpParser (td_serial p) (wrap_u64 (td_nextID p + 1)))
                   (S i) (S n)) as (A & B & C & D).
      * exact Hs.
      * cbn [td_nextID]. unfold wrap_u64 in *. rewrite Zmod_mod.
        rewrite <- Zplus_mod_idemp_l, Hid, Zplus_mod_idemp_l. f_equal. lia.
      * cbv zeta in *.
        destruct (headers _ clock (S i) rest) as [pkts q]. cbn [fst snd] in *.
        split; [cbn [map]; rewrite Hraw, A; reflexivity|].
        split; [exact B|].
        split; [rewrite C; cbn [length]; f_equal; lia|].
        intros [|j] c Hj.
        -- cbn in Hj. injection Hj as <-.
           destruct Hsent as (HID & HSer & HSP & HDP & HPr).
           unfold sent_by. rewrite HID, HSer, Hs, Nat.add_0_r.
           split; [|auto].
           do 3 f_equal. rewrite Z.add_0_r.
           unfold wrap_u64 in *.
           rewrite <- Zplus_mod_idemp_l, Hid, Zplus_mod_idemp_l. reflexivity.
        -- cbn in Hj. replace (n + S j)%nat with (S n + j)%nat by lia.
           apply D, Hj.
Qed.

(** X20. [ParseStream] sends one packet for every header line of the trace,
    in the order of the lines and including the last one at the end of the
    input: up to the HTTP fields the packets sent are those that [ParseLine]
    makes of the lines, the other lines change nothing but HTTP fields.
    The [i]-th packet sent has the trimmed header line as [Raw], the ID
    [serial-k] with [k] the counter of the parser plus [i + 1], the serial of
    the parser, ports below 65536 and the protocol TCP, UDP or ICMP. *)
Theorem ParseStream_header_packets (p : TcpdumpParser) (clock : nat -> Time)
  (lines : list string) :
  let r := ParseStream ClockTime time_Parse time_Date_on p clock lines in
  let h := headers p clock 0%nat lines in
  map clear_HTTP r.1 = h.1 /\ r.2 = h.2
  /\ map Raw r.1 = map TrimSpace (List.filter is_header lines)
  /\ td_serial r.2 = td_serial p
  /\ wrap_u64 (td_nextID r.2)
     = wrap_u64 (td_nextID p + Z.of_nat (length r.1))
  /\ (forall i pkt, r.1 !! i = Some pkt -> sent_by p i pkt).
Proof.
  unfold ParseStream.
  destruct (stream_loop_headers clock lines p 0%nat None []) as [A B].
  destruct (headers_shape clock p lines p 0%nat 0%nat eq_refl)
    as (C & D & E & F).
  { cbn. rewrite Z.add_0_r. reflexivity. }
  cbv zeta in *. cbn [app pending map] in A.
  assert (Hlen : length (stream_loop p clock 0%nat lines None []).1
                 = length (headers p clock 0%nat lines).1).
  { rewrite <- A, length_map. reflexivity. }
  split; [exact A|]. split; [exact B|].
  split.
  { rewrite <- C, <- A, map_map. reflexivity. }
  split; [rewrite B; exact D|].
  split; [rewrite B, Hlen; exact E|].
  intros i pkt Hi. apply sent_by_clear_HTTP. apply (F i).
  rewrite <- A, list_lookup_fmap, Hi. reflexivity.
Qed.

End StreamFacts.

End CaptureMoreFacts.

(** ** Package capture, continued: the resolver *)

Module ResolverFacts.
Import GoLib GoLibFacts Net Capture CaptureFacts CaptureMore.

(** [isPrivateIP] never dereferences nil: the eight ranges parse. *)
Lemma contains_any_total (parsed : IP) (cidrs : list string) :
  Forall (fun o : option IPNet => o <> None) (map ParseCIDR cidrs) ->
  exists b, contains_any parsed cidrs = Some b.
Proof.
  induction cidrs as [|cidr rest IH]; intros Hall.
  - exists false. reflexivity.
  - cbn [map] in Hall. inversion Hall as [|? ? Hne Hrest]; subst.
    cbn [contains_any]. destruct (ParseCIDR cidr) as [network|]; [|congruence].
    destruct (IPNet_Contains network parsed); [exists true; reflexivity|].
    apply IH, Hrest.
Qed.

Lemma isPrivateIP_total (ip : string) : exists b, isPrivateIP ip = Some b.
Proof.
  unfold isPrivateIP. destruct (ParseIP ip) as [parsed|].
  - apply contains_any_total, privateRanges_all_parse.
  - exists false. reflexivity.
Qed.

Lemma ResolveHostname_miss (r : Resolver) (ip : string) :
  resolvable ip ->
  isPrivateIP ip = Some false ->
  dnsCache r !! ip = None ->
  snooper_silent r ip ->
  ResolveHostname r ip
  = if decide (ip ∈ dnsPend r) then
      Some ("", r, looked r ip ++ [ReadPending ip])%list
    else if Z.of_nat (length (dnsQueue r)) <? dnsQueue_capacity then
      Some ("",
            mkResolver (dnsCache r) ({[ip]} ∪ dnsPend r)
                       (dnsQueue r ++ [ip])%list (snooper r),
            looked r ip ++ [ReadPending ip; MarkPending ip; Enqueue ip])%list
    else
      Some ("",
            mkResolver (dnsCache r) ({[ip]} ∪ dnsPend r)
                       (dnsQueue r) (snooper r),
            looked r ip ++ [ReadPending ip; MarkPending ip; QueueFull ip])%list.
Proof.
  intros Hz Hpriv Hcache Hsilent.
  unfold resolvable in Hz.
  unfold ResolveHostname, looked. rewrite Hz, Hpriv, Hcache.
  unfold snooper_silent in Hsilent.
  destruct (snooper r) as [sn|]; [rewrite Hsilent|]; reflexivity.
Qed.

(** What a call can do to the resolver. *)
Lemma ResolveHostname_effect (r r' : Resolver) (ip host : string)
  (acc : list access) :
  ResolveHostname r ip = Some (host, r', acc) ->
  r' = r
  \/ (exists h, r' = mkResolver (<[ip := h]> (dnsCache r)) (dnsPend r)
                               (dnsQueue r) (snooper r)
                /\ ~ snooper_silent r ip)
  \/ ((ip ∉ dnsPend r)
      /\ Z.of_nat (length (dnsQueue r)) < dnsQueue_capacity
      /\ r' = mkResolver (dnsCache r) ({[ip]} ∪ dnsPend r)
                         (dnsQueue r ++ [ip])%list (snooper r))
  \/ ((ip ∉ dnsPend r)
      /\ r' = mkResolver (dnsCache r) ({[ip]} ∪ dnsPend r)
                         (dnsQueue r) (snooper r)).
Proof.
  unfold ResolveHostname.
  destruct (_ || _); [intros H; injection H as <- <- <-; left; reflexivity|].
  destruct (isPrivateIP ip) as [[|]|]; [|idtac|discriminate].
  { intros H; injection H as <- <- <-; left; reflexivity. }
  destruct (dnsCache r !! ip) as [cached|].
  { intros H; injection H as <- <- <-; left; reflexivity. }
  destruct (negb (String.eqb
                    match snooper r with Some sn => LookupIP sn ip | None => "" end
                    "")) eqn:Esn.
  { intros H; injection H as <- <- <-. right. left. eexists. split; [reflexivity|].
    unfold snooper_silent. destruct (snooper r) as [sn|].
    - intros Hs. rewrite Hs in Esn. discriminate.
    - discriminate. }
  destruct (decide (ip ∈ dnsPend r)) as [Hin|Hnin].
  { intros H; injection H as <- <- <-; left; reflexivity. }
  destruct (Z.of_nat (length (dnsQueue r)) <? dnsQueue_capacity) eqn:Eq.
  - intros H; injection H as <- <- <-. right. right. left.
    apply Z.ltb_lt in Eq. auto.
  - intros H; injection H as <- <- <-. right. right. right. auto.
Qed.

Lemma dropped_step (r r' : Resolver) (ip : string) :
  dropped r ip -> resolver_step r r' -> dropped r' ip.
Proof.
  intros (Hpend & Hqueue & Hcache & Hsilent) Hstep.
  destruct Hstep as [r ip' host r' acc E|r net_host r' E].
  - apply ResolveHostname_effect in E
      as [->|[(h & -> & Hloud)|[(Hnin & _ & ->)|(Hnin & ->)]]].
    + repeat split; assumption.
    + assert (ip' <> ip) by (intros ->; contradiction).
      unfold dropped, snooper_silent in *.
      cbn [dnsPend dnsQueue dnsCache snooper].
      rewrite lookup_insert_ne by assumption. auto.
    + assert (ip' <> ip) by (intros ->; contradiction).
      unfold dropped, snooper_silent in *.
      cbn [dnsPend dnsQueue dnsCache snooper].
      split; [apply elem_of_union_r; exact Hpend|].
      split; [|auto].
      rewrite elem_of_app, list_elem_of_singleton. intros [?|?]; congruence.
    + unfold dropped, snooper_silent in *.
      cbn [dnsPend dnsQueue dnsCache snooper].
      split; [apply elem_of_union_r; exact Hpend|auto].
  - unfold dnsWorker_step in E.
    destruct (dnsQueue r) as [|ip' rest] eqn:Eq; [discriminate|].
    injection E as <-.
    assert (ip' <> ip).
    { intros ->. apply Hqueue. left. }
    unfold dropped, snooper_silent in *.
    cbn [dnsPend dnsQueue dnsCache snooper].
    rewrite lookup_insert_ne by assumption.
    split; [apply elem_of_difference; split;
            [exact Hpend|rewrite elem_of_singleton; congruence]|].
    split; [|auto].
    intros Hin. apply Hqueue. right. exact Hin.
Qed.

Lemma dropped_steps (r r' : Resolver) (ip : string) :
  dropped r ip -> resolver_steps r r' -> dropped r' ip.
Proof.
  intros Hd Hsteps. induction Hsteps as [r|r1 r2 r3 _ IH Hstep]; [exact Hd|].
  apply (dropped_step r2); [apply IH, Hd|exact Hstep].
Qed.

(** X21. An address dropped at a full queue is never resolved.  When
    [ResolveHostname] finds the queue full it has already marked the address
    pending; the address is in no queue, so no worker stores a name for it or
    deletes the mark, and every later call for it, after any calls and worker
    rounds, returns the empty string without queueing it: as long as the
    snooper has no name for it, the address has no cache entry for good. *)
Theorem full_queue_drops_forever (r : Resolver) (ip : string) :
  resolvable ip -> isPrivateIP ip = Some false ->
  dnsCache r !! ip = None -> snooper_silent r ip ->
  (ip ∉ dnsPend r) -> (ip ∉ dnsQueue r) ->
  dnsQueue_capacity <= Z.of_nat (length (dnsQueue r)) ->
  exists r1,
    ResolveHostname r ip
    = Some ("", r1,
            (looked r ip ++ [ReadPending ip; MarkPending ip; QueueFull ip])%list)
    /\ dnsQueue r1 = dnsQueue r
    /\ forall r2,
         resolver_steps r1 r2 ->
         dnsCache r2 !! ip = None /\ (ip ∉ dnsQueue r2)
         /\ ResolveHostname r2 ip
            = Some ("", r2, (looked r2 ip ++ [ReadPending ip])%list).
Proof.
  intros Hres Hpriv Hcache Hsilent Hpend Hqueue Hfull.
  eexists. split.
  { rewrite ResolveHostname_miss by assumption.
    destruct (decide (ip ∈ dnsPend r)) as [Hin|_]; [contradiction|].
    destruct (Z.of_nat (length (dnsQueue r)) <? dnsQueue_capacity) eqn:E;
      [apply Z.ltb_lt in E; lia|]. reflexivity. }
  split; [reflexivity|].
  intros r2 Hsteps.
  assert (Hd0 : dropped (mkResolver (dnsCache r) ({[ip]} ∪ dnsPend r)
                           (dnsQueue r) (snooper r)) ip).
  { unfold dropped, snooper_silent in *.
    cbn [dnsPend dnsQueue dnsCache snooper].
    split; [apply elem_of_union_l, elem_of_singleton; reflexivity|auto]. }
  destruct (dropped_steps _ _ _ Hd0 Hsteps) as (Hp2 & Hq2 & Hc2 & Hs2).
  split; [exact Hc2|]. split; [exact Hq2|].
  rewrite ResolveHostname_miss by assumption.
  destruct (decide (ip ∈ dnsPend r2)) as [_|Hn]; [reflexivity|contradiction].
Qed.

Lemma full_queue_drops_forever_witness :
  (resolvable "1.1.1.1" /\ isPrivateIP "1.1.1.1" = Some false
   /\ dnsCache full_resolver !! "1.1.1.1" = None
   /\ snooper_silent full_resolver "1.1.1.1"
   /\ ("1.1.1.1" ∉ dnsPend full_resolver)
   /\ ("1.1.1.1" ∉ dnsQueue full_resolver)
   /\ dnsQueue_capacity <= Z.of_nat (length (dnsQueue full_resolver)))
  /\ exists r1,
       ResolveHostname full_resolver "1.1.1.1"
       = Some ("", r1,
               [ReadCache "1.1.1.1"; ReadPending "1.1.1.1";
                MarkPending "1.1.1.1"; QueueFull "1.1.1.1"])
       /\ forall r2, resolver_steps r1 r2 ->
                     dnsCache r2 !! "1.1.1.1" = None.
Proof.
  assert (H1 : resolvable "1.1.1.1") by reflexivity.
  assert (H2 : isPrivateIP "1.1.1.1" = Some false) by (vm_compute; reflexivity).
  assert (H3 : dnsCache full_resolver !! "1.1.1.1" = None) by reflexivity.
  assert (H4 : snooper_silent full_resolver "1.1.1.1") by exact I.
  assert (H5 : "1.1.1.1" ∉ dnsPend full_resolver)
    by (apply (bool_decide_unpack _); vm_compute; exact I).
  assert (H6 : "1.1.1.1" ∉ dnsQueue full_resolver)
    by (apply (bool_decide_unpack _); vm_compute; exact I).
  assert (H7 : dnsQueue_capacity <= Z.of_nat (length (dnsQueue full_resolver)))
    by (vm_compute; discriminate).
  split; [auto 10|].
  destruct (full_queue_drops_forever full_resolver "1.1.1.1" H1 H2 H3 H4 H5 H6 H7)
    as (r1 & E & _ & Hforever).
  exists r1. split; [exact E|].
  intros r2 Hsteps. apply (Hforever r2 Hsteps).
Defined.

(** *** The queue *)

Lemma queue_ok_step (r r' : Resolver) :
  queue_ok r -> resolver_step r r' -> queue_ok r'.
Proof.
  intros (Hlen & Hnd & Hsub) Hstep.
  destruct Hstep as [r ip host r' acc E|r net_host r' E].
  - apply ResolveHostname_effect in E
      as [->|[(h & -> & _)|[(Hnin & Hroom & ->)|(Hnin & ->)]]].
    + repeat split; assumption.
    + repeat split; assumption.
    + unfold queue_ok. cbn [dnsQueue dnsPend].
      split; [rewrite length_app; cbn [length]; lia|].
      split.
      * apply NoDup_app. split; [exact Hnd|].
        split; [|apply NoDup_singleton].
        intros x Hx Hx'. apply list_elem_of_singleton in Hx'. subst x.
        apply Hnin, Hsub, Hx.
      * intros x Hx. apply elem_of_app in Hx as [Hx|Hx].
        -- apply elem_of_union_r, Hsub, Hx.
        -- apply list_elem_of_singleton in Hx. subst x.
           apply elem_of_union_l, elem_of_singleton. reflexivity.
    + unfold queue_ok. cbn [dnsQueue dnsPend].
      split; [exact Hlen|]. split; [exact Hnd|].
      intros x Hx. apply elem_of_union_r, Hsub, Hx.
  - unfold dnsWorker_step in E.
    destruct (dnsQueue r) as [|ip rest] eqn:Eq; [discriminate|].
    injection E as <-.
    unfold queue_ok. cbn [dnsQueue dnsPend].
    apply NoDup_cons in Hnd as [Hnotin Hnd].
    split; [cbn [length] in Hlen; lia|]. split; [exact Hnd|].
    intros x Hx. apply elem_of_difference. split.
    + apply Hsub. right. exact Hx.
    + rewrite elem_of_singleton. intros ->. contradiction.
Qed.

(** X22. Whatever calls of [ResolveHostname] and rounds of the workers a new
    resolver goes through, its queue holds at most 256 addresses, holds no
    address twice, and holds only addresses that are marked pending. *)
Theorem queue_bounded_without_repeats (sn : option LogcatSnooper)
  (r : Resolver) :
  resolver_steps (NewResolver sn) r -> queue_ok r.
Proof.
  intros Hsteps.
  remember (NewResolver sn) as r0 eqn:E0.
  induction Hsteps as [r|r1 r2 r3 _ IH Hstep].
  - subst r. unfold queue_ok, NewResolver. cbn [dnsQueue dnsPend length].
    split; [unfold dnsQueue_capacity; lia|]. split; [apply NoDup_nil_2|].
    intros ip Hip. apply elem_of_nil in Hip. contradiction.
  - apply (queue_ok_step r2); [apply IH, E0|exact Hstep].
Qed.

Lemma queue_bounded_without_repeats_witness :
  exists r,
    resolver_steps (NewResolver None) r
    /\ dnsQueue r = ["1.1.1.1"] /\ queue_ok r.
Proof.
  set (r := mkResolver ∅ ({["1.1.1.1"]} ∪ ∅) ["1.1.1.1"] None).
  assert (H : resolver_steps (NewResolver None) r).
  { apply (steps_step _ (NewResolver None)); [apply steps_refl|].
    apply (step_ResolveHostname _ "1.1.1.1" ""
             _ [ReadCache "1.1.1.1"; ReadPending "1.1.1.1";
                MarkPending "1.1.1.1"; Enqueue "1.1.1.1"]).
    vm_compute. reflexivity. }
  exists r. split; [exact H|]. split; [reflexivity|].
  apply (queue_bounded_without_repeats None r H).
Defined.

(** *** Failed lookups *)

(** X23. A failed lookup is cached: when the worker finds no name for the
    address at the head of the queue it stores the empty string for it and
    deletes the pending mark; from then on [ResolveHostname] answers the
    empty string from the cache alone, with no look at the snooper, whatever
    the snooper has learned in the meantime, and nothing is queued again. *)
Theorem failed_lookup_is_cached (r : Resolver) (ip : string)
  (rest : list string) :
  dnsQueue r = ip :: rest -> resolvable ip -> isPrivateIP ip = Some false ->
  snooper_silent r ip ->
  exists r',
    dnsWorker_step r "" = Some r'
    /\ dnsCache r' !! ip = Some ""
    /\ (ip ∉ dnsPend r')
    /\ dnsQueue r' = rest
    /\ forall sn,
         ResolveHostname (set_snooper sn r') ip
         = Some ("", set_snooper sn r', [ReadCache ip]).
Proof.
  intros Hq Hres Hpriv Hsilent.
  assert (Hhost : doReverseDNS r ip "" = "").
  { unfold doReverseDNS. unfold snooper_silent in Hsilent.
    destruct (snooper r) as [sn|]; [rewrite Hsilent|]; reflexivity. }
  eexists. split; [unfold dnsWorker_step; rewrite Hq, Hhost; reflexivity|].
  cbn [dnsCache dnsPend dnsQueue].
  split; [apply lookup_insert_eq|].
  split.
  { intros Hin. apply elem_of_difference in Hin as [_ Hn].
    apply Hn, elem_of_singleton. reflexivity. }
  split; [reflexivity|].
  intros sn. unfold ResolveHostname. unfold resolvable in Hres.
  rewrite Hres, Hpriv. cbn [set_snooper dnsCache].
  rewrite lookup_insert_eq. reflexivity.
Qed.

Lemma failed_lookup_is_cached_witness :
  exists r',
    dnsWorker_step (mkResolver ∅ {["1.1.1.1"]} ["1.1.1.1"] None) "" = Some r'
    /\ forall sn,
         ResolveHostname (set_snooper sn r') "1.1.1.1"
         = Some ("", set_snooper sn r', [ReadCache "1.1.1.1"]).
Proof.
  destruct (failed_lookup_is_cached
              (mkResolver ∅ {["1.1.1.1"]} ["1.1.1.1"] None) "1.1.1.1" []
              eq_refl eq_refl ltac:(vm_compute; reflexivity) I)
    as (r' & E & _ & _ & _ & H).
  exists r'. split; [exact E|exact H].
Defined.

(** *** The private ranges, exactly *)

Lemma land_255_byte (b : Z) : 0 <= b < 256 -> Z.land b 255 = b.
Proof.
  intros Hb.
  pose proof (byte_cases (fun b => Z.land b 255 =? b) eq_refl b Hb) as H.
  apply Z.eqb_eq, H.
Qed.

Lemma land_240_inv (b : Z) : 0 <= b < 256 -> Z.land b 240 = 16 -> 16 <= b <= 31.
Proof.
  intros Hb E.
  pose proof (byte_cases
    (fun b => implb (Z.land b 240 =? 16) ((16 <=? b) && (b <=? 31)))
    eq_refl b Hb) as H.
  cbv beta in H. rewrite E in H. cbn [Z.eqb Pos.eqb implb] in H.
  apply andb_true_iff in H as [H1 H2].
  apply Z.leb_le in H1. apply Z.leb_le in H2. lia.
Qed.

Lemma land_192_inv (b : Z) : 0 <= b < 256 -> Z.land b 192 = 128 -> 128 <= b <= 191.
Proof.
  intros Hb E.
  pose proof (byte_cases
    (fun b => implb (Z.land b 192 =? 128) ((128 <=? b) && (b <=? 191)))
    eq_refl b Hb) as H.
  cbv beta in H. rewrite E in H. cbn [Z.eqb Pos.eqb implb] in H.
  apply andb_true_iff in H as [H1 H2].
  apply Z.leb_le in H1. apply Z.leb_le in H2. lia.
Qed.

Lemma land_254_inv (b : Z) : 0 <= b < 256 -> Z.land b 254 = 252 -> 252 <= b <= 253.
Proof.
  intros Hb E.
  pose proof (byte_cases
    (fun b => implb (Z.land b 254 =? 252) ((252 <=? b) && (b <=? 253)))
    eq_refl b Hb) as H.
  cbv beta in H. rewrite E in H. cbn [Z.eqb Pos.eqb implb] in H.
  apply andb_true_iff in H as [H1 H2].
  apply Z.leb_le in H1. apply Z.leb_le in H2. lia.
Qed.

(** The eight networks, one by one. *)
Lemma contains_any_privateRanges (parsed : IP) :
  contains_any parsed privateRanges =
  Some (IPNet_Contains (mkIPNet [10; 0; 0; 0] [255; 0; 0; 0]) parsed
        || IPNet_Contains (mkIPNet [172; 16; 0; 0] [255; 240; 0; 0]) parsed
        || IPNet_Contains (mkIPNet [192; 168; 0; 0] [255; 255; 0; 0]) parsed
        || IPNet_Contains (mkIPNet [127; 0; 0; 0] [255; 0; 0; 0]) parsed
        || IPNet_Contains (mkIPNet [169; 254; 0; 0] [255; 255; 0; 0]) parsed
        || IPNet_Contains
             (mkIPNet [0; 0; 0; 0; 0; 0; 0; 0; 0; 0; 0; 0; 0; 0; 0; 1]
                      (replicate 16 255)) parsed
        || IPNet_Contains
             (mkIPNet (254 :: 128 :: replicate 14 0)
                      (255 :: 192 :: replicate 14 0)) parsed
        || IPNet_Contains
             (mkIPNet (252 :: replicate 15 0) (254 :: replicate 15 0)) parsed).
Proof.
  unfold privateRanges. cbn [contains_any].
  repeat match goal with
         | |- context [ParseCIDR ?s] =>
             let v := eval vm_compute in (ParseCIDR s) in
             change (ParseCIDR s) with v
         end.
  cbv iota. cbn [replicate].
  repeat match goal with
         | |- context [IPNet_Contains ?n parsed] =>
             destruct (IPNet_Contains n parsed); try reflexivity
         end.
Qed.

Ltac bytes_of H :=
  repeat match type of H with
         | Forall _ (_ :: _) =>
             let Hb := fresh "Hb" in
             apply Forall_cons in H as [Hb H]; unfold is_byte in Hb
         end.

Lemma eqb_land_255 (n b : Z) :
  0 <= b < 256 -> 0 <= n < 256 -> (Z.land n 255 =? Z.land b 255) = true -> b = n.
Proof.
  intros Hb Hn H. apply Z.eqb_eq in H.
  rewrite !land_255_byte in H by assumption. congruence.
Qed.

Lemma Contains_unmapped (n : IPNet) (nn m addr : list Z) :
  networkNumberAndMask n = Some (nn, m) -> To4 addr = None ->
  IPNet_Contains n addr
  = if negb (length addr =? length nn)%nat then false
    else same_masked nn m addr.
Proof.
  intros Hn H4. unfold IPNet_Contains. rewrite Hn, H4. reflexivity.
Qed.

Lemma contained_private_range (parsed : IP) :
  length parsed = 16%nat -> Forall is_byte parsed ->
  contains_any parsed privateRanges = Some true -> private_range parsed.
Proof.
  intros Hlen Hbytes. rewrite contains_any_privateRanges.
  do 17 (destruct parsed as [|? parsed]; try discriminate Hlen).
  clear Hlen. bytes_of Hbytes. clear Hbytes.
  match goal with
  | |- context [IPNet_Contains _ ?ip] => set (addr := ip)
  end.
  destruct (To4 addr) as [ip4|] eqn:E4.
  - (* an IPv4-mapped address *)
    assert (Haddr : addr = v4 z11 z12 z13 z14).
    { unfold To4, addr in E4. cbn [length] in E4.
      change (Z.of_nat 16 =? IPv4len) with false in E4.
      change (Z.of_nat 16 =? IPv6len) with true in E4.
      cbv iota in E4. cbn [take forallb andb nth] in E4.
      destruct (_ && _) eqn:E in E4; [|discriminate].
      repeat match goal with
             | H : _ && _ = true |- _ => apply andb_true_iff in H as [? ?]
             end.
      repeat match goal with
             | H : (_ =? _) = true |- _ => apply Z.eqb_eq in H
             end.
      unfold addr. subst. reflexivity. }
    rewrite Haddr. rewrite !Contains_v4.
    repeat match goal with
           | |- context [IPNet_Contains ?n (v4 ?a ?b ?c ?d)] =>
               change (IPNet_Contains n (v4 a b c d)) with false
           end.
    rewrite !Z.land_0_r, !orb_false_r. change (0 =? 0) with true.
    rewrite !andb_true_r.
    intros H. apply (inj Some) in H.
    repeat (apply orb_true_iff in H as [H|H]).
    + apply eqb_land_255 in H; [|lia|lia]. subst. constructor; unfold is_byte; lia.
    + apply andb_true_iff in H as [H1 H2].
      apply eqb_land_255 in H1; [|lia|lia]. subst.
      apply Z.eqb_eq in H2. change (Z.land 16 240) with 16 in H2.
      symmetry in H2. apply land_240_inv in H2; [|lia].
      constructor; unfold is_byte; lia.
    + apply andb_true_iff in H as [H1 H2].
      apply eqb_land_255 in H1; [|lia|lia]. apply eqb_land_255 in H2; [|lia|lia].
      subst. constructor; unfold is_byte; lia.
    + apply eqb_land_255 in H; [|lia|lia]. subst. constructor; unfold is_byte; lia.
    + apply andb_true_iff in H as [H1 H2].
      apply eqb_land_255 in H1; [|lia|lia]. apply eqb_land_255 in H2; [|lia|lia].
      subst. constructor; unfold is_byte; lia.
  - (* any other address *)
    rewrite (Contains_unmapped (mkIPNet [10; 0; 0; 0] [255; 0; 0; 0]) [10; 0; 0; 0] [255; 0; 0; 0] addr eq_refl E4).
    rewrite (Contains_unmapped (mkIPNet [172; 16; 0; 0] [255; 240; 0; 0]) [172; 16; 0; 0] [255; 240; 0; 0] addr eq_refl E4).
    rewrite (Contains_unmapped (mkIPNet [192; 168; 0; 0] [255; 255; 0; 0]) [192; 168; 0; 0] [255; 255; 0; 0] addr eq_refl E4).
    rewrite (Contains_unmapped (mkIPNet [127; 0; 0; 0] [255; 0; 0; 0]) [127; 0; 0; 0] [255; 0; 0; 0] addr eq_refl E4).
    rewrite (Contains_unmapped (mkIPNet [169; 254; 0; 0] [255; 255; 0; 0]) [169; 254; 0; 0] [255; 255; 0; 0] addr eq_refl E4).
    rewrite (Contains_unmapped
               (mkIPNet [0; 0; 0; 0; 0; 0; 0; 0; 0; 0; 0; 0; 0; 0; 0; 1]
                        (replicate 16 255))
               [0; 0; 0; 0; 0; 0; 0; 0; 0; 0; 0; 0; 0; 0; 0; 1]
               (replicate 16 255) addr eq_refl E4).
    rewrite (Contains_unmapped
               (mkIPNet (254 :: 128 :: replicate 14 0)
                        (255 :: 192 :: replicate 14 0))
               (254 :: 128 :: replicate 14 0)
               (255 :: 192 :: replicate 14 0) addr eq_refl E4).
    rewrite (Contains_unmapped
               (mkIPNet (252 :: replicate 15 0) (254 :: replicate 15 0))
               (252 :: replicate 15 0)
               (254 :: replicate 15 0) addr eq_refl E4).
    unfold addr. cbn [length Nat.eqb negb orb replicate same_masked].
    rewrite !Z.land_0_r. change (0 =? 0) with true. rewrite !andb_true_r.
    intros H. apply (inj Some) in H.
    repeat (apply orb_true_iff in H as [H|H]).
    + repeat match goal with
             | H : _ && _ = true |- _ => apply andb_true_iff in H as [? ?]
             end.
      repeat match goal with
             | H : (Z.land _ 255 =? Z.land _ 255) = true |- _ =>
                 apply eqb_land_255 in H; [|lia|lia]
             end.
      subst. apply in_loopback_128.
    + apply andb_true_iff in H as [H1 H2].
      apply eqb_land_255 in H1; [|lia|lia].
      apply Z.eqb_eq in H2. change (Z.land 128 192) with 128 in H2.
      symmetry in H2. apply land_192_inv in H2; [|lia].
      subst. apply in_fe80_10; [lia|reflexivity|].
      repeat constructor; unfold is_byte; lia.
    + apply Z.eqb_eq in H. change (Z.land 252 254) with 252 in H.
      symmetry in H. apply land_254_inv in H; [|lia].
      apply in_fc00_7; [lia|reflexivity|].
      repeat constructor; unfold is_byte; lia.
Qed.

(** X24. [isPrivateIP] answers true for exactly the eight ranges: for a text
    that [net.ParseIP] reads as a 16-byte address, it is true if and only if
    the address lies in 10.0.0.0/8, 172.16.0.0/12, 192.168.0.0/16,
    127.0.0.0/8, 169.254.0.0/16, ::1/128, fe80::/10 or fc00::/7, and false
    otherwise; it never fails on a range that does not parse. *)
Theorem isPrivateIP_exact (ip : string) (parsed : IP) :
  ParseIP ip = Some parsed -> length parsed = 16%nat -> Forall is_byte parsed ->
  (isPrivateIP ip = Some true <-> private_range parsed)
  /\ (isPrivateIP ip = Some false <-> ~ private_range parsed).
Proof.
  intros Hparse Hlen Hbytes.
  assert (Hiff : isPrivateIP ip = Some true <-> private_range parsed).
  { unfold isPrivateIP. rewrite Hparse. split.
    - apply contained_private_range; assumption.
    - apply private_range_contained. }
  split; [exact Hiff|].
  assert (Htotal : exists b, isPrivateIP ip = Some b).
  { unfold isPrivateIP. rewrite Hparse, contains_any_privateRanges. eauto. }
  destruct Htotal as [[|] Hb]; rewrite Hb; split.
  - discriminate.
  - intros Hn. exfalso. apply Hn, Hiff, Hb.
  - intros _ Hr. apply Hiff in Hr. congruence.
  - reflexivity.
Qed.

Lemma isPrivateIP_exact_witness :
  ParseIP "172.32.0.1" = Some (v4 172 32 0 1)
  /\ isPrivateIP "172.32.0.1" = Some false
  /\ ~ private_range (v4 172 32 0 1).
Proof.
  assert (H1 : ParseIP "172.32.0.1" = Some (v4 172 32 0 1)) by reflexivity.
  assert (H2 : Forall is_byte (v4 172 32 0 1))
    by (repeat constructor; unfold is_byte; lia).
  assert (H3 : isPrivateIP "172.32.0.1" = Some false) by (vm_compute; reflexivity).
  split; [exact H1|]. split; [exact H3|].
  apply (isPrivateIP_exact "172.32.0.1" (v4 172 32 0 1) H1 eq_refl H2), H3.
Defined.

End ResolverFacts.

(** ** Package store, continued: the keys *)

Module StoreKeysFacts.
Import GoLib GoLibFacts Capture Store StoreFacts StoreQueries AdbReplyFacts.

Lemma digit_char (d : Z) :
  0 <= d < 10 ->
  digit_val 10 (to_byte (wrap_u8 d + byte_val "0")) = Some d.
Proof.
  intros Hd.
  assert (d = 0 \/ d = 1 \/ d = 2 \/ d = 3 \/ d = 4 \/ d = 5 \/ d = 6 \/ d = 7
          \/ d = 8 \/ d = 9) as H by lia.
  repeat (destruct H as [->|H]; [reflexivity|]). subst. reflexivity.
Qed.

Lemma uitoa_loop_value (fuel : nat) :
  forall (u : Z) (buf : string),
    0 <= u < 10 ^ Z.of_nat fuel ->
    digits_value 10 (uitoa_loop fuel u buf) 0 = digits_value 10 buf u.
Proof.
  induction fuel as [|fuel IH]; intros u buf Hu.
  - cbn in Hu. assert (u = 0) as -> by lia. reflexivity.
  - cbn [uitoa_loop].
    destruct (0 <? u) eqn:E; [apply Z.ltb_lt in E|apply Z.ltb_ge in E].
    + rewrite IH.
      * cbn [digits_value].
        rewrite digit_char by (apply Z.mod_pos_bound; lia).
        f_equal. pose proof (Z.div_mod u 10 ltac:(lia)). lia.
      * rewrite Nat2Z.inj_succ, Z.pow_succ_r in Hu by lia.
        split; [apply Z.div_pos; lia|].
        apply Z.div_lt_upper_bound; lia.
    + assert (u = 0) as -> by lia. reflexivity.
Qed.

Lemma uitoa_value (u : Z) :
  0 <= u < 2 ^ 64 -> digits_value 10 (uitoa u) 0 = Some u.
Proof.
  intros Hu. unfold uitoa.
  destruct (u =? 0) eqn:E; [apply Z.eqb_eq in E; subst; reflexivity|].
  rewrite uitoa_loop_value; [reflexivity|].
  change (2 ^ 64) with 18446744073709551616 in Hu.
  change (10 ^ Z.of_nat 20) with 100000000000000000000. lia.
Qed.

(** A text that reads as a number is made of digits. *)
Lemma digits_no_char (c : ascii) (s : string) :
  digit_val 10 c = None ->
  forall acc n, digits_value 10 s acc = Some n -> has_char c s = false.
Proof.
  intros Hc. induction s as [|x s IH]; intros acc n H; [reflexivity|].
  cbn [digits_value] in H. cbn [has_char].
  destruct (digit_val 10 x) as [d|] eqn:Ex; [|discriminate].
  destruct (Ascii.eqb_spec x c) as [->|_]; [congruence|].
  apply (IH _ _ H).
Qed.

Lemma uitoa_cons (u : Z) :
  0 <= u < 2 ^ 64 ->
  exists c s, uitoa u = String c s /\ c <> "-"%char /\ c <> "+"%char.
Proof.
  intros Hu. pose proof (uitoa_value u Hu) as Hv.
  destruct (uitoa u) as [|c s] eqn:E.
  - unfold uitoa in E. destruct (u =? 0) eqn:E0; [discriminate|].
    apply Z.eqb_neq in E0. cbn in Hv. congruence.
  - exists c, s. split; [reflexivity|].
    cbn [digits_value] in Hv.
    destruct (digit_val 10 c) eqn:Ec; [|discriminate].
    split; intros ->; discriminate.
Qed.

(** X25. [itoa] of the store writes the decimal numeral of every [int]:
    [strconv.Atoi] reads it back with no error, the smallest [int]
    included. *)
Theorem itoa_Atoi_round_trip (i : Z) :
  - 2 ^ 63 <= i < 2 ^ 63 -> Atoi (itoa i) = (i, None).
Proof.
  intros Hi. change (2 ^ 63) with 9223372036854775808 in Hi.
  unfold itoa.
  destruct (i <? 0) eqn:E; [apply Z.ltb_lt in E|apply Z.ltb_ge in E].
  - assert (Hw : wrap_u64 (- i) = - i).
    { unfold wrap_u64. apply Z.mod_small.
      change (2 ^ 64) with 18446744073709551616. lia. }
    rewrite Hw.
    assert (Hu : 0 <= - i < 2 ^ 64)
      by (change (2 ^ 64) with 18446744073709551616; lia).
    destruct (uitoa_cons _ Hu) as (c & s & Es & _ & _).
    pose proof (uitoa_value _ Hu) as Hv. rewrite Es in *.
    change ("-" ++ String c s) with (String "-" (String c s)).
    unfold Atoi. rewrite Hv.
    destruct (2 ^ 63 <? - i) eqn:E2.
    { apply Z.ltb_lt in E2. change (2 ^ 63) with 9223372036854775808 in E2. lia. }
    rewrite Z.opp_involutive. reflexivity.
  - assert (Hw : wrap_u64 i = i).
    { unfold wrap_u64. apply Z.mod_small.
      change (2 ^ 64) with 18446744073709551616. lia. }
    rewrite Hw.
    assert (Hu : 0 <= i < 2 ^ 64)
      by (change (2 ^ 64) with 18446744073709551616; lia).
    destruct (uitoa_cons _ Hu) as (c & s & Es & Hm & Hp).
    pose proof (uitoa_value _ Hu) as Hv. rewrite Es in *.
    unfold Atoi.
    assert (Hsign : (match String c s with
                     | String "-" s' => (true, s')
                     | String "+" s' => (false, s')
                     | _ => (false, String c s)
                     end) = (false, String c s)).
    { destruct c as [[|] [|] [|] [|] [|] [|] [|] [|]]; try reflexivity;
        congruence. }
    rewrite Hsign, Hv.
    destruct (2 ^ 63 <=? i) eqn:E2.
    { apply Z.leb_le in E2. change (2 ^ 63) with 9223372036854775808 in E2. lia. }
    reflexivity.
Qed.

Lemma itoa_Atoi_round_trip_witness :
  itoa (-42) = "-42" /\ Atoi (itoa (-42)) = (-42, None).
Proof.
  split; [reflexivity|].
  apply (itoa_Atoi_round_trip (-42)). change (2 ^ 63) with 9223372036854775808. lia.
Defined.

Lemma has_char_app (c : ascii) (a b : string) :
  has_char c (a ++ b) = has_char c a || has_char c b.
Proof.
  induction a as [|x a IH]; [reflexivity|].
  rewrite str_app_cons. cbn [has_char]. rewrite IH, orb_assoc. reflexivity.
Qed.

(** Two texts that agree and are cut at the first [c]. *)
Lemma split_first (c : ascii) (a a' r r' : string) :
  has_char c a = false -> has_char c a' = false ->
  a ++ String c r = a' ++ String c r' -> a = a' /\ r = r'.
Proof.
  revert a'. induction a as [|x a IH]; intros a' Ha Ha' E.
  - destruct a' as [|x' a'].
    + cbn in E. injection E as <-. split; reflexivity.
    + rewrite str_app_cons in E. cbn in E. injection E as <- _.
      cbn [has_char] in Ha'. rewrite Ascii.eqb_refl in Ha'. discriminate.
  - cbn [has_char] in Ha. apply orb_false_iff in Ha as [Hx Ha].
    destruct a' as [|x' a'].
    + rewrite str_app_cons in E. cbn in E. injection E as -> _.
      rewrite Ascii.eqb_refl in Hx. discriminate.
    + rewrite !str_app_cons in E. injection E as <- E.
      cbn [has_char] in Ha'. apply orb_false_iff in Ha' as [_ Ha'].
      destruct (IH a' Ha Ha' E) as [-> ->]. split; reflexivity.
Qed.

(** Two texts that agree and are cut at the last [c]. *)
Lemma split_last (c : ascii) (a a' d d' : string) :
  has_char c d = false -> has_char c d' = false ->
  a ++ String c d = a' ++ String c d' -> a = a' /\ d = d'.
Proof.
  revert a'. induction a as [|x a IH]; intros a' Hd Hd' E.
  - destruct a' as [|x' a'].
    + cbn in E. injection E as <-. split; reflexivity.
    + rewrite str_app_cons in E. cbn in E. injection E as <- E.
      rewrite E, has_char_app in Hd. cbn [has_char] in Hd.
      rewrite Ascii.eqb_refl, orb_true_r in Hd. discriminate.
  - destruct a' as [|x' a'].
    + rewrite str_app_cons in E. cbn in E. injection E as -> E.
      rewrite <- E, has_char_app in Hd'. cbn [has_char] in Hd'.
      rewrite Ascii.eqb_refl, orb_true_r in Hd'. discriminate.
    + rewrite !str_app_cons in E. injection E as <- E.
      destruct (IH a' Hd Hd' E) as [-> ->]. split; reflexivity.
Qed.

Lemma port_text (p : Z) :
  is_port p ->
  itoa p = uitoa p /\ digits_value 10 (itoa p) 0 = Some p.
Proof.
  intros Hp. unfold is_port in Hp. unfold itoa.
  destruct (p <? 0) eqn:E; [apply Z.ltb_lt in E; lia|].
  assert (Hw : wrap_u64 p = p).
  { unfold wrap_u64. apply Z.mod_small.
    change (2 ^ 64) with 18446744073709551616. lia. }
  rewrite Hw. split; [reflexivity|].
  apply uitoa_value. change (2 ^ 64) with 18446744073709551616. lia.
Qed.

(** X26. The key of the store tells sockets apart: two connections with the
    same [connKey] have the same local and remote address and port, provided
    the ports are [uint16] values and the local IP texts hold no ['>'].  So
    [AddConnection] never takes a connection for an earlier one of another
    socket. *)
Theorem connKey_injective (c1 c2 : Connection) :
  is_port (LocalPort c1) -> is_port (RemotePort c1) ->
  is_port (LocalPort c2) -> is_port (RemotePort c2) ->
  has_char ">" (LocalIP c1) = false -> has_char ">" (LocalIP c2) = false ->
  connKey c1 = connKey c2 ->
  LocalIP c1 = LocalIP c2 /\ LocalPort c1 = LocalPort c2
  /\ RemoteIP c1 = RemoteIP c2 /\ RemotePort c1 = RemotePort c2.
Proof.
  intros Hl1 Hr1 Hl2 Hr2 Hip1 Hip2 E.
  destruct (port_text _ Hl1) as [_ Vl1]. destruct (port_text _ Hr1) as [_ Vr1].
  destruct (port_text _ Hl2) as [_ Vl2]. destruct (port_text _ Hr2) as [_ Vr2].
  unfold connKey in E.
  set (L1 := LocalIP c1) in *. set (L2 := LocalIP c2) in *.
  set (R1 := RemoteIP c1) in *. set (R2 := RemoteIP c2) in *.
  set (D1 := itoa (LocalPort c1)) in *. set (D2 := itoa (LocalPort c2)) in *.
  set (P1 := itoa (RemotePort c1)) in *. set (P2 := itoa (RemotePort c2)) in *.
  assert (Hshape : forall L D R P,
             L ++ ":" ++ D ++ "->" ++ R ++ ":" ++ P
             = (L ++ ":" ++ D ++ "-") ++ String ">" (R ++ String ":" P)).
  { intros L D R P. rewrite !str_app_assoc. reflexivity. }
  rewrite !Hshape in E.
  assert (Hno : forall c D n, digit_val 10 c = None ->
                              digits_value 10 D 0 = Some n ->
                              has_char c D = false).
  { intros c D n Hc HD. apply (digits_no_char c D Hc 0 n HD). }
  assert (Hpre : forall L D n, has_char ">" L = false ->
                   digits_value 10 D 0 = Some n ->
                   has_char ">" (L ++ ":" ++ D ++ "-") = false).
  { intros L D n HL HD. rewrite !has_char_app, HL, (Hno ">"%char D n eq_refl HD).
    reflexivity. }
  apply split_first in E as [Epre Erest];
    [|apply (Hpre L1 D1 _ Hip1 Vl1)|apply (Hpre L2 D2 _ Hip2 Vl2)].
  assert (Hcolon : forall D n, digits_value 10 D 0 = Some n ->
                     has_char ":" (D ++ "-") = false).
  { intros D n HD. rewrite has_char_app, (Hno ":"%char D n eq_refl HD).
    reflexivity. }
  change (L1 ++ ":" ++ D1 ++ "-") with (L1 ++ String ":" (D1 ++ "-")) in Epre.
  change (L2 ++ ":" ++ D2 ++ "-") with (L2 ++ String ":" (D2 ++ "-")) in Epre.
  apply split_last in Epre as [EL ED];
    [|apply (Hcolon D1 _ Vl1)|apply (Hcolon D2 _ Vl2)].
  apply split_last in Erest as [ER EP];
    [|apply (Hno ":"%char P1 _ eq_refl Vr1)|apply (Hno ":"%char P2 _ eq_refl Vr2)].
  change (D1 ++ "-") with (D1 ++ String "-" "") in ED.
  change (D2 ++ "-") with (D2 ++ String "-" "") in ED.
  apply split_first in ED as [ED _];
    [|apply (Hno "-"%char D1 _ eq_refl Vl1)|apply (Hno "-"%char D2 _ eq_refl Vl2)].
  split; [exact EL|]. split; [rewrite ED in Vl1; congruence|].
  split; [exact ER|]. rewrite EP in Vr1. congruence.
Qed.

Lemma connKey_injective_witness :
  connKey conn_a = connKey conn_a_later
  /\ conn_ID conn_a <> conn_ID conn_a_later
  /\ LocalIP conn_a = LocalIP conn_a_later
  /\ LocalPort conn_a = LocalPort conn_a_later
  /\ RemoteIP conn_a = RemoteIP conn_a_later
  /\ RemotePort conn_a = RemotePort conn_a_later.
Proof.
  assert (E : connKey conn_a = connKey conn_a_later) by reflexivity.
  assert (H1 : is_port (LocalPort conn_a)) by (unfold is_port; cbn; lia).
  assert (H2 : is_port (RemotePort conn_a)) by (unfold is_port; cbn; lia).
  assert (H3 : is_port (LocalPort conn_a_later)) by (unfold is_port; cbn; lia).
  assert (H4 : is_port (RemotePort conn_a_later)) by (unfold is_port; cbn; lia).
  split; [exact E|]. split; [discriminate|].
  apply (connKey_injective conn_a conn_a_later H1 H2 H3 H4 eq_refl eq_refl E).
Defined.

End StoreKeysFacts.

(** ** Package bridge *)

Module BridgeFacts.
Import GoLib AdbReply Roster RosterFacts Bridge.

Lemma deliver_app (devices : gmap string Device) (a b : list Event) :
  deliver devices (a ++ b) = deliver (deliver devices a) b.
Proof. apply foldl_app. Qed.

(** The events of the first loop, delivered. *)
Lemma events_for_cases (known : gmap string Device) (now : Z) (dev : Device) :
  events_for known now dev = []
  \/ exists e, events_for known now dev = [e]
               /\ ev_Serial e = dev_Serial dev
               /\ ev_Type e <> DeviceDisconnected.
Proof.
  unfold events_for. destruct (known !! dev_Serial dev) as [prev|].
  - destruct (negb _); [right|left; reflexivity].
    eexists. split; [reflexivity|]. split; [reflexivity|discriminate].
  - right. eexists. split; [reflexivity|]. split; [reflexivity|discriminate].
Qed.

Lemma deliver_one (known : gmap string Device) (now : Z) (dev : Device)
  (devices : gmap string Device) (serial : string) :
  deliver devices (events_for known now dev) !! serial
  = if decide (dev_Serial dev = serial) then
      match events_for known now dev with
      | e :: _ => Some (ev_Device e)
      | [] => devices !! serial
      end
    else devices !! serial.
Proof.
  destruct (events_for_cases known now dev) as [->|(e & -> & Hs & Ht)].
  - destruct (decide _); reflexivity.
  - cbn [deliver foldl]. unfold handleDeviceEvent.
    destruct (decide (dev_Serial dev = serial)) as [Heq|Hne];
      destruct (ev_Type e); try congruence; rewrite Hs.
    + rewrite Heq. apply lookup_insert_eq.
    + rewrite Heq. apply lookup_insert_eq.
    + apply lookup_insert_ne. exact Hne.
    + apply lookup_insert_ne. exact Hne.
Qed.

Lemma deliver_events_for (known : gmap string Device) (now : Z)
  (current : list Device) :
  NoDup (map dev_Serial current) ->
  forall (devices : gmap string Device) (serial : string),
    (forall dev, dev ∈ current -> dev_Serial dev = serial ->
       deliver devices (concat (map (events_for known now) current)) !! serial
       = match events_for known now dev with
         | e :: _ => Some (ev_Device e)
         | [] => devices !! serial
         end)
    /\ (serial ∉ map dev_Serial current ->
        deliver devices (concat (map (events_for known now) current)) !! serial
        = devices !! serial).
Proof.
  induction current as [|dev rest IH]; intros Hnd devices serial.
  - split; [intros dev Hdev; apply elem_of_nil in Hdev; contradiction|].
    reflexivity.
  - cbn [map] in Hnd. apply NoDup_cons in Hnd as [Hnotin Hnd].
    cbn [map concat]. rewrite deliver_app.
    destruct (IH Hnd (deliver devices (events_for known now dev)) serial)
      as [Hin Hout].
    split.
    + intros d Hd Hs. apply elem_of_cons in Hd as [->|Hd].
      * rewrite Hout by (rewrite <- Hs; exact Hnotin).
        rewrite deliver_one, decide_True by exact Hs. reflexivity.
      * rewrite (Hin d Hd Hs).
        destruct (events_for known now d); [|reflexivity].
        rewrite deliver_one, decide_False; [reflexivity|].
        intros Heq. apply Hnotin. rewrite Heq, <- Hs.
        apply list_elem_of_fmap_2, Hd.
    + intros Hn. apply not_elem_of_cons in Hn as [Hne Hn].
      rewrite (Hout Hn), deliver_one, decide_False by congruence. reflexivity.
Qed.

(** The events of the second loop, delivered. *)
Lemma deliver_disconnected (now : Z) (gone : list (string * Device)) :
  forall (devices : gmap string Device) (serial : string),
    deliver devices (map (disconnected_event now) gone) !! serial
    = if decide (serial ∈ map fst gone) then None else devices !! serial.
Proof.
  induction gone as [|[s d] gone IH]; intros devices serial.
  - reflexivity.
  - cbn [map deliver foldl]. fold (deliver (handleDeviceEvent devices
                                             (disconnected_event now (s, d)))
                                     (map (disconnected_event now) gone)).
    rewrite IH. cbn [fst].
    destruct (decide (serial ∈ map fst gone)) as [Hin|Hnin].
    + rewrite decide_True by (right; exact Hin). reflexivity.
    + unfold handleDeviceEvent, disconnected_event. cbn [ev_Type ev_Serial fst].
      destruct (decide (s = serial)) as [->|Hne].
      * rewrite decide_True by left. apply lookup_delete_eq.
      * rewrite decide_False.
        -- apply lookup_delete_ne. exact Hne.
        -- intros Hin. apply elem_of_cons in Hin as [->|Hin]; [congruence|].
           contradiction.
Qed.

Lemma gone_keys (known : gmap string Device) (seen : gset string)
  (serial : string) :
  serial ∈ map fst (map_to_list
                      (filter (fun entry : string * Device => entry.1 ∉ seen) known))
  <-> is_Some (known !! serial) /\ serial ∉ seen.
Proof.
  rewrite list_elem_of_fmap. split.
  - intros ([s d] & -> & Hin). apply elem_of_map_to_list in Hin.
    apply map_lookup_filter_Some in Hin as [Hl Hs]. cbn [fst] in *. eauto.
  - intros [[d Hd] Hs]. exists (serial, d). split; [reflexivity|].
    apply elem_of_map_to_list, map_lookup_filter_Some. auto.
Qed.

(** X27. The device table of the application follows the roster of the
    tracker: if both agree on the serials and on state and [FirstSeen] of
    every device, then after [diffAndEmit] (on a list without repeated
    serials) and the delivery of its events in order to [handleDeviceEvent]
    they agree again.  [LastSeen] is not part of it: for a device whose
    state did not change no event is published, the entry of the table stays
    as it was while the roster has the new [LastSeen]. *)
Theorem app_follows_tracker (known devices : gmap string Device)
  (current : list Device) (now : Z) :
  NoDup (map dev_Serial current) -> same_view devices known ->
  let r := diffAndEmit known current now in
  same_view (deliver devices r.2) r.1
  /\ forall dev prev,
       dev ∈ current -> known !! dev_Serial dev = Some prev ->
       dev_State prev = dev_State dev ->
       deliver devices r.2 !! dev_Serial dev = devices !! dev_Serial dev
       /\ dev_LastSeen <$> r.1 !! dev_Serial dev = Some now.
Proof.
  intros Hnd Hview. cbv zeta.
  rewrite (diffAndEmit_closed_form known current now Hnd). cbn [fst snd].
  set (gone := map_to_list
                 (filter (fun entry : string * Device =>
                            entry.1 ∉ seen_serials current) known)).
  assert (Hseen : forall serial dev, dev ∈ current -> dev_Serial dev = serial ->
            deliver devices (concat (map (events_for known now) current)
                               ++ map (disconnected_event now) gone) !! serial
            = match events_for known now dev with
              | e :: _ => Some (ev_Device e)
              | [] => devices !! serial
              end).
  { intros serial dev Hdev Hs.
    rewrite deliver_app, deliver_disconnected, decide_False.
    - apply (deliver_events_for known now current Hnd devices serial); assumption.
    - unfold gone. rewrite gone_keys. intros [_ Hn]. apply Hn.
      apply seen_serials_In, list_elem_of_In. rewrite <- Hs.
      apply list_elem_of_fmap_2, Hdev. }
  assert (Hentry : forall dev, dev ∈ current ->
            (list_to_map (map (roster_entry known now) current)
               : gmap string Device) !! dev_Serial dev
            = Some (set_seen (first_seen known now dev) now dev)).
  { intros dev Hdev. apply roster_entries_Some; [exact Hnd|].
    exists dev. split; [apply list_elem_of_In, Hdev|]. split; reflexivity. }
  split.
  - intros serial.
    destruct (decide (serial ∈ map dev_Serial current)) as [Hin|Hout].
    + apply list_elem_of_fmap in Hin as (dev & -> & Hdev).
      rewrite (Hseen _ dev Hdev eq_refl), (Hentry dev Hdev).
      specialize (Hview (dev_Serial dev)).
      unfold events_for, first_seen.
      destruct (known !! dev_Serial dev) as [prev|] eqn:Ek; [|reflexivity].
      destruct (String.eqb_spec (dev_State prev) (dev_State dev)) as [Hst|Hst];
        cbn [negb]; [|reflexivity].
      rewrite Hview. cbn. unfold view. cbn [set_seen dev_State dev_FirstSeen].
      rewrite Hst. reflexivity.
    + rewrite deliver_app, deliver_disconnected.
      destruct (deliver_events_for known now current Hnd devices serial)
        as [_ Hsame].
      rewrite (Hsame Hout).
      assert (Hnone : (list_to_map (map (roster_entry known now) current)
                         : gmap string Device) !! serial = None).
      { apply not_elem_of_list_to_map_1. rewrite <- list_fmap_compose.
        exact Hout. }
      rewrite Hnone.
      destruct (decide (serial ∈ map fst gone)) as [_|Hn]; [reflexivity|].
      unfold gone in Hn. rewrite gone_keys in Hn.
      specialize (Hview serial).
      destruct (known !! serial) as [d|] eqn:Ek.
      * exfalso. apply Hn. split; [eauto|].
        rewrite seen_serials_In, <- list_elem_of_In. exact Hout.
      * exact Hview.
  - intros dev prev Hdev Hk Hst. split.
    + rewrite (Hseen _ dev Hdev eq_refl). unfold events_for. rewrite Hk, Hst.
      rewrite String.eqb_refl. reflexivity.
    + rewrite (Hentry dev Hdev). reflexivity.
Qed.

Lemma app_follows_tracker_witness :
  NoDup (map dev_Serial [emulator; pixel])
  /\ same_view ∅ ∅
  /\ same_view (deliver ∅ (diffAndEmit ∅ [emulator; pixel] 7).2)
               (diffAndEmit ∅ [emulator; pixel] 7).1.
Proof.
  assert (H1 : NoDup (map dev_Serial [emulator; pixel]))
    by (apply (bool_decide_unpack (NoDup _)); vm_compute; exact I).
  assert (H2 : same_view ∅ ∅) by (intros serial; reflexivity).
  split; [exact H1|]. split; [exact H2|].
  apply (app_follows_tracker ∅ ∅ [emulator; pixel] 7 H1 H2).
Defined.

End BridgeFacts.

(** ** Package store, continued: [ClearDevice] and the readers *)

Module StoreClearFacts.
Import GoLib GoLibFacts Capture Store StoreFacts StoreQueries StoreQueriesFacts.

Lemma recent_slot_stored (head maxSize count i : Z) :
  0 < maxSize -> 0 <= head -> count = Z.min head maxSize -> 0 <= i < count ->
  0 <= (head - 1 - i) mod maxSize < count.
Proof.
  intros Hm Hh Hc Hi.
  pose proof (Z.mod_pos_bound (head - 1 - i) maxSize Hm).
  destruct (Z_le_gt_dec head maxSize) as [Hle|Hgt].
  - rewrite Z.mod_small by lia. lia.
  - lia.
Qed.

Lemma cleared_listing (s s' : Store) (serial : string)
  (pkts : list NetworkPacket) :
  store_ok s -> ClearDevice s serial = Some s' ->
  mapM (fun i => idx ← recent_index (pktHead s) (pktMaxSize s) i;
                 index_get (packets s) idx)
       (seqZ 0 (pktCount s)) = Some pkts ->
  mapM (fun i => idx ← recent_index (pktHead s') (pktMaxSize s') i;
                 index_get (packets s') idx)
       (seqZ 0 (pktCount s')) = Some (map (clear_packet serial) pkts).
Proof.
  intros Hok Hclear Hm.
  pose proof (store_ok_packets s Hok) as (Hc & Hc' & Hlen & Hh & Hh' & Hcount).
  unfold ClearDevice in Hclear.
  destruct (_ || _); [discriminate|]. injection Hclear as <-.
  cbn [packets pktHead pktMaxSize pktCount].
  pose proof (length_mapM _ _ _ Hm) as HL. rewrite length_seqZ in HL.
  apply mapM_Some_1 in Hm.
  apply mapM_Some_2, Forall2_same_length_lookup_2.
  { rewrite length_seqZ, length_map. lia. }
  intros i x y Hx Hy.
  apply lookup_seqZ in Hx as [-> Hi]. rewrite Z.add_0_l.
  rewrite list_lookup_fmap in Hy.
  destruct (pkts !! i) as [p|] eqn:Ep; [|discriminate]. injection Hy as <-.
  pose proof (Forall2_lookup_lr
                (fun j y => (idx ← recent_index (pktHead s) (pktMaxSize s) j;
                             index_get (packets s) idx) = Some y)
                _ _ i (Z.of_nat i) p Hm) as Hp.
  rewrite lookup_seqZ in Hp. specialize (Hp ltac:(split; lia) Ep).
  rewrite (recent_slot (pktMaxSize s)) in Hp |- * by lia.
  cbn [mbind option_bind] in Hp |- *.
  pose proof (recent_slot_stored (pktHead s) (pktMaxSize s) (pktCount s)
                (Z.of_nat i) Hc Hh Hcount ltac:(lia)) as Hidx.
  unfold index_get in *.
  destruct (_ <? 0) eqn:E0; [apply Z.ltb_lt in E0; lia|].
  rewrite lookup_app_l by (rewrite length_map, length_take; lia).
  rewrite list_lookup_fmap, lookup_take_lt by lia.
  rewrite Hp. reflexivity.
Qed.

Lemma clear_packet_cases (serial : string) (p : NetworkPacket) :
  (pkt_Serial p = serial /\ clear_packet serial p = zeroPacket)
  \/ (pkt_Serial p <> serial /\ clear_packet serial p = p).
Proof.
  unfold clear_packet.
  destruct (String.eqb_spec (pkt_Serial p) serial); [left|right]; auto.
Qed.

Lemma filter_cleared_same (serial : string) (pkts : list NetworkPacket) :
  serial <> "" ->
  List.filter (fun p => String.eqb (pkt_Serial p) serial)
    (map (clear_packet serial) pkts) = [].
Proof.
  intros Hne. induction pkts as [|p pkts IH]; [reflexivity|].
  cbn [map List.filter].
  destruct (clear_packet_cases serial p) as [[E ->]|[E ->]].
  - cbn [pkt_Serial zeroPacket].
    destruct (String.eqb_spec "" serial) as [E'|_]; [congruence|exact IH].
  - destruct (String.eqb_spec (pkt_Serial p) serial) as [E'|_];
      [congruence|exact IH].
Qed.

Lemma filter_cleared_other (serial other : string) (pkts : list NetworkPacket) :
  other <> serial -> other <> "" ->
  List.filter (fun p => String.eqb (pkt_Serial p) other)
    (map (clear_packet serial) pkts)
  = List.filter (fun p => String.eqb (pkt_Serial p) other) pkts.
Proof.
  intros Hne Hne'. induction pkts as [|p pkts IH]; [reflexivity|].
  cbn [map List.filter].
  destruct (clear_packet_cases serial p) as [[E ->]|[E ->]].
  - cbn [pkt_Serial zeroPacket].
    destruct (String.eqb_spec "" other) as [E'|_]; [congruence|].
    destruct (String.eqb_spec (pkt_Serial p) other) as [E'|_]; [congruence|].
    exact IH.
  - destruct (String.eqb (pkt_Serial p) other); rewrite IH; reflexivity.
Qed.

(** X28. [ClearDevice] and the packet readers, in a store of the shape
    [store_ok]: the packet count stays as it was and [GetRecentPackets]
    returns the same listing with every packet of the device replaced by the
    zero packet; [GetPacketsBySerial] returns nothing for the device and
    what it returned before for every other serial (none of them empty). *)
Theorem ClearDevice_packets (s : Store) (serial : string) :
  store_ok s ->
  exists s' pkts,
    ClearDevice s serial = Some s'
    /\ PacketCount s' = PacketCount s
    /\ Z.of_nat (length pkts) = PacketCount s
    /\ (forall n, 0 <= n ->
          GetRecentPackets s n = Some (take (Z.to_nat n) pkts)
          /\ GetRecentPackets s' n
             = Some (take (Z.to_nat n) (map (clear_packet serial) pkts)))
    /\ (serial <> "" -> forall n, GetPacketsBySerial s' serial n = Some [])
    /\ (forall other n, other <> serial -> other <> "" ->
          GetPacketsBySerial s' other n = GetPacketsBySerial s other n).
Proof.
  intros Hok.
  destruct (ClearDevice_store_ok s serial Hok) as (s' & Es' & Hok').
  pose proof (store_ok_packets s Hok) as Hp.
  pose proof (store_ok_packets s' Hok') as Hp'.
  destruct (ring_listing _ _ _ _ Hp) as (pkts & Epkts & Lpkts).
  pose proof (cleared_listing s s' serial pkts Hok Es' Epkts) as Epkts'.
  assert (Hcount : pktCount s' = pktCount s).
  { unfold ClearDevice in Es'. destruct (_ || _); [discriminate|].
    injection Es' as <-. reflexivity. }
  assert (H0 : 0 <= pktCount s) by lia.
  assert (H0' : 0 <= pktCount s') by lia.
  assert (Hneg : forall n, 0 <= n -> (n <? 0) = false)
    by (intros n Hn; apply Z.ltb_ge; exact Hn).
  exists s', pkts. split; [exact Es'|]. split; [exact Hcount|].
  split; [exact Lpkts|].
  split; [|split].
  - intros n Hn. split.
    + etransitivity; [apply (recent_reader (packets s) _ _ _ n pkts Epkts H0)|].
      rewrite (Hneg n Hn). reflexivity.
    + etransitivity;
        [apply (recent_reader (packets s') _ _ _ n _ Epkts' H0')|].
      rewrite (Hneg n Hn). reflexivity.
  - intros Hne n. unfold GetPacketsBySerial.
    rewrite (by_serial_loop_listing _ _ _ _ _ n _ Epkts' H0').
    rewrite filter_cleared_same by exact Hne. rewrite take_nil. reflexivity.
  - intros other n Hne Hne'. unfold GetPacketsBySerial.
    rewrite (by_serial_loop_listing _ _ _ _ _ n _ Epkts' H0').
    rewrite (by_serial_loop_listing _ _ _ _ _ n _ Epkts H0).
    rewrite filter_cleared_other by assumption. reflexivity.
Qed.

Lemma ClearDevice_packets_witness :
  exists s,
    AddPacket (New (mkConfig 4 4)) dev1_packet = Some (s, None)
    /\ store_ok s
    /\ exists s',
         ClearDevice s "dev1" = Some s'
         /\ PacketCount s' = 1
         /\ GetRecentPackets s' 1 = Some [zeroPacket]
         /\ GetPacketsBySerial s' "dev1" 5 = Some [].
Proof.
  destruct (AddPacket_store_ok (New (mkConfig 4 4)) dev1_packet
              (New_store_ok (mkConfig 4 4) eq_refl eq_refl) eq_refl)
    as (s & E & Hok).
  exists s. split; [exact E|]. split; [exact Hok|].
  destruct (ClearDevice_packets s "dev1" Hok)
    as (s' & pkts & Ec & Hcount & Hlen & Hrecent & Hnone & _).
  assert (Hs : PacketCount s = 1 /\ GetRecentPackets s 1 = Some [dev1_packet]).
  { vm_compute in E. injection E as <-. split; reflexivity. }
  destruct Hs as [Hs1 Hs2].
  exists s'. split; [exact Ec|]. split; [congruence|].
  split; [|apply Hnone; discriminate].
  destruct (Hrecent 1 ltac:(lia)) as [H1 H2].
  rewrite Hs2 in H1. rewrite H2.
  destruct pkts as [|p [|q pkts]]; cbn in Hlen; try lia.
  cbn in H1. injection H1 as <-. reflexivity.
Defined.

End StoreClearFacts.

(** ** Package capture, continued: the engine *)

Module EngineFacts.
Import GoLib GoLibFacts Capture Store StoreFacts StoreQueries StoreQueriesFacts
  AdbReplyFacts ResolverFacts.

Lemma str_app_inv_head (p a b : string) : p ++ a = p ++ b -> a = b.
Proof.
  induction p as [|x p IH]; intros E; [exact E|].
  rewrite !str_app_cons in E. injection E as E. apply IH, E.
Qed.

(** *** The pieces of the diff *)

Lemma engine_key_fields (a b : Engine.Conn) :
  Engine.conn_fields a = Engine.conn_fields b ->
  Engine.connKey a = Engine.connKey b.
Proof. unfold Engine.connKey. intros ->. reflexivity. Qed.

Lemma engine_key_state (c1 c2 : Connection) :
  LocalIP c1 = LocalIP c2 -> LocalPort c1 = LocalPort c2 ->
  RemoteIP c1 = RemoteIP c2 -> RemotePort c1 = RemotePort c2 ->
  Engine.connKey (Engine.parsed c1) = Engine.connKey (Engine.parsed c2) ->
  State c1 = State c2.
Proof.
  intros H1 H2 H3 H4 E. unfold Engine.connKey in E.
  cbn [Engine.parsed Engine.conn_fields] in E.
  rewrite H1, H2, H3, H4 in E.
  repeat (apply str_app_inv_head in E). exact E.
Qed.

Lemma engine_key_set_seen (first last : Time) (c : Engine.Conn) :
  Engine.connKey (Engine.set_seen first last c) = Engine.connKey c.
Proof. reflexivity. Qed.

Lemma ResolveHostname_total (r : Resolver) (ip : string) :
  exists host r' acc, ResolveHostname r ip = Some (host, r', acc).
Proof.
  unfold ResolveHostname.
  destruct (String.eqb ip "" || String.eqb ip "0.0.0.0" || String.eqb ip "::");
    [eauto|].
  destruct (isPrivateIP_total ip) as [b ->]. destruct b; [eauto|].
  destruct (dnsCache r !! ip); [eauto|].
  destruct (negb _); [eauto|].
  destruct (decide _); [eauto|].
  destruct (_ <? _); eauto.
Qed.

(** [EnrichConnection] returns, keeps the fields of the parser, and leaves
    a host name as it is or gives the connection a non-empty one. *)
Lemma EnrichConnection_spec (r : Resolver) (uids : gmap Z string)
  (c : Engine.Conn) :
  exists c' r',
    Engine.EnrichConnection r uids c = Some (c', r')
    /\ Engine.conn_fields c' = Engine.conn_fields c
    /\ (Engine.Hostname c' = Engine.Hostname c \/ Engine.Hostname c' <> "").
Proof.
  unfold Engine.EnrichConnection.
  destruct (ResolveHostname_total r (RemoteIP (Engine.conn_fields c)))
    as (host & r' & acc & ->).
  cbn [mbind option_bind].
  eexists _, _. split; [reflexivity|].
  destruct (String.eqb_spec host "") as [->|Hh]; cbn [negb];
    destruct (String.eqb _ ""); cbn [negb]; cbn;
    auto.
Qed.

(** One round of the first loop. *)
Lemma diff_one_spec (now : Time) (c0 : Connection)
  (known : gmap string Engine.Conn) (e : Engine.Engine) :
  exists c' e',
    Engine.diff_one now (Engine.parsed c0) known e
    = Some (<[Engine.connKey (Engine.parsed c0) := c']> known, e')
    /\ Engine.conn_fields c' = Engine.stamped known now c0
    /\ Engine.uidCache e' = Engine.uidCache e
    /\ match known !! Engine.connKey (Engine.parsed c0) with
       | Some prev =>
           Engine.stats e' = Engine.stats e
           /\ Engine.packetCh e' = Engine.packetCh e
           /\ (if String.eqb (Engine.Hostname prev) ""
               then (Engine.Hostname c' = ""
                     /\ Engine.connCh e' = Engine.connCh e)
                    \/ (Engine.Hostname c' <> ""
                        /\ Engine.connCh e' = (Engine.connCh e ++ [c'])%list)
               else Engine.Hostname c' = Engine.Hostname prev
                    /\ Engine.AppName c' = Engine.AppName prev
                    /\ Engine.connCh e' = Engine.connCh e)
       | None =>
           Engine.stats e' = Engine.count_connection now (Engine.stats e)
           /\ Engine.connCh e' = (Engine.connCh e ++ [c'])%list
           /\ Engine.packetCh e'
              = (Engine.packetCh e ++ [Engine.connToPacket c'])%list
       end.
Proof.
  unfold Engine.diff_one, Engine.stamped, Engine.kept_first_seen.
  destruct (known !! Engine.connKey (Engine.parsed c0)) as [prev|] eqn:Ek.
  - destruct (String.eqb (Engine.Hostname prev) "") eqn:Eh.
    + destruct (EnrichConnection_spec (Engine.resolver e) (Engine.uidCache e)
                  (Engine.set_seen (FirstSeen (Engine.conn_fields prev)) now
                     (Engine.parsed c0)))
        as (c' & r' & -> & Hf & Hh).
      cbn [mbind option_bind].
      destruct (String.eqb_spec (Engine.Hostname c') "") as [Hz|Hnz];
        cbn [negb].
      * eexists _, _. split; [reflexivity|]. split; [exact Hf|].
        split; [reflexivity|]. split; [reflexivity|]. split; [reflexivity|].
        left. auto.
      * eexists _, _. split; [reflexivity|]. split; [exact Hf|].
        split; [reflexivity|]. split; [reflexivity|]. split; [reflexivity|].
        right. auto.
    + eexists _, _. split; [reflexivity|]. split; [reflexivity|].
      split; [reflexivity|]. split; [reflexivity|]. split; [reflexivity|].
      split; [reflexivity|]. split; reflexivity.
  - destruct (EnrichConnection_spec (Engine.resolver e) (Engine.uidCache e)
                (Engine.set_seen now now (Engine.parsed c0)))
      as (c' & r' & -> & Hf & Hh).
    cbn [mbind option_bind].
    eexists _, _. split; [reflexivity|]. split; [exact Hf|].
    split; [reflexivity|]. split; [reflexivity|]. split; reflexivity.
Qed.

Lemma stamped_key (known : gmap string Engine.Conn) (now : Time)
  (c0 : Connection) (c : Engine.Conn) :
  Engine.conn_fields c = Engine.stamped known now c0 ->
  Engine.connKey c = Engine.connKey (Engine.parsed c0).
Proof.
  intros H. rewrite (engine_key_fields c _ H). reflexivity.
Qed.

Lemma kept_first_seen_insert (known : gmap string Engine.Conn) (now : Time)
  (key k : string) (c : Engine.Conn) :
  FirstSeen (Engine.conn_fields c) = Engine.kept_first_seen known now key ->
  Engine.kept_first_seen (<[key := c]> known) now k = Engine.kept_first_seen known now k.
Proof.
  intros H. unfold Engine.kept_first_seen at 1.
  destruct (decide (key = k)) as [<-|Hne].
  - rewrite lookup_insert_eq. exact H.
  - rewrite lookup_insert_ne by exact Hne. reflexivity.
Qed.

Lemma stamped_insert (known : gmap string Engine.Conn) (now : Time)
  (key : string) (c : Engine.Conn) (c0 : Connection) :
  FirstSeen (Engine.conn_fields c) = Engine.kept_first_seen known now key ->
  Engine.stamped (<[key := c]> known) now c0 = Engine.stamped known now c0.
Proof.
  intros H. unfold Engine.stamped. rewrite (kept_first_seen_insert _ _ _ _ _ H).
  reflexivity.
Qed.

Lemma stamped_first_seen (known : gmap string Engine.Conn) (now : Time)
  (c0 : Connection) :
  FirstSeen (Engine.stamped known now c0)
  = Engine.kept_first_seen known now (Engine.connKey (Engine.parsed c0))
  /\ LastSeen (Engine.stamped known now c0) = now.
Proof. split; reflexivity. Qed.

(** *** The first loop *)

Lemma diff_loop_spec (now : Time) (conns : list Connection) :
  forall (known : gmap string Engine.Conn) (e : Engine.Engine),
  exists known1 e1 more news,
    Engine.diff_loop conns now known e = Some (known1, e1)
    /\ (forall k, is_Some (known1 !! k)
                  <-> is_Some (known !! k) \/ k ∈ Engine.keys conns)
    /\ (forall k, k ∉ Engine.keys conns -> known1 !! k = known !! k)
    /\ (forall k c, k ∈ Engine.keys conns -> known1 !! k = Some c ->
          exists c0, c0 ∈ conns /\ k = Engine.connKey (Engine.parsed c0)
                     /\ Engine.conn_fields c = Engine.stamped known now c0)
    /\ (forall k prev c,
          known !! k = Some prev -> Engine.Hostname prev <> "" ->
          known1 !! k = Some c ->
          Engine.Hostname c = Engine.Hostname prev
          /\ Engine.AppName c = Engine.AppName prev)
    /\ Engine.uidCache e1 = Engine.uidCache e
    /\ Engine.stats e1
       = Nat.iter (length news) (Engine.count_connection now) (Engine.stats e)
    /\ Engine.connCh e1 = (Engine.connCh e ++ more)%list
    /\ Engine.packetCh e1
       = (Engine.packetCh e ++ map Engine.connToPacket news)%list
    /\ NoDup (map Engine.connKey news)
    /\ (forall k, k ∈ map Engine.connKey news
                  <-> k ∈ Engine.keys conns /\ known !! k = None)
    /\ (forall c, c ∈ more ->
          Engine.offered_by known conns now c
          /\ (c ∈ news \/ Engine.Hostname c <> ""))
    /\ (forall c, c ∈ news -> c ∈ more).
Proof.
  induction conns as [|c0 rest IH]; intros known e.
  - exists known, e, [], []. cbn [Engine.diff_loop Engine.keys map length].
    rewrite !app_nil_r.
    split; [reflexivity|].
    split.
    { intros k. split; [auto|]. intros [H|H]; [exact H|].
      apply elem_of_nil in H. contradiction. }
    split; [reflexivity|].
    split. { intros k c H. apply elem_of_nil in H. contradiction. }
    split. { intros k prev c H1 _ H2. rewrite H1 in H2. injection H2 as <-. auto. }
    split; [reflexivity|]. split; [reflexivity|]. split; [reflexivity|].
    split; [reflexivity|]. split; [apply NoDup_nil_2|].
    split.
    { intros k. split.
      - intros H. apply elem_of_nil in H. contradiction.
      - intros [H _]. apply elem_of_nil in H. contradiction. }
    split; intros c H; apply elem_of_nil in H; contradiction.
  - cbn [Engine.diff_loop].
    destruct (diff_one_spec now c0 known e)
      as (c' & em & -> & Hf & Huid & Hcase).
    cbn [mbind option_bind].
    set (key0 := Engine.connKey (Engine.parsed c0)) in *.
    assert (HFS : FirstSeen (Engine.conn_fields c')
                  = Engine.kept_first_seen known now key0).
    { rewrite Hf. reflexivity. }
    assert (Hkey : Engine.connKey c' = key0).
    { apply (stamped_key known now), Hf. }
    destruct (IH (<[key0 := c']> known) em)
      as (known1 & e1 & more' & news' & -> & Hdom & Hout & Hin & Hhost
          & Huid1 & Hstats & Hconn & Hpkt & Hnd & Hnews & Hmore & Hsub).
    assert (Hkeys : forall k, k ∈ Engine.keys (c0 :: rest)
                              <-> k = key0 \/ k ∈ Engine.keys rest).
    { intros k. unfold Engine.keys. cbn [map]. apply elem_of_cons. }
    (* the part that does not depend on the branch taken *)
    assert (Hdom' : forall k, is_Some (known1 !! k)
                     <-> is_Some (known !! k) \/ k ∈ Engine.keys (c0 :: rest)).
    { intros k. rewrite Hdom, lookup_insert_is_Some, Hkeys.
      destruct (decide (key0 = k)) as [<-|Hne]; [intuition eauto|].
      intuition congruence. }
    assert (Hout' : forall k, k ∉ Engine.keys (c0 :: rest)
                              -> known1 !! k = known !! k).
    { intros k Hk. rewrite Hkeys in Hk.
      rewrite Hout by tauto. apply lookup_insert_ne. intros <-. tauto. }
    assert (Hin' : forall k c, k ∈ Engine.keys (c0 :: rest) ->
              known1 !! k = Some c ->
              exists c1, c1 ∈ c0 :: rest
                         /\ k = Engine.connKey (Engine.parsed c1)
                         /\ Engine.conn_fields c = Engine.stamped known now c1).
    { intros k c Hk Hl.
      destruct (decide (k ∈ Engine.keys rest)) as [Hr|Hr].
      - destruct (Hin k c Hr Hl) as (c1 & Hc1 & -> & Hfc).
        exists c1. split; [apply list_elem_of_further, Hc1|].
        split; [reflexivity|].
        rewrite Hfc. apply stamped_insert, HFS.
      - apply Hkeys in Hk as [->|Hk]; [|contradiction].
        rewrite (Hout _ Hr), lookup_insert_eq in Hl. injection Hl as <-.
        exists c0. split; [apply list_elem_of_here|]. auto. }
    assert (Hhost' : forall k prev c,
              known !! k = Some prev -> Engine.Hostname prev <> "" ->
              known1 !! k = Some c ->
              Engine.Hostname c = Engine.Hostname prev
              /\ Engine.AppName c = Engine.AppName prev).
    { intros k prev c Hk Hh Hl.
      destruct (decide (key0 = k)) as [<-|Hne].
      - rewrite Hk in Hcase. destruct Hcase as (_ & _ & Hc).
        destruct (String.eqb_spec (Engine.Hostname prev) "") as [Hz|_];
          [contradiction|].
        destruct Hc as (Hh' & Ha' & _).
        destruct (Hhost key0 c' c) as [E1 E2];
          [apply lookup_insert_eq|congruence|exact Hl|].
        split; congruence.
      - apply (Hhost k prev c); [|exact Hh|exact Hl].
        rewrite lookup_insert_ne by exact Hne. exact Hk. }
    assert (Hoff : forall c, c ∈ more' ->
              Engine.offered_by known (c0 :: rest) now c).
    { intros c Hc. destruct (Hmore c Hc) as [[(c1 & Hc1 & Hfc) Hprev] _].
      split.
      - exists c1. split; [apply list_elem_of_further, Hc1|].
        rewrite Hfc. apply stamped_insert, HFS.
      - intros prev Hk.
        destruct (decide (key0 = Engine.connKey c)) as [Heq|Hne].
        + destruct (Hprev c') as [Hz Hnz];
            [rewrite <- Heq; apply lookup_insert_eq|].
          split; [|exact Hnz].
          rewrite <- Heq in Hk. rewrite Hk in Hcase.
          destruct Hcase as (_ & _ & Hc').
          destruct (String.eqb_spec (Engine.Hostname prev) "") as [Hp|_];
            [exact Hp|].
          destruct Hc' as (Hh' & _). congruence.
        + apply Hprev. rewrite lookup_insert_ne by exact Hne. exact Hk. }
    destruct (known !! key0) as [prev|] eqn:Ek.
    + destruct Hcase as (Hst & Hpk & Hc).
      assert (Hnews' : forall k, k ∈ map Engine.connKey news'
                         <-> k ∈ Engine.keys (c0 :: rest) /\ known !! k = None).
      { intros k. rewrite Hnews, Hkeys, lookup_insert_None. split.
        - intros [Hr [Hn _]]. auto.
        - intros [[->|Hr] Hn]; [congruence|].
          split; [exact Hr|]. split; [exact Hn|]. congruence. }
      assert (Hcases :
        (Engine.connCh em = Engine.connCh e)
        \/ (Engine.Hostname prev = "" /\ Engine.Hostname c' <> ""
            /\ Engine.connCh em = (Engine.connCh e ++ [c'])%list)).
      { destruct (String.eqb_spec (Engine.Hostname prev) "") as [Hp|_].
        - destruct Hc as [[_ Hc]|[Hn Hc]]; [left; exact Hc|right; auto].
        - left. apply Hc. }
      destruct Hcases as [Hsame|(Hp & Hn & Hsend)].
      * exists known1, e1, more', news'.
        split; [reflexivity|]. split; [exact Hdom'|]. split; [exact Hout'|].
        split; [exact Hin'|]. split; [exact Hhost'|].
        split; [congruence|]. split; [congruence|]. split; [congruence|].
        split; [congruence|]. split; [exact Hnd|]. split; [exact Hnews'|].
        split; [|exact Hsub].
        intros c Hm. split; [apply Hoff, Hm|apply (Hmore c Hm)].
      * exists known1, e1, (c' :: more'), news'.
        split; [reflexivity|]. split; [exact Hdom'|]. split; [exact Hout'|].
        split; [exact Hin'|]. split; [exact Hhost'|].
        split; [congruence|]. split; [congruence|].
        split; [rewrite Hconn, Hsend, <- app_assoc; reflexivity|].
        split; [congruence|]. split; [exact Hnd|]. split; [exact Hnews'|].
        split; [|intros c Hm; apply list_elem_of_further, Hsub, Hm].
        intros c Hm. apply elem_of_cons in Hm as [->|Hm].
        -- split; [|right; exact Hn]. split.
           ++ exists c0. split; [apply list_elem_of_here|exact Hf].
           ++ intros prev' Hk. rewrite Hkey, Ek in Hk. injection Hk as <-.
              auto.
        -- split; [apply Hoff, Hm|apply (Hmore c Hm)].
    + destruct Hcase as (Hst & Hsend & Hpk).
      exists known1, e1, (c' :: more'), (c' :: news').
      split; [reflexivity|]. split; [exact Hdom'|]. split; [exact Hout'|].
      split; [exact Hin'|]. split; [exact Hhost'|].
      split; [congruence|].
      split.
      { cbn [length]. rewrite Nat.iter_succ_r, <- Hst. exact Hstats. }
      split; [rewrite Hconn, Hsend, <- app_assoc; reflexivity|].
      split; [rewrite Hpkt, Hpk, <- app_assoc; reflexivity|].
      cbn [map]. rewrite Hkey.
      split.
      { apply NoDup_cons. split; [|exact Hnd].
        intros Hk. apply Hnews in Hk as [_ Hk].
        rewrite lookup_insert_eq in Hk. discriminate. }
      split.
      { intros k. rewrite elem_of_cons, Hnews, Hkeys, lookup_insert_None.
        split.
        - intros [->|[Hr [Hn _]]]; auto.
        - intros [[->|Hr] Hn]; [left; reflexivity|].
          destruct (decide (key0 = k)) as [<-|Hne];
            [left; reflexivity|right; auto]. }
      split.
      { intros c Hc. apply elem_of_cons in Hc as [->|Hc].
        - split; [|left; apply list_elem_of_here]. split.
          + exists c0. split; [apply list_elem_of_here|exact Hf].
          + intros prev Hk. rewrite Hkey, Ek in Hk. discriminate.
        - split; [apply Hoff, Hc|].
          destruct (Hmore c Hc) as [_ [Hn|Hn]];
            [left; apply list_elem_of_further, Hn|right; exact Hn]. }
      intros c Hc. apply elem_of_cons in Hc as [->|Hc];
        [apply list_elem_of_here|apply list_elem_of_further, Hsub, Hc].
Qed.

(** *** One connection *)

Lemma filter_seen_one (c0 : Connection) (c : Engine.Conn)
  (known : gmap string Engine.Conn) :
  filter (fun entry : string * Engine.Conn => entry.1 ∈ Engine.seen_keys [c0])
    (<[Engine.connKey (Engine.parsed c0) := c]> known)
  = {[Engine.connKey (Engine.parsed c0) := c]}.
Proof.
  apply map_eq. intros k. apply option_eq. intros d.
  rewrite map_lookup_filter_Some, lookup_singleton_Some. cbn [fst].
  unfold Engine.seen_keys. cbn [map list_to_set].
  split.
  - intros [Hl Hk]. apply elem_of_union in Hk as [Hk|Hk];
      [|apply elem_of_empty in Hk; contradiction].
    apply elem_of_singleton in Hk. subst k.
    rewrite lookup_insert_eq in Hl. injection Hl as <-. auto.
  - intros [<- <-]. split; [apply lookup_insert_eq|].
    apply elem_of_union_l, elem_of_singleton. reflexivity.
Qed.

Lemma diffProcNet_one (now : Time) (c0 : Connection)
  (known : gmap string Engine.Conn) (e : Engine.Engine) :
  exists c' e',
    Engine.diffProcNet e known [c0] now
    = Some ({[Engine.connKey (Engine.parsed c0) := c']}, e')
    /\ Engine.diff_one now (Engine.parsed c0) known e
       = Some (<[Engine.connKey (Engine.parsed c0) := c']> known, e').
Proof.
  destruct (diff_one_spec now c0 known e) as (c' & e' & E & _).
  exists c', e'. split; [|exact E].
  unfold Engine.diffProcNet. cbn [Engine.diff_loop]. rewrite E.
  cbn [mbind option_bind]. rewrite filter_seen_one. reflexivity.
Qed.

(** A connection under a key that is not known. *)
Lemma diffProcNet_new (now : Time) (c0 : Connection)
  (known : gmap string Engine.Conn) (e : Engine.Engine) :
  known !! Engine.connKey (Engine.parsed c0) = None ->
  exists c' e',
    Engine.diffProcNet e known [c0] now
    = Some ({[Engine.connKey (Engine.parsed c0) := c']}, e')
    /\ Engine.conn_fields c'
       = Engine.conn_fields (Engine.set_seen now now (Engine.parsed c0))
    /\ Engine.stats e' = Engine.count_connection now (Engine.stats e)
    /\ Engine.connCh e' = (Engine.connCh e ++ [c'])%list
    /\ Engine.packetCh e'
       = (Engine.packetCh e ++ [Engine.connToPacket c'])%list.
Proof.
  intros Hk.
  destruct (diffProcNet_one now c0 known e) as (c' & e' & E & Eone).
  destruct (diff_one_spec now c0 known e) as (c2 & e2 & E2 & Hf & _ & Hcase).
  rewrite Eone in E2. injection E2 as Hins <-.
  assert (c2 = c') as ->.
  { apply (f_equal (fun m => m !! Engine.connKey (Engine.parsed c0))) in Hins.
    rewrite !lookup_insert_eq in Hins. congruence. }
  rewrite Hk in Hcase.
  exists c', e'. split; [exact E|]. split; [|exact Hcase].
  rewrite Hf. unfold Engine.stamped, Engine.kept_first_seen. rewrite Hk.
  reflexivity.
Qed.

(** A connection under a known key. *)
Lemma diffProcNet_known (now : Time) (c0 : Connection)
  (known : gmap string Engine.Conn) (e : Engine.Engine) (prev : Engine.Conn) :
  known !! Engine.connKey (Engine.parsed c0) = Some prev ->
  exists c' e',
    Engine.diffProcNet e known [c0] now
    = Some ({[Engine.connKey (Engine.parsed c0) := c']}, e')
    /\ Engine.conn_fields c'
       = Engine.conn_fields
           (Engine.set_seen (FirstSeen (Engine.conn_fields prev)) now
                            (Engine.parsed c0))
    /\ Engine.stats e' = Engine.stats e
    /\ Engine.packetCh e' = Engine.packetCh e
    /\ (Engine.connCh e' = Engine.connCh e
        \/ (Engine.Hostname prev = "" /\ Engine.Hostname c' <> ""
            /\ Engine.connCh e' = (Engine.connCh e ++ [c'])%list))
    /\ (Engine.Hostname prev <> "" ->
        Engine.connCh e' = Engine.connCh e
        /\ Engine.Hostname c' = Engine.Hostname prev
        /\ Engine.AppName c' = Engine.AppName prev).
Proof.
  intros Hk.
  destruct (diffProcNet_one now c0 known e) as (c' & e' & E & Eone).
  destruct (diff_one_spec now c0 known e) as (c2 & e2 & E2 & Hf & _ & Hcase).
  rewrite Eone in E2. injection E2 as Hins <-.
  assert (c2 = c') as ->.
  { apply (f_equal (fun m => m !! Engine.connKey (Engine.parsed c0))) in Hins.
    rewrite !lookup_insert_eq in Hins. congruence. }
  rewrite Hk in Hcase. destruct Hcase as (Hst & Hpk & Hc).
  exists c', e'. split; [exact E|].
  split.
  { rewrite Hf. unfold Engine.stamped, Engine.kept_first_seen. rewrite Hk.
    reflexivity. }
  split; [exact Hst|]. split; [exact Hpk|].
  destruct (String.eqb_spec (Engine.Hostname prev) "") as [Hp|Hp].
  - split; [|intros Hn; contradiction].
    destruct Hc as [[_ Hc]|[Hn Hc]]; [left; exact Hc|right; auto].
  - destruct Hc as (Hh & Ha & Hc). split; [left; exact Hc|auto].
Qed.

(** *** From the engine to the store *)

(** X29. A change of state travels from the engine to the store.  The key
    of the engine ends with the state, so a socket seen in a new state is
    offered to both channels again, as a new connection with both time
    stamps at the time of the read, and the key of the old state is dropped.
    Seen once more in the same state it keeps its [FirstSeen] and gives no
    packet; it is offered on [connCh] again only if it had no host name and
    has one now, and never once it has a host name.  The key of the store
    lacks the state, so [AddConnection] folds the second connection into the
    entry of the first: one entry, with the new state and [LastSeen] and the
    old [FirstSeen], and no callback. *)
Theorem state_change_reaches_store (cfg : Config) (fn : option func)
  (e0 : Engine.Engine) (c1 c2 : Connection) (t1 t2 : Time) :
  LocalIP c1 = LocalIP c2 -> LocalPort c1 = LocalPort c2 ->
  RemoteIP c1 = RemoteIP c2 -> RemotePort c1 = RemotePort c2 ->
  State c1 <> State c2 ->
  exists o1 o2 e1 e2,
    Engine.diffProcNet e0 ∅ [c1] t1
    = Some ({[Engine.connKey (Engine.parsed c1) := o1]}, e1)
    /\ Engine.diffProcNet e1 {[Engine.connKey (Engine.parsed c1) := o1]} [c2] t2
       = Some ({[Engine.connKey (Engine.parsed c2) := o2]}, e2)
    /\ Engine.conn_fields o1
       = Engine.conn_fields (Engine.set_seen t1 t1 (Engine.parsed c1))
    /\ Engine.conn_fields o2
       = Engine.conn_fields (Engine.set_seen t2 t2 (Engine.parsed c2))
    /\ Engine.connCh e1 = (Engine.connCh e0 ++ [o1])%list
    /\ Engine.packetCh e1 = (Engine.packetCh e0 ++ [Engine.connToPacket o1])%list
    /\ Engine.connCh e2 = (Engine.connCh e1 ++ [o2])%list
    /\ Engine.packetCh e2 = (Engine.packetCh e1 ++ [Engine.connToPacket o2])%list
    /\ (forall t3, exists o3 e3,
          Engine.diffProcNet e2 {[Engine.connKey (Engine.parsed c2) := o2]}
            [c2] t3
          = Some ({[Engine.connKey (Engine.parsed c2) := o3]}, e3)
          /\ Engine.conn_fields o3
             = Engine.conn_fields (Engine.set_seen t2 t3 (Engine.parsed c2))
          /\ Engine.packetCh e3 = Engine.packetCh e2
          /\ (Engine.connCh e3 = Engine.connCh e2
              \/ (Engine.Hostname o2 = "" /\ Engine.Hostname o3 <> ""
                  /\ Engine.connCh e3 = (Engine.connCh e2 ++ [o3])%list))
          /\ (Engine.Hostname o2 <> "" ->
              Engine.connCh e3 = Engine.connCh e2
              /\ Engine.Hostname o3 = Engine.Hostname o2
              /\ Engine.AppName o3 = Engine.AppName o2))
    /\ exists s1 s2,
         AddConnection (SetOnChange (New cfg) fn) (Engine.conn_fields o1)
         = Some (s1, fn)
         /\ AddConnection s1 (Engine.conn_fields o2) = Some (s2, None)
         /\ Engine.drainConnections (SetOnChange (New cfg) fn) [o1; o2]
            = Some s2
         /\ ConnectionCount s2 = 1
         /\ GetRecentConnections s2 1
            = Some [mkConnection (conn_ID c1) (conn_Serial c1) (LocalIP c1)
                      (LocalPort c1) (RemoteIP c1) (RemotePort c1) (State c2)
                      (conn_Protocol c1) (UID c1) t1 t2].
Proof.
  intros H1 H2 H3 H4 Hstate.
  assert (Hkey : Engine.connKey (Engine.parsed c1)
                 <> Engine.connKey (Engine.parsed c2)).
  { intros E. apply Hstate. apply engine_key_state; assumption. }
  destruct (diffProcNet_new t1 c1 ∅ e0 (lookup_empty _))
    as (o1 & e1 & E1 & Hf1 & _ & Hc1 & Hp1).
  destruct (diffProcNet_new t2 c2 {[Engine.connKey (Engine.parsed c1) := o1]} e1)
    as (o2 & e2 & E2 & Hf2 & _ & Hc2 & Hp2).
  { apply lookup_singleton_None. exact Hkey. }
  exists o1, o2, e1, e2.
  split; [exact E1|]. split; [exact E2|]. split; [exact Hf1|].
  split; [exact Hf2|]. split; [exact Hc1|]. split; [exact Hp1|].
  split; [exact Hc2|]. split; [exact Hp2|].
  split.
  { intros t3.
    destruct (diffProcNet_known t3 c2
                {[Engine.connKey (Engine.parsed c2) := o2]} e2 o2
                (lookup_singleton_eq _ _))
      as (o3 & e3 & E3 & Hf3 & _ & Hp3 & Hor & Hquiet).
    exists o3, e3. split; [exact E3|].
    split; [rewrite Hf3, Hf2; reflexivity|]. auto. }
  rewrite Hf1, Hf2.
  cbn [Engine.set_seen Engine.parsed Engine.conn_fields].
  set (n1 := mkConnection (conn_ID c1) (conn_Serial c1) (LocalIP c1)
               (LocalPort c1) (RemoteIP c1) (RemotePort c1) (State c1)
               (conn_Protocol c1) (UID c1) t1 t1).
  set (n2 := mkConnection (conn_ID c2) (conn_Serial c2) (LocalIP c2)
               (LocalPort c2) (RemoteIP c2) (RemotePort c2) (State c2)
               (conn_Protocol c2) (UID c2) t2 t2).
  set (s0 := SetOnChange (New cfg) fn).
  assert (Hfresh := AddConnection_fresh s0 n1
                      eq_refl eq_refl eq_refl (New_connMaxSize_pos cfg)
                      (New_connections_length cfg)).
  assert (Hsame : connKey n2 = connKey n1).
  { apply connKey_same; cbn; congruence. }
  match type of Hfresh with _ = Some (?s, _) => set (s1 := s) in * end.
  assert (Hold : AddConnection s1 n2
                 = Some (mkStore (packets s1) (pktHead s1) (pktCount s1)
                           (pktMaxSize s1)
                           (alter (entry_update n2) 0%nat (connections s1))
                           (connHead s1) (connCount s1) (connMaxSize s1)
                           (connMap s1) (onChange s1), None)).
  { apply (AddConnection_existing _ _ 0%nat). cbn [connMap s1].
    rewrite Hsame. apply lookup_singleton_eq. }
  eexists _, _. split; [exact Hfresh|].
  split; [exact Hold|].
  split.
  { cbn [Engine.drainConnections]. rewrite Hf1, Hf2.
    cbn [Engine.set_seen Engine.parsed Engine.conn_fields].
    fold n1 n2. rewrite Hfresh. cbn [mbind option_bind]. rewrite Hold.
    reflexivity. }
  subst s1.
  split; [reflexivity|].
  apply single_connection_read; try reflexivity.
  - apply New_connMaxSize_pos.
  - cbn [connections].
    pose proof (New_connections_length cfg) as Hlen.
    pose proof (New_connMaxSize_pos cfg) as Hpos.
    rewrite list_lookup_alter_eq, list_lookup_insert_eq
      by (unfold s0; cbn [SetOnChange connections]; lia).
    cbn. unfold entry_update, set_State, set_LastSeen. cbn. reflexivity.
Qed.

Lemma state_change_reaches_store_witness :
  State conn_a <> State conn_a_later
  /\ exists o1 o2 e1 e2 s1 s2,
       Engine.diffProcNet Engine.idle_engine ∅ [conn_a] 5
       = Some ({[Engine.connKey (Engine.parsed conn_a) := o1]}, e1)
       /\ Engine.diffProcNet e1 {[Engine.connKey (Engine.parsed conn_a) := o1]}
            [conn_a_later] 8
          = Some ({[Engine.connKey (Engine.parsed conn_a_later) := o2]}, e2)
       /\ Engine.connCh e2 = [o1; o2]
       /\ AddConnection (SetOnChange (New (mkConfig 4 4)) None)
            (Engine.conn_fields o1) = Some (s1, None)
       /\ AddConnection s1 (Engine.conn_fields o2) = Some (s2, None)
       /\ ConnectionCount s2 = 1.
Proof.
  assert (H : State conn_a <> State conn_a_later) by discriminate.
  split; [exact H|].
  destruct (state_change_reaches_store (mkConfig 4 4) None Engine.idle_engine
              conn_a conn_a_later 5 8 eq_refl eq_refl eq_refl eq_refl H)
    as (o1 & o2 & e1 & e2 & E1 & E2 & _ & _ & Hc1 & _ & Hc2 & _ & _
        & s1 & s2 & A1 & A2 & _ & Hcount & _).
  exists o1, o2, e1, e2, s1, s2.
  split; [exact E1|]. split; [exact E2|].
  split; [rewrite Hc2, Hc1; reflexivity|]. auto.
Defined.

(** *** The whole function *)

Lemma read_conns_Some (p : ProcNetParser) (out : string)
  (tcp6Out udpOut udp6Out : option string) (t1 t2 t3 t4 : Time) :
  exists conns p',
    Engine.read_conns p (Some out) tcp6Out udpOut udp6Out t1 t2 t3 t4
    = Some (conns, p').
Proof.
  unfold Engine.read_conns.
  destruct (Engine.parse_read p (Some out) ProtoTCP t1 []) as [l1 p1].
  destruct (Engine.parse_read p1 tcp6Out ProtoTCP t2 l1) as [l2 p2].
  destruct (Engine.parse_read p2 udpOut ProtoUDP t3 l2) as [l3 p3].
  destruct (Engine.parse_read p3 udp6Out ProtoUDP t4 l3) as [l4 p4].
  eauto.
Qed.

(** X30. [readAndDiffProcNet], for any results of the four reads, any map
    [known] and any state of the resolver.  It returns (no range of
    [isPrivateIP] fails to parse).  When the first read fails nothing
    changes.  Otherwise, [conns] being the connections parsed: the parser is
    the one the reads leave; [known] holds exactly the keys of [conns], each
    entry being a connection of [conns] with [LastSeen] the time of the diff
    and [FirstSeen] that of the entry known before (the time of the diff if
    there was none), so no time stamp of the parser survives; an entry that
    had a host name keeps it, and its [AppName].  Each key that was not
    known gives one packet, one count in the statistics and an offer on
    [connCh]; every other offer on [connCh] has a host name, and a key known
    with a host name is never offered. *)
Theorem readAndDiffProcNet_spec (e : Engine.Engine) (p : ProcNetParser)
  (known : gmap string Engine.Conn)
  (tcpOut tcp6Out udpOut udp6Out : option string) (t1 t2 t3 t4 now : Time) :
  exists e' p' known',
    Engine.readAndDiffProcNet e p known tcpOut tcp6Out udpOut udp6Out
      t1 t2 t3 t4 now = Some (e', p', known')
    /\ (tcpOut = None -> e' = e /\ p' = p /\ known' = known)
    /\ forall conns p2,
         Engine.read_conns p tcpOut tcp6Out udpOut udp6Out t1 t2 t3 t4
         = Some (conns, p2) ->
         p' = p2
         /\ Engine.uidCache e' = Engine.uidCache e
         /\ (forall k, is_Some (known' !! k) <-> k ∈ Engine.keys conns)
         /\ (forall k c, known' !! k = Some c ->
               exists c0, c0 ∈ conns
                          /\ k = Engine.connKey (Engine.parsed c0)
                          /\ Engine.conn_fields c
                             = Engine.stamped known now c0)
         /\ (forall k prev c,
               known !! k = Some prev -> Engine.Hostname prev <> "" ->
               known' !! k = Some c ->
               Engine.Hostname c = Engine.Hostname prev
               /\ Engine.AppName c = Engine.AppName prev)
         /\ exists more news,
              Engine.connCh e' = (Engine.connCh e ++ more)%list
              /\ Engine.packetCh e'
                 = (Engine.packetCh e ++ map Engine.connToPacket news)%list
              /\ Engine.stats e'
                 = Nat.iter (length news) (Engine.count_connection now)
                            (Engine.stats e)
              /\ NoDup (map Engine.connKey news)
              /\ (forall k, k ∈ map Engine.connKey news
                            <-> k ∈ Engine.keys conns /\ known !! k = None)
              /\ (forall c, c ∈ news -> c ∈ more)
              /\ (forall c, c ∈ more ->
                    Engine.offered_by known conns now c
                    /\ (c ∈ news \/ Engine.Hostname c <> "")).
Proof.
  unfold Engine.readAndDiffProcNet.
  destruct tcpOut as [out|].
  2:{ exists e, p, known. cbn. split; [reflexivity|]. split; [auto|].
      intros conns p2 H. discriminate. }
  destruct (read_conns_Some p out tcp6Out udpOut udp6Out t1 t2 t3 t4)
    as (conns & p1 & ->).
  unfold Engine.diffProcNet.
  destruct (diff_loop_spec now conns known e)
    as (known1 & e1 & more & news & -> & Hdom & Hout & Hin & Hhost
        & Huid & Hstats & Hconn & Hpkt & Hnd & Hnews & Hmore & Hsub).
  cbn [mbind option_bind].
  eexists _, _, _. split; [reflexivity|]. split; [discriminate|].
  intros conns' p2 E. injection E as <- <-.
  assert (Hseen : forall k, k ∈ Engine.seen_keys conns <-> k ∈ Engine.keys conns).
  { intros k. unfold Engine.seen_keys, Engine.keys. apply elem_of_list_to_set. }
  split; [reflexivity|]. split; [exact Huid|].
  split.
  { intros k. split.
    - intros [d Hd]. apply map_lookup_filter_Some in Hd as [_ Hs].
      apply Hseen, Hs.
    - intros Hk. destruct (proj2 (Hdom k) (or_intror Hk)) as [d Hd].
      exists d. apply map_lookup_filter_Some. split; [exact Hd|].
      apply Hseen, Hk. }
  split.
  { intros k c Hl. apply map_lookup_filter_Some in Hl as [Hl Hs].
    apply (Hin k c); [apply Hseen, Hs|exact Hl]. }
  split.
  { intros k prev c Hk Hh Hl. apply map_lookup_filter_Some in Hl as [Hl _].
    apply (Hhost k prev c Hk Hh Hl). }
  exists more, news. auto 10.
Qed.

End EngineFacts.
